(** * Range-based annotation rendering: a shallow embedding

    This development embeds the annotation engine of the workspace
    application:

    - [src/types/index.ts]: the records [TextRange], [Reply], [Annotation];
    - [src/components/document/document-viewer.tsx]: [handleSelection],
      the [renderedContent] memo (boundary collection, sorting, segment loop,
      per-segment highlight state) and the text that its nodes put in the
      container element;
    - [src/services/document-service.ts]: [saveAnnotation],
      [updateAnnotation], [deleteAnnotation] over local storage, and with
      them [getDocuments], [saveDocument], [getAnnotations], [addReply],
      [updatePresence] and [getPresence];
    - the application component: the in-memory removal
      [prev.filter(a => a.id !== id)], [syncAll], [handleAddAnnotation],
      [handleFlashInsight] and its expiry;
    - [src/components/document/annotation-sidebar.tsx]: the [users] and
      [filteredAnnotations] memos, [saveEdit], [submitReply];
    - [src/components/document/upload-zone.tsx]: the file type,
      [extractTextFromPDF] and [handleFileUpload].

    Conventions.  A JavaScript [number] holding an offset, a timestamp or a
    count is a [Z].  A JavaScript string is the list of its code units, and
    the code units modelled are the 256 characters of [ascii], the ASCII
    range and the Latin-1 supplement, with the case mappings of Unicode on
    them; a code unit above 255 is not representable.  A loop that the
    source does not bound takes fuel, and running dry is a separate
    outcome, so that "returns" and "does not return" are both statable. *)

From Stdlib Require Import ZArith NArith List Bool Ascii String Lia.
From Stdlib Require Import DecimalString.
From Stdlib Require Import Sorting.Sorted Sorting.Permutation.
Import ListNotations.

Set Implicit Arguments.

(** [length] is the length of a list throughout. *)
Abbreviation length := Datatypes.length.

(* ================================================================== *)
(** ** JavaScript strings *)

Definition jstr : Type := list ascii.

(** A string literal as a list of code units. *)
Definition js (s : string) : jstr := list_ascii_of_string s.

Definition jstr_eqb (a b : jstr) : bool :=
  if list_eq_dec ascii_dec a b then true else false.

Definition code (c : ascii) : N := N_of_ascii c.

Definition isUpperAZ (c : ascii) : bool := ((65 <=? code c) && (code c <=? 90))%N.
Definition isLowerAZ (c : ascii) : bool := ((97 <=? code c) && (code c <=? 122))%N.

(** The upper-case letters of the Latin-1 supplement, U+00C0 to U+00DE
    without the multiplication sign U+00D7, and the lower-case ones they
    pair with, U+00E0 to U+00FE without the division sign U+00F7. *)
Definition isUpperLatin1 (c : ascii) : bool :=
  ((192 <=? code c) && (code c <=? 222) && negb (code c =? 215))%N.
Definition isLowerLatin1 (c : ascii) : bool :=
  ((224 <=? code c) && (code c <=? 254) && negb (code c =? 247))%N.

(** [String.prototype.toLowerCase], one code unit: the letters A to Z and
    the upper-case letters of Latin-1 move up by 32, every other code unit
    below 256 is its own lower case. *)
Definition lowerChar (c : ascii) : ascii :=
  if isUpperAZ c || isUpperLatin1 c then ascii_of_N (code c + 32) else c.

(** The [Canonicalize] operation of a regular expression compiled with the
    [i] flag and without the [u] flag: the upper-case mapping of one code
    unit.  The letters a to z and the lower-case letters of Latin-1 move
    down by 32.  The sharp s (U+00DF) has an upper case of two code units
    and is kept.  The micro sign (U+00B5) and the y with diaeresis (U+00FF)
    have their upper case above 255; no other code unit below 256 shares
    it, so each stands for its own image here, which leaves every
    comparison of two canonicalized code units as the engine decides it. *)
Definition canonicalize (c : ascii) : ascii :=
  if isLowerAZ c || isLowerLatin1 c then ascii_of_N (code c - 32) else c.

Definition toLowerCase (s : jstr) : jstr := map lowerChar s.

Fixpoint isPrefixOf (p s : jstr) : bool :=
  match p, s with
  | [], _ => true
  | _ :: _, [] => false
  | a :: p', b :: s' => Ascii.eqb a b && isPrefixOf p' s'
  end.

(** [String.prototype.startsWith]. *)
Definition startsWith (s p : jstr) : bool := isPrefixOf p s.

(** [String.prototype.includes]: some position of [s] starts a copy of
    [search]. *)
Fixpoint includes (s search : jstr) : bool :=
  isPrefixOf search s ||
  match s with
  | [] => false
  | _ :: tl => includes tl search
  end.

(** [String.prototype.slice(start, end)]: a negative argument counts from
    the end, both are clamped to the string, an empty span yields the empty
    string. *)
Definition slice (s : jstr) (from to : Z) : jstr :=
  let len := Z.of_nat (length s) in
  let k := if (from <? 0)%Z then Z.max (len + from) 0 else Z.min from len in
  let final := if (to <? 0)%Z then Z.max (len + to) 0 else Z.min to len in
  firstn (Z.to_nat (Z.max (final - k) 0)) (skipn (Z.to_nat k) s).

(** The white space and line terminators that [String.prototype.trim]
    strips, among the code units modelled. *)
Definition isWhiteSpace (c : ascii) : bool :=
  existsb (N.eqb (code c)) [9; 10; 11; 12; 13; 32; 160]%N.

Fixpoint trimStart (s : jstr) : jstr :=
  match s with
  | [] => []
  | c :: tl => if isWhiteSpace c then trimStart tl else s
  end.

Definition trim (s : jstr) : jstr := rev (trimStart (rev (trimStart s))).

(* ================================================================== *)
(** ** Outcomes of a computation *)

Inductive outcome (A : Type) : Type :=
| Returned (a : A)           (* normal completion *)
| ThrowsSyntaxError          (* [new RegExp] rejected the pattern *)
| OutOfFuel                  (* the loop was still running *)
| OutsideFragment.           (* the pattern is not in the modelled syntax *)

Arguments ThrowsSyntaxError {A}.
Arguments OutOfFuel {A}.
Arguments OutsideFragment {A}.

Definition mapOutcome (A B : Type) (f : A -> B) (o : outcome A) : outcome B :=
  match o with
  | Returned a => Returned (f a)
  | ThrowsSyntaxError => ThrowsSyntaxError
  | OutOfFuel => OutOfFuel
  | OutsideFragment => OutsideFragment
  end.

Definition bindOutcome (A B : Type) (o : outcome A) (f : A -> outcome B) : outcome B :=
  match o with
  | Returned a => f a
  | ThrowsSyntaxError => ThrowsSyntaxError
  | OutOfFuel => OutOfFuel
  | OutsideFragment => OutsideFragment
  end.

(* ================================================================== *)
(** ** The regular-expression engine, on a fragment of the pattern syntax

    [new RegExp(searchTerm, 'gi')] reads the search term as a pattern.  The
    engine is modelled on the patterns made of ordinary characters, [.],
    [^], [$] and a backslash followed by a syntax character; a pattern that
    ends in a lone backslash is a syntax error.  Any other use of a syntax
    character (quantifiers, groups, classes, alternation, other escapes) is
    outside the fragment and the model says nothing about it. *)

Module RegExp.

Inductive atom : Type :=
| Lit (c : ascii)      (* a pattern character, or an identity escape *)
| AnyChar              (* [.] *)
| AssertStart          (* [^] *)
| AssertEnd.           (* [$] *)

(** ECMAScript [SyntaxCharacter]: one of [^ $ \ . * + ? ( ) [ ] { } |]. *)
Definition isSyntaxCharacter (c : ascii) : bool :=
  existsb (N.eqb (code c))
    [94; 36; 92; 46; 42; 43; 63; 40; 41; 91; 93; 123; 125; 124]%N.

Definition isLineTerminator (c : ascii) : bool :=
  existsb (N.eqb (code c)) [10; 13]%N.

Definition consAtom (a : atom) (r : outcome (list atom)) : outcome (list atom) :=
  mapOutcome (cons a) r.

(** The parser of the fragment.  [92] is the backslash, [47] the slash. *)
Fixpoint parse (p : jstr) : outcome (list atom) :=
  match p with
  | [] => Returned []
  | c :: rest =>
      if (code c =? 92)%N then
        match rest with
        | [] => ThrowsSyntaxError
        | d :: rest' =>
            if isSyntaxCharacter d || (code d =? 47)%N
            then consAtom (Lit d) (parse rest')
            else OutsideFragment
        end
      else if (code c =? 46)%N then consAtom AnyChar (parse rest)
      else if (code c =? 94)%N then consAtom AssertStart (parse rest)
      else if (code c =? 36)%N then consAtom AssertEnd (parse rest)
      else if isSyntaxCharacter c then OutsideFragment
      else consAtom (Lit c) (parse rest)
  end.

(** Matching the atoms in sequence from index [i] of [input]; the result
    is the end index of the match. *)
Fixpoint matchAt (atoms : list atom) (input : jstr) (i : nat) : option nat :=
  match atoms with
  | [] => Some i
  | Lit c :: r =>
      match nth_error input i with
      | Some d =>
          if Ascii.eqb (canonicalize d) (canonicalize c)
          then matchAt r input (S i) else None
      | None => None
      end
  | AnyChar :: r =>
      match nth_error input i with
      | Some d => if isLineTerminator d then None else matchAt r input (S i)
      | None => None
      end
  | AssertStart :: r => if Nat.eqb i 0 then matchAt r input i else None
  | AssertEnd :: r => if Nat.eqb i (length input) then matchAt r input i else None
  end.

(** The retry loop of [RegExpBuiltinExec]: the first index from [i] on, up
    to the length of the input, where the pattern matches. *)
Fixpoint searchFrom (atoms : list atom) (input : jstr) (i steps : nat)
  : option (nat * nat) :=
  match steps with
  | O => None
  | S k =>
      match matchAt atoms input i with
      | Some e => Some (i, e)
      | None => searchFrom atoms input (S i) k
      end
  end.

(** [regex.exec(input)] of a global expression whose [lastIndex] is
    [lastIndex]: [Some (index, e)] is a match from [index] to [e], after
    which [lastIndex] is [e]; [None] is [null]. *)
Definition exec (atoms : list atom) (input : jstr) (lastIndex : nat)
  : option (nat * nat) :=
  if length input <? lastIndex then None
  else searchFrom atoms input lastIndex (S (length input) - lastIndex).

End RegExp.

(* ================================================================== *)
(** ** [Set<number>] and the numeric sort *)

(** A [Set] keeps its elements in insertion order, each once. *)
Definition setHas (x : Z) (s : list Z) : bool := existsb (Z.eqb x) s.

Definition setAdd (x : Z) (s : list Z) : list Z :=
  if setHas x s then s else s ++ [x].

(** [Array.prototype.sort((a, b) => a - b)]: [a] goes before [b] when
    [a - b <= 0]; the sort is stable. *)
Fixpoint insertNum (x : Z) (l : list Z) : list Z :=
  match l with
  | [] => [x]
  | y :: t => if (x - y <=? 0)%Z then x :: y :: t else y :: insertNum x t
  end.

Definition sortNum (l : list Z) : list Z := fold_right insertNum [] l.

(* ================================================================== *)
(** ** The data model ([src/types/index.ts]) *)

Module TextRange.
Record t : Type := Build { start : Z; end_ : Z; text : jstr }.
End TextRange.

Module Reply.
Record t : Type := Build {
  id : jstr;
  userId : jstr;
  userName : jstr;
  userColor : jstr;
  comment : jstr;
  timestamp : Z
}.
End Reply.

(** [replies] is optional in the source, and [isTemporary] is the optional
    field that the application's [AppAnnotation] adds. *)
Module Annotation.
Record t : Type := Build {
  id : jstr;
  documentId : jstr;
  userId : jstr;
  userName : jstr;
  userColor : jstr;
  range : TextRange.t;
  comment : jstr;
  timestamp : Z;
  replies : option (list Reply.t);
  isTemporary : option bool
}.

(** The assignment [a.comment = c]. *)
Definition setComment (a : t) (c : jstr) : t :=
  Build (id a) (documentId a) (userId a) (userName a) (userColor a)
        (range a) c (timestamp a) (replies a) (isTemporary a).
End Annotation.

Module DocumentData.
Record t : Type := Build {
  id : jstr;
  title : jstr;
  content : jstr;
  createdAt : Z;
  authorId : jstr
}.
End DocumentData.

Module Presence.
Record t : Type := Build {
  userId : jstr;
  userName : jstr;
  userColor : jstr;
  lastActive : Z;
  currentDocId : option jstr
}.
End Presence.

Module User.
Record t : Type := Build {
  id : jstr;
  name : jstr;
  avatar : option jstr;
  color : jstr
}.
End User.

(* ================================================================== *)
(** ** The document viewer ([document-viewer.tsx]) *)

Module Viewer.

(** *** [handleSelection]

    The platform is modelled by what the handler reads from it.  The page
    is the text of its text nodes in document order: the text before the
    container element, the text of the container, the text behind it.  A
    selection holds at most one range, given by the offsets of its two
    boundary points in the text of the page, so a range may start or end
    outside the container; a selection without a range is collapsed. *)

Record Page : Type := {
  textBefore : jstr;
  textAfter : jstr
}.

Definition pageText (page : Page) (containerText : jstr) : jstr :=
  textBefore page ++ containerText ++ textAfter page.

Record Selection : Type := { rangeAt0 : option (nat * nat) }.

Definition isCollapsed (sel : Selection) : bool :=
  match rangeAt0 sel with
  | None => true
  | Some (a, b) => Nat.eqb a b
  end.

(** [preSelectionRange.toString()].  [selectNodeContents] puts the range
    around the container, then [setEnd] moves its end to the start of the
    selected range: the text runs from the start of the container to the
    start of the selection (past the end of the container when the
    selection starts behind it), and a selection that starts before the
    container collapses the range, whose text is then empty. *)
Definition preSelectionText (page : Page) (containerText : jstr)
           (rangeStart : nat) : jstr :=
  slice (pageText page containerText)
        (Z.of_nat (length (textBefore page))) (Z.of_nat rangeStart).

(** [selection.toString()]: the selected text of the page, empty without a
    range. *)
Definition selectionToString (page : Page) (containerText : jstr)
           (sel : Selection) : jstr :=
  match rangeAt0 sel with
  | None => []
  | Some (a, b) => slice (pageText page containerText) (Z.of_nat a) (Z.of_nat b)
  end.

(** The result is the argument given to [onSelectRange], [None] when the
    handler returns without calling it.  After the guard the selection is
    not collapsed, so [getRangeAt(0)] finds its range. *)
Definition handleSelection (page : Page) (selection : option Selection)
           (containerRef_current : option jstr) : option TextRange.t :=
  match selection, containerRef_current with
  | Some sel, Some containerText =>
      if isCollapsed sel then None
      else
        match rangeAt0 sel with
        | None => None
        | Some range =>
            let start :=
              Z.of_nat (length (preSelectionText page containerText (fst range))) in
            let selectedText := selectionToString page containerText sel in
            let end_ := (start + Z.of_nat (length selectedText))%Z in
            if (0 <? Z.of_nat (length (trim selectedText)))%Z
            then Some (TextRange.Build start end_ selectedText)
            else None
        end
  | _, _ => None
  end.

(** *** [renderedContent] *)

(** [annotations.forEach(a => { boundaries.add(start); boundaries.add(end) })] *)
Definition addAnnotationBoundaries (annotations : list Annotation.t)
           (boundaries : list Z) : list Z :=
  fold_left
    (fun bs a =>
       setAdd (TextRange.end_ (Annotation.range a))
              (setAdd (TextRange.start (Annotation.range a)) bs))
    annotations boundaries.

(** [while ((match = regex.exec(content)) !== null) { ... }]: every match
    adds [match.index] and [match.index + match[0].length]; the next call
    of [exec] starts at the end of the match. *)
Fixpoint addMatchBoundaries (fuel : nat) (regex : list RegExp.atom)
         (content : jstr) (lastIndex : nat) (boundaries : list Z)
  : outcome (list Z) :=
  match fuel with
  | O => OutOfFuel
  | S fuel' =>
      match RegExp.exec regex content lastIndex with
      | None => Returned boundaries
      | Some (index, e) =>
          let match0 := slice content (Z.of_nat index) (Z.of_nat e) in
          addMatchBoundaries fuel' regex content e
            (setAdd (Z.of_nat index + Z.of_nat (length match0))
                    (setAdd (Z.of_nat index) boundaries))
      end
  end.

(** [searchTerm && searchTerm.length > 2] *)
Definition searchActive (searchTerm : option jstr) : bool :=
  match searchTerm with
  | Some t => (2 <? length t)
  | None => false
  end.

(** The boundary set when the memo reaches the sort. *)
Definition boundarySet (fuel : nat) (content : jstr)
           (annotations : list Annotation.t) (searchTerm : option jstr)
  : outcome (list Z) :=
  let boundaries :=
    addAnnotationBoundaries annotations
      (setAdd (Z.of_nat (length content)) (setAdd 0%Z [])) in
  match searchTerm with
  | Some term =>
      if searchActive searchTerm then
        bindOutcome (RegExp.parse term)
          (fun regex => addMatchBoundaries fuel regex content 0 boundaries)
      else Returned boundaries
  | None => Returned boundaries
  end.

Definition sortedBoundaries (fuel : nat) (content : jstr)
           (annotations : list Annotation.t) (searchTerm : option jstr)
  : outcome (list Z) :=
  mapOutcome sortNum (boundarySet fuel content annotations searchTerm).

(** [start >= a.range.start && end <= a.range.end] *)
Definition covers (start end_ : Z) (a : Annotation.t) : bool :=
  ((TextRange.start (Annotation.range a) <=? start)
   && (end_ <=? TextRange.end_ (Annotation.range a)))%Z.

(** [activeAnnos.sort((a, b) => b.timestamp - a.timestamp)]: [a] goes
    before [b] when [b.timestamp - a.timestamp <= 0]; the sort is stable. *)
Fixpoint insertByTimestamp (x : Annotation.t) (l : list Annotation.t)
  : list Annotation.t :=
  match l with
  | [] => [x]
  | y :: t =>
      if (Annotation.timestamp y - Annotation.timestamp x <=? 0)%Z
      then x :: y :: t else y :: insertByTimestamp x t
  end.

Definition sortByTimestampDesc (l : list Annotation.t) : list Annotation.t :=
  fold_right insertByTimestamp [] l.

(** [a.replies?.length || 0] *)
Definition repliesLength (a : Annotation.t) : Z :=
  match Annotation.replies a with
  | Some rs => Z.of_nat (length rs)
  | None => 0%Z
  end.

(** What the annotated branch of the loop body computes for its [mark]. *)
Record Highlight : Type := {
  isSelected : bool;
  isFlash : bool;
  primaryAnno : Annotation.t;
  baseColor : jstr;
  totalReplies : Z
}.

Definition idIs (activeAnnotationId : option jstr) (a : Annotation.t) : bool :=
  match activeAnnotationId with
  | Some i => jstr_eqb (Annotation.id a) i
  | None => false
  end.

Definition highlightOf (activeAnnos : list Annotation.t)
           (activeAnnotationId : option jstr) : option Highlight :=
  match sortByTimestampDesc activeAnnos with
  | [] => None
  | (primary :: _) as sorted =>
      let selected := existsb (idIs activeAnnotationId) activeAnnos in
      let flash :=
        existsb (fun a => startsWith (Annotation.id a) (js "flash-")) activeAnnos in
      Some {| isSelected := selected;
              isFlash := flash;
              primaryAnno := primary;
              baseColor := if flash then js "#10b981"
                           else Annotation.userColor primary;
              totalReplies :=
                fold_left (fun sum a => (sum + repliesLength a)%Z) sorted 0%Z |}
  end.

(** One iteration of the segment loop: the locals of the loop body and, in
    [mark], the state of the annotated branch ([None] on the plain
    branch). *)
Record Segment : Type := {
  seg_start : Z;
  seg_end : Z;
  seg_text : jstr;
  activeAnnos : list Annotation.t;
  isSearchMatch : bool;
  mark : option Highlight
}.

Definition buildSegment (content : jstr) (annotations : list Annotation.t)
           (activeAnnotationId : option jstr) (searchTerm : option jstr)
           (start end_ : Z) : Segment :=
  let text := slice content start end_ in
  let actives := filter (covers start end_) annotations in
  {| seg_start := start;
     seg_end := end_;
     seg_text := text;
     activeAnnos := actives;
     isSearchMatch :=
       match searchTerm with
       | Some term =>
           searchActive searchTerm
           && includes (toLowerCase text) (toLowerCase term)
       | None => false
       end;
     mark := highlightOf actives activeAnnotationId |}.

(** The pairs [(sortedBoundaries[i], sortedBoundaries[i+1])] for
    [0 <= i < sortedBoundaries.length - 1]. *)
Fixpoint consecutive (bs : list Z) : list (Z * Z) :=
  match bs with
  | a :: (b :: _) as tl => (a, b) :: consecutive tl
  | _ => []
  end.

(** The memo: [None] is the [null] returned for an empty content. *)
Definition renderedContent (fuel : nat) (content : jstr)
           (annotations : list Annotation.t)
           (activeAnnotationId : option jstr) (searchTerm : option jstr)
  : outcome (option (list Segment)) :=
  match content with
  | [] => Returned None
  | _ :: _ =>
      mapOutcome
        (fun sorted =>
           Some (map (fun p => buildSegment content annotations
                                 activeAnnotationId searchTerm (fst p) (snd p))
                     (consecutive sorted)))
        (sortedBoundaries fuel content annotations searchTerm)
  end.

(** The segments drawn: none for [null]. *)
Definition segmentsOf (r : option (list Segment)) : list Segment :=
  match r with
  | Some segs => segs
  | None => []
  end.

(** *** The text of the container

    The container element holds the nodes of [renderedContent] and nothing
    else.  The node of a segment holds its [text]; inside the [mark] of an
    annotated segment with [totalReplies > 0] the badge follows, a [span]
    whose text is the decimal numeral of [totalReplies].  The search
    wrapper adds no text. *)

(** [{totalReplies}]: a number rendered as text. *)
Definition numberText (n : Z) : jstr :=
  list_ascii_of_string (NilZero.string_of_int (Z.to_int n)).

Definition badgeText (seg : Segment) : jstr :=
  match mark seg with
  | Some h => if (0 <? totalReplies h)%Z then numberText (totalReplies h) else []
  | None => []
  end.

Definition nodeText (seg : Segment) : jstr := seg_text seg ++ badgeText seg.

(** The text that the ranges of [handleSelection] run over. *)
Definition containerTextOf (r : option (list Segment)) : jstr :=
  List.concat (map nodeText (segmentsOf r)).

(** *** The match spans as a list

    The same loop as [addMatchBoundaries], keeping each match as the span
    [(match.index, match.index + match[0].length)] instead of adding its
    two ends to the set. *)
Fixpoint foundMatches (fuel : nat) (regex : list RegExp.atom)
         (content : jstr) (lastIndex : nat) : outcome (list (Z * Z)) :=
  match fuel with
  | O => OutOfFuel
  | S fuel' =>
      match RegExp.exec regex content lastIndex with
      | None => Returned []
      | Some (index, e) =>
          let match0 := slice content (Z.of_nat index) (Z.of_nat e) in
          mapOutcome
            (cons (Z.of_nat index, (Z.of_nat index + Z.of_nat (length match0))%Z))
            (foundMatches fuel' regex content e)
      end
  end.

Definition addSpan (boundaries : list Z) (m : Z * Z) : list Z :=
  setAdd (snd m) (setAdd (fst m) boundaries).

(** The spans that the search loop of the memo finds; none when the loop
    is not entered. *)
Definition searchMatches (fuel : nat) (content : jstr) (searchTerm : option jstr)
  : outcome (list (Z * Z)) :=
  match searchTerm with
  | Some term =>
      if searchActive searchTerm then
        bindOutcome (RegExp.parse term)
          (fun regex => foundMatches fuel regex content 0)
      else Returned []
  | None => Returned []
  end.

End Viewer.

(* ================================================================== *)
(** ** The persistence service ([document-service.ts]) *)

Module DocumentService.

(** The three keys of local storage that the service owns.  A key that was
    never written reads as [null], here [None]; a written key holds the
    array that [JSON.parse] gives back. *)
Record LocalStorage : Type := {
  docs : option (list DocumentData.t);         (* collab_annotate_docs *)
  annos : option (list Annotation.t);          (* collab_annotate_annos *)
  presence : option (list Presence.t)          (* collab_annotate_presence *)
}.

(** The events given to [window.dispatchEvent]. *)
Inductive Event : Type := StorageEvent | PresenceUpdateEvent.

(** [data ? JSON.parse(data) : []] on the annotations key. *)
Definition readAnnos (ls : LocalStorage) : list Annotation.t :=
  match annos ls with
  | Some all => all
  | None => []
  end.

(** [localStorage.setItem(STORAGE_KEY_ANNOS, JSON.stringify(all))] *)
Definition writeAnnos (ls : LocalStorage) (all : list Annotation.t) : LocalStorage :=
  {| docs := docs ls; annos := Some all; presence := presence ls |}.

Definition getAnnotations (documentId : jstr) (ls : LocalStorage)
  : list Annotation.t :=
  filter (fun a => jstr_eqb (Annotation.documentId a) documentId) (readAnnos ls).

(** The predicate of the duplicate guard. *)
Definition sameSubmission (anno a : Annotation.t) : bool :=
  jstr_eqb (Annotation.documentId a) (Annotation.documentId anno)
  && jstr_eqb (Annotation.userId a) (Annotation.userId anno)
  && (TextRange.start (Annotation.range a)
      =? TextRange.start (Annotation.range anno))%Z
  && (TextRange.end_ (Annotation.range a)
      =? TextRange.end_ (Annotation.range anno))%Z.

Definition saveAnnotation (anno : Annotation.t) (ls : LocalStorage)
  : LocalStorage * list Event :=
  let all := readAnnos ls in
  match find (sameSubmission anno) all with
  | Some _ => (ls, [])
  | None => (writeAnnos ls (all ++ [anno]), [StorageEvent])
  end.

(** [Array.prototype.findIndex]; [None] is [-1]. *)
Fixpoint findIndex (A : Type) (p : A -> bool) (l : list A) : option nat :=
  match l with
  | [] => None
  | a :: t => if p a then Some O else option_map S (findIndex p t)
  end.

(** [all[index].comment = comment] *)
Fixpoint assignComment (all : list Annotation.t) (index : nat) (comment : jstr)
  : list Annotation.t :=
  match all, index with
  | [], _ => []
  | a :: t, O => Annotation.setComment a comment :: t
  | a :: t, S k => a :: assignComment t k comment
  end.

Definition hasId (id : jstr) (a : Annotation.t) : bool :=
  jstr_eqb (Annotation.id a) id.

Definition updateAnnotation (id comment : jstr) (ls : LocalStorage)
  : LocalStorage * list Event :=
  let all := readAnnos ls in
  match findIndex (hasId id) all with
  | Some index => (writeAnnos ls (assignComment all index comment), [StorageEvent])
  | None => (ls, [])
  end.

Definition deleteAnnotation (id : jstr) (ls : LocalStorage)
  : LocalStorage * list Event :=
  let all := readAnnos ls in
  let filtered := filter (fun a => negb (hasId id a)) all in
  (writeAnnos ls filtered, [StorageEvent]).

(** [getDocuments]: [data ? JSON.parse(data) : []] on the documents key. *)
Definition getDocuments (ls : LocalStorage) : list DocumentData.t :=
  match docs ls with
  | Some all => all
  | None => []
  end.

Definition saveDocument (doc : DocumentData.t) (ls : LocalStorage)
  : LocalStorage * list Event :=
  ({| docs := Some (getDocuments ls ++ [doc]);
      annos := annos ls;
      presence := presence ls |},
   [StorageEvent]).

(** [if (!all[index].replies) all[index].replies = [];
    all[index].replies?.push(reply)] on one annotation. *)
Definition pushReply (a : Annotation.t) (reply : Reply.t) : Annotation.t :=
  Annotation.Build
    (Annotation.id a) (Annotation.documentId a) (Annotation.userId a)
    (Annotation.userName a) (Annotation.userColor a) (Annotation.range a)
    (Annotation.comment a) (Annotation.timestamp a)
    (Some (match Annotation.replies a with
           | Some rs => rs
           | None => []
           end ++ [reply]))
    (Annotation.isTemporary a).

Fixpoint pushReplyAt (all : list Annotation.t) (index : nat) (reply : Reply.t)
  : list Annotation.t :=
  match all, index with
  | [], _ => []
  | a :: t, O => pushReply a reply :: t
  | a :: t, S k => a :: pushReplyAt t k reply
  end.

Definition addReply (annotationId : jstr) (reply : Reply.t) (ls : LocalStorage)
  : LocalStorage * list Event :=
  let all := readAnnos ls in
  match findIndex (hasId annotationId) all with
  | Some index => (writeAnnos ls (pushReplyAt all index reply), [StorageEvent])
  | None => (ls, [])
  end.

(** [data ? JSON.parse(data) : []] on the presence key. *)
Definition readPresence (ls : LocalStorage) : list Presence.t :=
  match presence ls with
  | Some all => all
  | None => []
  end.

(** [(now - p.lastActive) < 15000] *)
Definition activeAt (now : Z) (p : Presence.t) : bool :=
  (now - Presence.lastActive p <? 15000)%Z.

(** [updatePresence]; [now] is the value of [Date.now()]. *)
Definition updatePresence (p : Presence.t) (now : Z) (ls : LocalStorage)
  : LocalStorage * list Event :=
  let all :=
    filter (fun q => negb (jstr_eqb (Presence.userId q) (Presence.userId p))
                     && activeAt now q)
           (readPresence ls) in
  ({| docs := docs ls; annos := annos ls; presence := Some (all ++ [p]) |},
   [PresenceUpdateEvent]).

(** [getPresence]; [now] is the value of [Date.now()]. *)
Definition getPresence (now : Z) (ls : LocalStorage) : list Presence.t :=
  filter (activeAt now) (readPresence ls).

End DocumentService.

(* ================================================================== *)
(** ** The in-memory active set (the application component) *)

Module App.

(** [setAnnotations(prev => prev.filter(a => a.id !== id))], the update
    made by the expiry timer of [handleFlashInsight] and by
    [handleDeleteAnnotation]. *)
Definition removeActive (id : jstr) (prev : list Annotation.t)
  : list Annotation.t :=
  filter (fun a => negb (DocumentService.hasId id a)) prev.

(** [handleDeleteAnnotation]: the store, then the active set. *)
Definition handleDeleteAnnotation (id : jstr)
           (st : DocumentService.LocalStorage * list Annotation.t)
  : DocumentService.LocalStorage * list Annotation.t :=
  (fst (DocumentService.deleteAnnotation id (fst st)), removeActive id (snd st)).

(** The state of the component that the handlers below read and write. *)
Record State : Type := {
  storage : DocumentService.LocalStorage;
  currentUser : option User.t;
  documents : list DocumentData.t;
  activeDocId : option jstr;
  annotations : list Annotation.t;
  presence : list Presence.t;
  currentSelection : option TextRange.t;
  commentText : jstr;
  activeAnnotationId : option jstr
}.

(** The truth value of a [string | null]: [null] and the empty string are
    falsy. *)
Definition truthy (s : option jstr) : bool :=
  match s with
  | Some (_ :: _) => true
  | _ => false
  end.

(** The truth value of [a.isTemporary]. *)
Definition isTemp (a : Annotation.t) : bool :=
  match Annotation.isTemporary a with
  | Some true => true
  | _ => false
  end.

(** [syncAll]; [now] is the value of [Date.now()] in [getPresence]. *)
Definition syncAll (now : Z) (st : State) : State :=
  {| storage := storage st;
     currentUser := currentUser st;
     documents := DocumentService.getDocuments (storage st);
     activeDocId := activeDocId st;
     annotations :=
       match activeDocId st with
       | Some docId =>
           if truthy (activeDocId st)
           then DocumentService.getAnnotations docId (storage st)
                ++ filter isTemp (annotations st)
           else annotations st
       | None => annotations st
       end;
     presence := DocumentService.getPresence now (storage st);
     currentSelection := currentSelection st;
     commentText := commentText st;
     activeAnnotationId := activeAnnotationId st |}.

(** [activeDoc]: [documents.find(d => d.id === activeDocId)]. *)
Definition activeDoc (st : State) : option DocumentData.t :=
  match activeDocId st with
  | Some docId => find (fun d => jstr_eqb (DocumentData.id d) docId) (documents st)
  | None => None
  end.

(** [handleAddAnnotation]; [uuid] is the value of [crypto.randomUUID()] and
    [now] the value of [Date.now()]. *)
Definition handleAddAnnotation (uuid : jstr) (now : Z) (st : State) : State :=
  match activeDocId st, currentSelection st, currentUser st with
  | Some docId, Some selection, Some user =>
      if truthy (activeDocId st)
         && negb (jstr_eqb (trim (commentText st)) [])
      then
        let newAnno :=
          Annotation.Build uuid docId (User.id user) (User.name user)
                           (User.color user) selection (commentText st) now
                           (Some []) None in
        {| storage := fst (DocumentService.saveAnnotation newAnno (storage st));
           currentUser := currentUser st;
           documents := documents st;
           activeDocId := activeDocId st;
           annotations := annotations st ++ [newAnno];
           presence := presence st;
           currentSelection := None;
           commentText := [];
           activeAnnotationId := Some uuid |}
      else st
  | _, _, _ => st
  end.

(** [response.text?.trim() || "Interesting point."] *)
Definition flashComment (responseText : option jstr) : jstr :=
  match responseText with
  | Some t => match trim t with
              | [] => js "Interesting point."
              | c :: r => c :: r
              end
  | None => js "Interesting point."
  end.

(** [handleFlashInsight] up to the scheduling of the expiry.  [response] is
    the outcome of the content-generation call: [None] when it fails (the
    [catch] branch changes no state modelled here), [Some text] for a
    response whose [text] is [text].  [uuid] and [now] are as above. *)
Definition handleFlashInsight (response : option (option jstr)) (uuid : jstr)
           (now : Z) (st : State) : State :=
  match currentSelection st, activeDoc st, currentUser st, response with
  | Some selection, Some doc, Some _, Some responseText =>
      let flashAnno :=
        Annotation.Build (js "flash-" ++ uuid) (DocumentData.id doc)
                         (js "gemini-ai") (js "Gemini AI") (js "#10b981")
                         selection (flashComment responseText) now
                         None (Some true) in
      {| storage := storage st;
         currentUser := currentUser st;
         documents := documents st;
         activeDocId := activeDocId st;
         annotations := annotations st ++ [flashAnno];
         presence := presence st;
         currentSelection := None;
         commentText := commentText st;
         activeAnnotationId := Some (Annotation.id flashAnno) |}
  | _, _, _, _ => st
  end.

(** The callback of the expiry timer.  It compares the id of the flash
    annotation with [capturedActiveId], the [activeAnnotationId] of the
    render in which [handleFlashInsight] was called. *)
Definition expireFlash (flashId : jstr) (capturedActiveId : option jstr)
           (st : State) : State :=
  {| storage := storage st;
     currentUser := currentUser st;
     documents := documents st;
     activeDocId := activeDocId st;
     annotations := removeActive flashId (annotations st);
     presence := presence st;
     currentSelection := currentSelection st;
     commentText := commentText st;
     activeAnnotationId :=
       match capturedActiveId with
       | Some i => if jstr_eqb i flashId then None else activeAnnotationId st
       | None => activeAnnotationId st
       end |}.

End App.

(* ================================================================== *)
(** ** The annotation sidebar ([annotation-sidebar.tsx]) *)

Module Sidebar.

(** [Map.prototype.set]: the value of a present key is replaced in place, a
    new key goes last. *)
Fixpoint mapSet (k v : jstr) (m : list (jstr * jstr)) : list (jstr * jstr) :=
  match m with
  | [] => [(k, v)]
  | (k', v') :: rest =>
      if jstr_eqb k' k then (k', v) :: rest else (k', v') :: mapSet k v rest
  end.

(** [Map.prototype.get]. *)
Fixpoint mapGet (k : jstr) (m : list (jstr * jstr)) : option jstr :=
  match m with
  | [] => None
  | (k', v') :: rest => if jstr_eqb k' k then Some v' else mapGet k rest
  end.

(** The [users] memo: [Array.from(map.entries())]. *)
Definition users (annotations : list Annotation.t) : list (jstr * jstr) :=
  fold_left (fun m a => mapSet (Annotation.userId a) (Annotation.userName a) m)
            annotations [].

(** [x >= t] and [x <= t] against the result of [getTime()], which is [NaN]
    ([None]) for a string that is no date; a comparison with [NaN] is
    false. *)
Definition geTime (x : Z) (t : option Z) : bool :=
  match t with
  | Some v => (v <=? x)%Z
  | None => false
  end.

Definition leTime (x : Z) (t : option Z) : bool :=
  match t with
  | Some v => (x <=? v)%Z
  | None => false
  end.

Section Filtered.

(** [new Date(s).getTime()], given by the platform. *)
Variable getTime : jstr -> option Z.

(** The [filteredAnnotations] memo. *)
Definition filteredAnnotations (annotations : list Annotation.t)
           (filterUser startDate endDate : jstr) : list Annotation.t :=
  let filtered := annotations in
  let filtered :=
    if jstr_eqb filterUser (js "all") then filtered
    else filter (fun a => jstr_eqb (Annotation.userId a) filterUser) filtered in
  let filtered :=
    match startDate with
    | [] => filtered
    | _ :: _ =>
        let start := getTime startDate in
        filter (fun a => geTime (Annotation.timestamp a) start) filtered
    end in
  let filtered :=
    match endDate with
    | [] => filtered
    | _ :: _ =>
        let end_ := option_map (fun t => (t + 86400000)%Z) (getTime endDate) in
        filter (fun a => leTime (Annotation.timestamp a) end_) filtered
    end in
  Viewer.sortByTimestampDesc filtered.

End Filtered.

(** The guard of [saveEdit] and the call it makes. *)
Definition saveEdit (editingId : option jstr) (editValue : jstr)
           (ls : DocumentService.LocalStorage)
  : DocumentService.LocalStorage * list DocumentService.Event :=
  match editingId with
  | Some id =>
      match id, trim editValue with
      | _ :: _, _ :: _ => DocumentService.updateAnnotation id editValue ls
      | _, _ => (ls, [])
      end
  | None => (ls, [])
  end.

(** The guard of [submitReply] and the call it makes; [uuid] and [now] are
    the values of [crypto.randomUUID()] and [Date.now()]. *)
Definition submitReply (annoId : jstr) (replyValue : jstr) (currentUser : User.t)
           (uuid : jstr) (now : Z) (ls : DocumentService.LocalStorage)
  : DocumentService.LocalStorage * list DocumentService.Event :=
  match trim replyValue with
  | [] => (ls, [])
  | _ :: _ =>
      DocumentService.addReply annoId
        (Reply.Build uuid (User.id currentUser) (User.name currentUser)
                     (User.color currentUser) replyValue now)
        ls
  end.

End Sidebar.

(* ================================================================== *)
(** ** The upload zone ([upload-zone.tsx]) *)

Module UploadZone.

(** [s.split('.')]: the pieces of [s] between the dots, at least one. *)
Fixpoint splitDot (s : jstr) : list jstr :=
  match s with
  | [] => [[]]
  | c :: rest =>
      if (code c =? 46)%N then [] :: splitDot rest
      else match splitDot rest with
           | piece :: pieces => (c :: piece) :: pieces
           | [] => [[c]]
           end
  end.

(** [file.name.split('.').pop()?.toLowerCase()] *)
Definition fileType (name : jstr) : jstr :=
  toLowerCase (last (splitDot name) []).

(** [Array.prototype.join(' ')]; [32] is the space. *)
Fixpoint joinSpace (pieces : list jstr) : jstr :=
  match pieces with
  | [] => []
  | [p] => p
  | p :: rest => p ++ ascii_of_N 32 :: joinSpace rest
  end.

(** What the text extraction reads from the PDF library: the loading fails
    with a message, or the document has pages; a page is [None] when
    [getPage] or [getTextContent] fails, and otherwise its items, where an
    item without [str] is [None]. *)
Inductive PdfLoad : Type :=
| LoadFails (message : jstr)
| Loaded (pages : list (option (list (option jstr)))).

(** [fullText] after the page loop; [10] is the line feed. *)
Fixpoint pagesText (pages : list (option (list (option jstr)))) : jstr :=
  match pages with
  | [] => []
  | None :: rest => pagesText rest
  | Some items :: rest =>
      joinSpace (map (fun item => match item with
                                  | Some str => str
                                  | None => []
                                  end) items)
      ++ ascii_of_N 10 :: ascii_of_N 10 :: pagesText rest
  end.

Inductive extraction : Type :=
| Extracted (text : jstr)
| Failed (message : jstr).

(** [err.message || 'Could not extract text from PDF.'] *)
Definition messageOr (message : jstr) : jstr :=
  match message with
  | [] => js "Could not extract text from PDF."
  | _ :: _ => message
  end.

(** [extractTextFromPDF]; [ocrResult] is what [performAIOCR] resolves to,
    read only on the branch that calls it. *)
Definition extractTextFromPDF (load : PdfLoad) (ocrResult : jstr) : extraction :=
  match load with
  | LoadFails message => Failed (messageOr message)
  | Loaded pages =>
      let result := trim (pagesText pages) in
      if jstr_eqb result [] || (length result <? 100) then
        if negb (jstr_eqb ocrResult []) && (50 <? length ocrResult)
        then Extracted ocrResult
        else if jstr_eqb result []
             then Failed (messageOr (js "This document contains no selectable text and AI OCR could not find meaningful content."))
             else Extracted result
      else Extracted result
  end.

(** What [handleFileUpload] reads from the file, each read only on its
    branch: [file.text()], the loaded PDF with the OCR result, and the
    [value] of [mammoth.extractRawText]. *)
Record FileReads : Type := {
  fileText : jstr;
  pdfLoad : PdfLoad;
  ocrText : jstr;
  wordValue : jstr
}.

(** The body of the [try] of [handleFileUpload]: the content it sets, or the
    message it shows. *)
Definition handleFileUpload (name : jstr) (reads : FileReads) : extraction :=
  let type := fileType name in
  if jstr_eqb type (js "txt") then Extracted (fileText reads)
  else if jstr_eqb type (js "pdf")
       then extractTextFromPDF (pdfLoad reads) (ocrText reads)
  else if jstr_eqb type (js "docx") || jstr_eqb type (js "doc")
       then match wordValue reads with
            | [] => Failed (js "Word document appears to be empty.")
            | _ :: _ => Extracted (wordValue reads)
            end
  else Failed (js "Unsupported format. Please use .pdf, .docx, or .txt").

End UploadZone.

(* ================================================================== *)
(** ** Vocabulary of the statements *)

(** The invariant of the data model on a range: [0 <= start <= end <= len]. *)
Definition rangeWithin (content : jstr) (a : Annotation.t) : Prop :=
  (0 <= TextRange.start (Annotation.range a)
   /\ TextRange.start (Annotation.range a) <= TextRange.end_ (Annotation.range a)
   /\ TextRange.end_ (Annotation.range a) <= Z.of_nat (length content))%Z.

(** A search term that holds no syntax character of the pattern language. *)
Definition isLiteralTerm (term : jstr) : bool :=
  forallb (fun c => negb (RegExp.isSyntaxCharacter c)) term.

(** A search term on which the memo does not run a pattern, or runs one
    that reads as the term itself. *)
Definition plainSearch (searchTerm : option jstr) : Prop :=
  match searchTerm with
  | Some term => Viewer.searchActive searchTerm = true -> isLiteralTerm term = true
  | None => True
  end.

(** The segments are in ascending order, none is empty, each starts where
    the one before ends, and together they run from [from] to [to]. *)
Fixpoint contiguous (from : Z) (segs : list Viewer.Segment) (to : Z) : Prop :=
  match segs with
  | [] => from = to
  | s :: rest =>
      Viewer.seg_start s = from
      /\ (Viewer.seg_start s < Viewer.seg_end s)%Z
      /\ contiguous (Viewer.seg_end s) rest to
  end.

(** The offset [x] lies in the span of [s]. *)
Definition inSpan (x : Z) (s : Viewer.Segment) : Prop :=
  (Viewer.seg_start s <= x < Viewer.seg_end s)%Z.

(** Two annotations with identical [(documentId, userId, start, end)]. *)
Definition sameTuple (a b : Annotation.t) : Prop :=
  Annotation.documentId a = Annotation.documentId b
  /\ Annotation.userId a = Annotation.userId b
  /\ TextRange.start (Annotation.range a) = TextRange.start (Annotation.range b)
  /\ TextRange.end_ (Annotation.range a) = TextRange.end_ (Annotation.range b).

Definition sumZ (l : list Z) : Z := fold_right Z.add 0%Z l.

(** The segment's text equals the text of a found span up to the case of
    letters, or the segment lies within a found span. *)
Definition equalsOrWithinFoundSpan (content : jstr) (ms : list (Z * Z))
           (seg : Viewer.Segment) : Prop :=
  exists m, In m ms
            /\ (toLowerCase (Viewer.seg_text seg)
                 = toLowerCase (slice content (fst m) (snd m))
                \/ (fst m <= Viewer.seg_start seg
                    /\ Viewer.seg_end seg <= snd m)%Z).

(** The scenario of the specification. *)
Definition scenarioContent : jstr := js "The quick brown fox".

(** An annotation of the scenarios. *)
Definition scenarioAnnotation (id : string) (start end_ : Z) (text : string)
           (timestamp : Z) : Annotation.t :=
  Annotation.Build (js id) (js "doc-1") (js "user-1") (js "Alex") (js "#ef4444")
                   (TextRange.Build start end_ (js text)) (js "a comment")
                   timestamp (Some []) None.

(** [term] occurs in [content] at offset [i], up to the case of letters. *)
Definition occursAt (term content : jstr) (i : nat) : Prop :=
  firstn (length term) (skipn i (toLowerCase content)) = toLowerCase term.

(** [x] is one of the offsets that the memo puts in its boundary set when
    its search loop finds the spans [ms]. *)
Definition isBoundary (content : jstr) (annotations : list Annotation.t)
           (ms : list (Z * Z)) (x : Z) : Prop :=
  x = 0%Z \/ x = Z.of_nat (length content)
  \/ (exists a, In a annotations
                /\ (x = TextRange.start (Annotation.range a)
                    \/ x = TextRange.end_ (Annotation.range a)))
  \/ (exists m, In m ms /\ (x = fst m \/ x = snd m)).

(** Local storage before any write. *)
Definition emptyStorage : DocumentService.LocalStorage :=
  {| DocumentService.docs := None;
     DocumentService.annos := None;
     DocumentService.presence := None |}.


(** An annotation of the scenarios with two replies. *)
Definition scenarioReply (id : string) (timestamp : Z) : Reply.t :=
  Reply.Build (js id) (js "user-2") (js "Sam") (js "#3b82f6") (js "a reply")
              timestamp.

Definition repliedAnnotation (id : string) (start end_ : Z) (text : string)
           (timestamp : Z) : Annotation.t :=
  Annotation.Build (js id) (js "doc-1") (js "user-2") (js "Sam") (js "#3b82f6")
                   (TextRange.Build start end_ (js text)) (js "a comment")
                   timestamp
                   (Some [scenarioReply "r1" (timestamp + 1);
                          scenarioReply "r2" (timestamp + 2)])
                   None.


(** The tuple of the duplicate guard. *)
Definition tupleOf (a : Annotation.t) : jstr * jstr * Z * Z :=
  (Annotation.documentId a, Annotation.userId a,
   TextRange.start (Annotation.range a), TextRange.end_ (Annotation.range a)).

(** No two annotations of the list have the same tuple. *)
Definition distinctTuples (l : list Annotation.t) : Prop :=
  NoDup (map tupleOf l).

(** The timestamps go down along the list. *)
Definition newestFirst (l : list Annotation.t) : Prop :=
  StronglySorted
    (fun a b => (Annotation.timestamp b <= Annotation.timestamp a)%Z) l.

(** Two annotations that differ at most in their replies. *)
Definition sameButReplies (a a' : Annotation.t) : Prop :=
  Annotation.id a' = Annotation.id a
  /\ Annotation.documentId a' = Annotation.documentId a
  /\ Annotation.userId a' = Annotation.userId a
  /\ Annotation.userName a' = Annotation.userName a
  /\ Annotation.userColor a' = Annotation.userColor a
  /\ Annotation.range a' = Annotation.range a
  /\ Annotation.comment a' = Annotation.comment a
  /\ Annotation.timestamp a' = Annotation.timestamp a
  /\ Annotation.isTemporary a' = Annotation.isTemporary a.

(** The replies of an annotation, none when the field is missing. *)
Definition repliesOf (a : Annotation.t) : list Reply.t :=
  match Annotation.replies a with
  | Some rs => rs
  | None => []
  end.

(** A user and presences of the scenarios. *)
Definition scenarioUser : User.t :=
  User.Build (js "user-1") (js "Alex") None (js "#ef4444").

Definition scenarioPresence (userId : string) (lastActive : Z) : Presence.t :=
  Presence.Build (js userId) (js "name") (js "#ef4444") lastActive
                 (Some (js "doc-1")).

(** A document and a state of the component for the scenarios: the user
    has selected [quick] in the document and typed a comment. *)
Definition scenarioDocument : DocumentData.t :=
  DocumentData.Build (js "doc-1") (js "Fox") scenarioContent 0 (js "user-1").

Definition scenarioState : App.State :=
  {| App.storage := emptyStorage;
     App.currentUser := Some scenarioUser;
     App.documents := [scenarioDocument];
     App.activeDocId := Some (js "doc-1");
     App.annotations := [];
     App.presence := [];
     App.currentSelection := Some (TextRange.Build 4 9 (js "quick"));
     App.commentText := js "nice";
     App.activeAnnotationId := None |}.

(** A state in which the store and the active set have drifted apart.
    The store holds an annotation of the active document and one of
    another document.  The active set holds an annotation that the store
    does not hold and a flash insight, which is temporary. *)
Definition scenarioFlash : Annotation.t :=
  Annotation.Build (js "flash-u1") (js "doc-1") (js "gemini-ai")
                   (js "Gemini AI") (js "#10b981")
                   (TextRange.Build 10 15 (js "brown"))
                   (js "Interesting point.") 3 None (Some true).

Definition otherDocumentAnnotation : Annotation.t :=
  Annotation.Build (js "b1") (js "doc-2") (js "user-1") (js "Alex")
                   (js "#ef4444") (TextRange.Build 0 3 (js "abc"))
                   (js "a comment") 2 (Some []) None.

Definition syncScenario : App.State :=
  {| App.storage :=
       {| DocumentService.docs := None;
          DocumentService.annos :=
            Some [scenarioAnnotation "a1" 4 9 "quick" 1;
                  otherDocumentAnnotation];
          DocumentService.presence := None |};
     App.currentUser := Some scenarioUser;
     App.documents := [scenarioDocument];
     App.activeDocId := Some (js "doc-1");
     App.annotations := [scenarioAnnotation "gone" 16 19 "fox" 2;
                         scenarioFlash];
     App.presence := [];
     App.currentSelection := None;
     App.commentText := [];
     App.activeAnnotationId := None |}.

(** A state with one published annotation, on [The], in which the user has
    selected [quick] and typed a comment. *)
Definition annotatedState : App.State :=
  {| App.storage :=
       {| DocumentService.docs := None;
          DocumentService.annos := Some [scenarioAnnotation "a0" 0 3 "The" 1];
          DocumentService.presence := None |};
     App.currentUser := Some scenarioUser;
     App.documents := [scenarioDocument];
     App.activeDocId := Some (js "doc-1");
     App.annotations := [scenarioAnnotation "a0" 0 3 "The" 1];
     App.presence := [];
     App.currentSelection := Some (TextRange.Build 4 9 (js "quick"));
     App.commentText := js "nice";
     App.activeAnnotationId := None |}.

(** The page of the scenarios: the heading [Title] stands before the
    container and nothing behind it. *)
Definition scenarioPage : Viewer.Page :=
  {| Viewer.textBefore := js "Title"; Viewer.textAfter := [] |}.

(** A string without a dot; [46] is the dot. *)
Definition dotFree (s : jstr) : Prop := forall c, In c s -> code c <> 46%N.

(** What the upload zone reads from a file of the scenarios. *)
Definition scenarioReads : UploadZone.FileReads :=
  {| UploadZone.fileText := js "plain text";
     UploadZone.pdfLoad := UploadZone.Loaded [Some [Some (js "Hello"); None;
                                                    Some (js "world")];
                                              None];
     UploadZone.ocrText := [];
     UploadZone.wordValue := [] |}.

(** *** The boundary rule in the words of the specification *)

Module Spec.

(** The case-insensitive literal matches of [term] in the text [rest] that
    starts at offset [pos], by sequential scan from left to right; after a
    match the scan resumes behind it ([skip] counts the characters of the
    last match still to pass), so matches do not overlap. *)
Fixpoint scan (term rest : jstr) (pos skip : nat) : list (Z * Z) :=
  match rest with
  | [] => []
  | _ :: tl =>
      match skip with
      | S k => scan term tl (S pos) k
      | O =>
          if isPrefixOf (toLowerCase term) (toLowerCase rest)
          then (Z.of_nat pos, Z.of_nat (pos + length term))
                 :: scan term tl (S pos) (length term - 1)
          else scan term tl (S pos) O
      end
  end.

Definition literalMatches (term content : jstr) : list (Z * Z) :=
  scan term content 0 0.

(** Step 1 and 2 of the segment builder: [0], the length, the ends of the
    annotation ranges and, for a term longer than 2, the ends of the
    literal matches; sorted, each once. *)
Definition boundaries (content : jstr) (annotations : list Annotation.t)
           (searchTerm : option jstr) : list Z :=
  let base :=
    Viewer.addAnnotationBoundaries annotations
      (setAdd (Z.of_nat (length content)) (setAdd 0%Z [])) in
  sortNum
    (match searchTerm with
     | Some term =>
         if Viewer.searchActive searchTerm
         then fold_left Viewer.addSpan (literalMatches term content) base
         else base
     | None => base
     end).

End Spec.

(* ================================================================== *)
(** * Properties *)

Import Viewer.

Unset Implicit Arguments.
Local Open Scope Z_scope.

(** ** Characters and strings *)

Lemma jstr_eqb_eq (a b : jstr) : jstr_eqb a b = true <-> a = b.
Proof.
  unfold jstr_eqb. destruct (list_eq_dec ascii_dec a b); split; congruence.
Qed.

Lemma lower_canonicalize (c : ascii) : lowerChar (canonicalize c) = lowerChar c.
Proof.
  destruct c as [[] [] [] [] [] [] [] []]; reflexivity.
Qed.

Lemma canonicalize_lower (c : ascii) : canonicalize (lowerChar c) = canonicalize c.
Proof.
  destruct c as [[] [] [] [] [] [] [] []]; reflexivity.
Qed.

(** The two case foldings of the source identify the same code units,
    among those modelled. *)
Lemma fold_agree (c d : ascii) :
  canonicalize c = canonicalize d <-> lowerChar c = lowerChar d.
Proof.
  split; intros H.
  - rewrite <- (lower_canonicalize c), <- (lower_canonicalize d). now rewrite H.
  - rewrite <- (canonicalize_lower c), <- (canonicalize_lower d). now rewrite H.
Qed.

Lemma isPrefixOf_spec (p s : jstr) :
  isPrefixOf p s = true <-> firstn (length p) s = p.
Proof.
  revert s. induction p as [|a p IH]; intros s; simpl.
  - tauto.
  - destruct s as [|b s]; simpl.
    + split; discriminate.
    + rewrite andb_true_iff, Ascii.eqb_eq, IH. split.
      * intros [-> ->]. reflexivity.
      * intros H. injection H as E1 E2. split; [congruence | exact E2].
Qed.

Lemma includes_spec (s search : jstr) :
  includes s search = true <->
  exists p : nat, firstn (length search) (skipn p s) = search.
Proof.
  induction s as [|c s IH]; simpl.
  - rewrite orb_false_r, isPrefixOf_spec. split.
    + intros H. exists O. exact H.
    + intros [p H]. rewrite skipn_nil in H. exact H.
  - rewrite orb_true_iff, isPrefixOf_spec, IH. split.
    + intros [H | [p H]].
      * exists O. exact H.
      * exists (S p). exact H.
    + intros [[|p] H].
      * left. exact H.
      * right. exists p. exact H.
Qed.

(** Inside the string, [slice] is the plain substring. *)
Lemma slice_inside (s : jstr) (a b : Z) :
  0 <= a -> a <= b -> b <= Z.of_nat (length s) ->
  slice s a b = firstn (Z.to_nat (b - a)) (skipn (Z.to_nat a) s).
Proof.
  intros Ha Hab Hb. unfold slice.
  destruct (Z.ltb_spec a 0); [lia|].
  destruct (Z.ltb_spec b 0); [lia|].
  rewrite !Z.min_l by lia. rewrite Z.max_l by lia. reflexivity.
Qed.

Lemma slice_length (s : jstr) (a b : Z) :
  0 <= a -> a <= b -> b <= Z.of_nat (length s) ->
  Z.of_nat (length (slice s a b)) = b - a.
Proof.
  intros Ha Hab Hb. rewrite slice_inside by assumption.
  rewrite length_firstn, length_skipn. lia.
Qed.

(** ** The boundary set *)

Lemma setHas_In (x : Z) (s : list Z) : setHas x s = true <-> In x s.
Proof.
  unfold setHas. rewrite existsb_exists. split.
  - intros [y [Hy E]]. apply Z.eqb_eq in E. now subst.
  - intros H. exists x. split; [assumption | apply Z.eqb_refl].
Qed.

Lemma setAdd_In (x y : Z) (s : list Z) : In y (setAdd x s) <-> y = x \/ In y s.
Proof.
  unfold setAdd. destruct (setHas x s) eqn:E.
  - apply setHas_In in E. split; [tauto | intros [-> | H]; assumption].
  - rewrite in_app_iff. simpl. intuition congruence.
Qed.

Lemma setAdd_NoDup (x : Z) (s : list Z) : NoDup s -> NoDup (setAdd x s).
Proof.
  intros H. unfold setAdd. destruct (setHas x s) eqn:E; [assumption|].
  assert (Hx : ~ In x s).
  { intros Hin. apply setHas_In in Hin. congruence. }
  clear E. induction H as [|y s Hy Hs IH]; simpl.
  - constructor; [tauto | constructor].
  - constructor.
    + rewrite in_app_iff. simpl in *. intuition.
    + apply IH. simpl in Hx. tauto.
Qed.

Lemma addAnnotationBoundaries_In (annotations : list Annotation.t) (bs : list Z) (x : Z) :
  In x (addAnnotationBoundaries annotations bs) <->
  In x bs \/
  exists a, In a annotations /\
            (x = TextRange.start (Annotation.range a)
             \/ x = TextRange.end_ (Annotation.range a)).
Proof.
  unfold addAnnotationBoundaries. revert bs.
  induction annotations as [|a l IH]; intros bs; simpl.
  - split; [tauto | intros [H | [a [[] _]]]; assumption].
  - rewrite IH, !setAdd_In. split.
    + intros [[E | [E | H]] | [a' [Ha' E]]].
      * right. exists a. tauto.
      * right. exists a. tauto.
      * tauto.
      * right. exists a'. tauto.
    + intros [H | [a' [[<- | Ha'] E]]].
      * tauto.
      * left. tauto.
      * right. exists a'. tauto.
Qed.

Lemma addAnnotationBoundaries_NoDup (annotations : list Annotation.t) (bs : list Z) :
  NoDup bs -> NoDup (addAnnotationBoundaries annotations bs).
Proof.
  unfold addAnnotationBoundaries. revert bs.
  induction annotations as [|a l IH]; intros bs H; simpl; [assumption|].
  apply IH. now apply setAdd_NoDup, setAdd_NoDup.
Qed.

(** ** The numeric sort *)

Lemma insertNum_In (x y : Z) (l : list Z) : In y (insertNum x l) <-> y = x \/ In y l.
Proof.
  induction l as [|z l IH]; simpl.
  - intuition.
  - destruct (x - z <=? 0); simpl; rewrite ?IH; intuition.
Qed.

Lemma sortNum_In (y : Z) (l : list Z) : In y (sortNum l) <-> In y l.
Proof.
  induction l as [|x l IH]; simpl; [tauto|].
  rewrite insertNum_In, IH. intuition.
Qed.

Lemma insertNum_sorted (x : Z) (l : list Z) :
  StronglySorted Z.lt l -> ~ In x l -> StronglySorted Z.lt (insertNum x l).
Proof.
  induction 1 as [|z l Hl IH Hz]; intros Hx; simpl.
  - repeat constructor.
  - destruct (Z.leb_spec (x - z) 0).
    + assert (x < z) by (simpl in Hx; lia).
      constructor; [now constructor|].
      constructor; [assumption|].
      eapply Forall_impl; [|exact Hz]. simpl. intros; lia.
    + constructor.
      * apply IH. simpl in Hx. tauto.
      * apply Forall_forall. intros y Hy. apply insertNum_In in Hy.
        destruct Hy as [-> | Hy]; [lia|].
        rewrite Forall_forall in Hz. now apply Hz.
Qed.

Lemma sortNum_sorted (l : list Z) : NoDup l -> StronglySorted Z.lt (sortNum l).
Proof.
  induction 1 as [|x l Hx Hl IH]; simpl.
  - constructor.
  - apply insertNum_sorted; [assumption|]. now rewrite sortNum_In.
Qed.

(** ** Consecutive pairs of a strictly increasing list *)

Lemma consecutive_spec (l : list Z) (a b : Z) :
  StronglySorted Z.lt l -> In (a, b) (consecutive l) ->
  a < b /\ In a l /\ In b l /\ forall x, In x l -> ~ (a < x < b).
Proof.
  induction 1 as [|h t Ht IH Hh]; simpl; [tauto|].
  destruct t as [|h' t]; simpl; [tauto|].
  pose proof Hh as Hh'. rewrite Forall_forall in Hh'.
  intros [E | Hin].
  - injection E as <- <-.
    assert (h < h') by (apply Hh'; simpl; tauto).
    repeat split; [assumption | tauto | tauto |].
    intros x [<- | [<- | Hx]]; [lia | lia |].
    inversion Ht as [|? ? _ Hh'']; subst.
    rewrite Forall_forall in Hh''. specialize (Hh'' x Hx). lia.
  - destruct (IH Hin) as [Hab [Ha [Hb Hno]]].
    repeat split; [assumption | tauto | tauto |].
    intros x [<- | Hx]; [|now apply Hno].
    specialize (Hh' a Ha). lia.
Qed.

(** ** Outcomes and fuel *)

Lemma mapOutcome_Returned (A B : Type) (f : A -> B) (o : outcome A) (b : B) :
  mapOutcome f o = Returned b -> exists a, o = Returned a /\ b = f a.
Proof.
  destruct o; simpl; try discriminate.
  intros E. injection E as <-. eauto.
Qed.

Lemma addMatchBoundaries_foundMatches (fuel : nat) (regex : list RegExp.atom)
      (content : jstr) (lastIndex : nat) (bs : list Z) :
  addMatchBoundaries fuel regex content lastIndex bs =
  mapOutcome (fun ms => fold_left addSpan ms bs)
             (foundMatches fuel regex content lastIndex).
Proof.
  revert lastIndex bs. induction fuel as [|fuel IH]; intros li bs; simpl.
  - reflexivity.
  - destruct (RegExp.exec regex content li) as [[index e]|]; [|reflexivity].
    rewrite IH. destruct (foundMatches fuel regex content e); reflexivity.
Qed.

Lemma foundMatches_more_fuel (fuel k : nat) (regex : list RegExp.atom)
      (content : jstr) (lastIndex : nat) (ms : list (Z * Z)) :
  foundMatches fuel regex content lastIndex = Returned ms ->
  foundMatches (fuel + k) regex content lastIndex = Returned ms.
Proof.
  revert lastIndex ms. induction fuel as [|fuel IH]; intros li ms; simpl.
  - discriminate.
  - destruct (RegExp.exec regex content li) as [[index e]|]; [|tauto].
    intros H. apply mapOutcome_Returned in H. destruct H as [ms' [H ->]].
    now rewrite (IH _ _ H).
Qed.

Lemma boundarySet_more_fuel (fuel k : nat) (content : jstr)
      (annotations : list Annotation.t) (searchTerm : option jstr) (bs : list Z) :
  boundarySet fuel content annotations searchTerm = Returned bs ->
  boundarySet (fuel + k) content annotations searchTerm = Returned bs.
Proof.
  unfold boundarySet. destruct searchTerm as [term|]; [|tauto].
  destruct (searchActive (Some term)); [|tauto].
  destruct (RegExp.parse term) as [regex| | |]; simpl; try discriminate.
  rewrite !addMatchBoundaries_foundMatches. intros H.
  apply mapOutcome_Returned in H. destruct H as [ms [H ->]].
  now rewrite (foundMatches_more_fuel _ k _ _ _ _ H).
Qed.

Lemma sortedBoundaries_more_fuel (fuel k : nat) (content : jstr)
      (annotations : list Annotation.t) (searchTerm : option jstr) (bs : list Z) :
  sortedBoundaries fuel content annotations searchTerm = Returned bs ->
  sortedBoundaries (fuel + k) content annotations searchTerm = Returned bs.
Proof.
  unfold sortedBoundaries. intros H.
  apply mapOutcome_Returned in H. destruct H as [raw [H ->]].
  now rewrite (boundarySet_more_fuel _ k _ _ _ _ H).
Qed.

Lemma renderedContent_more_fuel (fuel k : nat) (content : jstr)
      (annotations : list Annotation.t) (active searchTerm : option jstr)
      (r : option (list Segment)) :
  renderedContent fuel content annotations active searchTerm = Returned r ->
  renderedContent (fuel + k) content annotations active searchTerm = Returned r.
Proof.
  unfold renderedContent. destruct content as [|c content]; [tauto|].
  intros H. apply mapOutcome_Returned in H. destruct H as [sorted [H ->]].
  now rewrite (sortedBoundaries_more_fuel _ k _ _ _ _ H).
Qed.

Lemma searchMatches_more_fuel (fuel k : nat) (content : jstr)
      (searchTerm : option jstr) (ms : list (Z * Z)) :
  searchMatches fuel content searchTerm = Returned ms ->
  searchMatches (fuel + k) content searchTerm = Returned ms.
Proof.
  unfold searchMatches. destruct searchTerm as [term|]; [|tauto].
  destruct (searchActive (Some term)); [|tauto].
  destruct (RegExp.parse term) as [regex| | |]; simpl; try discriminate.
  apply foundMatches_more_fuel.
Qed.

(** The boundary set is the base set with the ends of the found spans. *)
Lemma boundarySet_searchMatches (fuel : nat) (content : jstr)
      (annotations : list Annotation.t) (searchTerm : option jstr) :
  boundarySet fuel content annotations searchTerm =
  mapOutcome
    (fun ms =>
       fold_left addSpan ms
         (addAnnotationBoundaries annotations
            (setAdd (Z.of_nat (length content)) (setAdd 0 []))))
    (searchMatches fuel content searchTerm).
Proof.
  unfold boundarySet, searchMatches. destruct searchTerm as [term|]; [|reflexivity].
  destruct (searchActive (Some term)); [|reflexivity].
  destruct (RegExp.parse term) as [regex| | |]; simpl; try reflexivity.
  apply addMatchBoundaries_foundMatches.
Qed.

Lemma addSpans_In (ms : list (Z * Z)) (bs : list Z) (x : Z) :
  In x (fold_left addSpan ms bs) <->
  In x bs \/ exists m, In m ms /\ (x = fst m \/ x = snd m).
Proof.
  revert bs. induction ms as [|m ms IH]; intros bs; simpl.
  - split; [tauto | intros [H | [m [[] _]]]; assumption].
  - rewrite IH. unfold addSpan. rewrite !setAdd_In. split.
    + intros [[E | [E | H]] | [m' [Hm' E]]].
      * right. exists m. tauto.
      * right. exists m. tauto.
      * tauto.
      * right. exists m'. tauto.
    + intros [H | [m' [[<- | Hm'] E]]].
      * tauto.
      * left. tauto.
      * right. exists m'. tauto.
Qed.

Lemma addSpans_NoDup (ms : list (Z * Z)) (bs : list Z) :
  NoDup bs -> NoDup (fold_left addSpan ms bs).
Proof.
  revert bs. induction ms as [|m ms IH]; intros bs H; simpl; [assumption|].
  apply IH. unfold addSpan. now apply setAdd_NoDup, setAdd_NoDup.
Qed.

(** ** The pattern of a literal term *)

Lemma literal_not_special (c : ascii) :
  RegExp.isSyntaxCharacter c = false ->
  (code c =? 92)%N = false /\ (code c =? 46)%N = false
  /\ (code c =? 94)%N = false /\ (code c =? 36)%N = false.
Proof.
  unfold RegExp.isSyntaxCharacter. simpl. intros H.
  repeat (apply orb_false_iff in H; destruct H as [? H]).
  repeat split; assumption.
Qed.

Lemma parse_literal (term : jstr) :
  isLiteralTerm term = true -> RegExp.parse term = Returned (map RegExp.Lit term).
Proof.
  induction term as [|c term IH]; simpl; [reflexivity|].
  rewrite andb_true_iff, negb_true_iff. intros [Hc Ht].
  destruct (literal_not_special c Hc) as [E1 [E2 [E3 E4]]].
  rewrite E1, E2, E3, E4, Hc, (IH Ht). reflexivity.
Qed.

Lemma skipn_nth_error_Some (A : Type) (l : list A) (i : nat) (d : A) :
  nth_error l i = Some d -> skipn i l = d :: skipn (S i) l.
Proof.
  revert i. induction l as [|x l IH]; intros [|i]; simpl; try discriminate.
  - intros E. injection E as ->. reflexivity.
  - intros E. rewrite (IH _ E). reflexivity.
Qed.

Lemma skipn_nth_error_None (A : Type) (l : list A) (i : nat) :
  nth_error l i = None -> skipn i l = [].
Proof.
  intros H. apply nth_error_None in H. now apply skipn_all2.
Qed.

Lemma matchAt_literal (term content : jstr) (i : nat) :
  RegExp.matchAt (map RegExp.Lit term) content i =
  if isPrefixOf (toLowerCase term) (skipn i (toLowerCase content))
  then Some (i + length term)%nat else None.
Proof.
  unfold toLowerCase. revert i.
  induction term as [|c term IH]; intros i; simpl.
  - f_equal. lia.
  - rewrite skipn_map.
    destruct (nth_error content i) as [d|] eqn:E.
    + rewrite (skipn_nth_error_Some _ _ _ _ E). simpl.
      destruct (Ascii.eqb (canonicalize d) (canonicalize c)) eqn:Ec.
      * apply Ascii.eqb_eq, fold_agree in Ec. rewrite Ec, Ascii.eqb_refl. simpl.
        rewrite IH, skipn_map.
        replace (S i + length term)%nat with (i + S (length term))%nat by lia.
        reflexivity.
      * destruct (Ascii.eqb (lowerChar c) (lowerChar d)) eqn:El; [|reflexivity].
        apply Ascii.eqb_eq in El. symmetry in El. apply fold_agree in El.
        apply Ascii.eqb_neq in Ec. contradiction.
    + rewrite (skipn_nth_error_None _ _ _ E). reflexivity.
Qed.

Lemma matchAt_literal_Some (term content : jstr) (i e : nat) :
  RegExp.matchAt (map RegExp.Lit term) content i = Some e <->
  e = (i + length term)%nat /\ occursAt term content i.
Proof.
  rewrite matchAt_literal. unfold occursAt.
  destruct (isPrefixOf (toLowerCase term) (skipn i (toLowerCase content))) eqn:E.
  - apply isPrefixOf_spec in E. unfold toLowerCase in E at 1.
    rewrite length_map in E. split.
    + intros H. injection H as <-. tauto.
    + intros [-> _]. reflexivity.
  - split; [discriminate|]. intros [_ H].
    assert (isPrefixOf (toLowerCase term) (skipn i (toLowerCase content)) = true).
    { apply isPrefixOf_spec. unfold toLowerCase at 1. now rewrite length_map. }
    congruence.
Qed.

Lemma occursAt_bound (term content : jstr) (i : nat) :
  occursAt term content i -> (0 < length term)%nat ->
  (i + length term <= length content)%nat.
Proof.
  unfold occursAt. intros H Hn.
  assert (E : length (firstn (length term) (skipn i (toLowerCase content)))
              = length term).
  { rewrite H. unfold toLowerCase. now rewrite length_map. }
  rewrite length_firstn, length_skipn in E. unfold toLowerCase in E.
  rewrite length_map in E. lia.
Qed.

(** ** [exec] *)

Lemma searchFrom_Some (atoms : list RegExp.atom) (input : jstr) (i steps j e : nat) :
  RegExp.searchFrom atoms input i steps = Some (j, e) ->
  (i <= j < i + steps)%nat /\ RegExp.matchAt atoms input j = Some e
  /\ forall k, (i <= k < j)%nat -> RegExp.matchAt atoms input k = None.
Proof.
  revert i. induction steps as [|steps IH]; intros i; simpl; [discriminate|].
  destruct (RegExp.matchAt atoms input i) as [e'|] eqn:E.
  - intros H. injection H as <- <-. repeat split; [lia | lia | assumption |].
    intros k Hk. lia.
  - intros H. destruct (IH _ H) as [Hj [Hm Hno]].
    repeat split; [lia | lia | assumption |].
    intros k Hk. destruct (Nat.eq_dec k i) as [-> | Hne]; [assumption|].
    apply Hno. lia.
Qed.

Lemma searchFrom_None (atoms : list RegExp.atom) (input : jstr) (i steps : nat) :
  RegExp.searchFrom atoms input i steps = None ->
  forall k, (i <= k < i + steps)%nat -> RegExp.matchAt atoms input k = None.
Proof.
  revert i. induction steps as [|steps IH]; intros i; simpl; [intros _ k Hk; lia|].
  destruct (RegExp.matchAt atoms input i) as [e'|] eqn:E; [discriminate|].
  intros H k Hk. destruct (Nat.eq_dec k i) as [-> | Hne]; [assumption|].
  apply (IH _ H). lia.
Qed.

Lemma exec_Some (atoms : list RegExp.atom) (input : jstr) (li j e : nat) :
  RegExp.exec atoms input li = Some (j, e) ->
  (li <= j <= length input)%nat /\ RegExp.matchAt atoms input j = Some e
  /\ forall k, (li <= k < j)%nat -> RegExp.matchAt atoms input k = None.
Proof.
  unfold RegExp.exec. destruct (Nat.ltb_spec (length input) li) as [Hlt|Hle]; [discriminate|].
  intros H. apply searchFrom_Some in H. destruct H as [Hj [Hm Hno]].
  repeat split; [lia | lia | assumption | assumption].
Qed.

Lemma exec_None (atoms : list RegExp.atom) (input : jstr) (li : nat) :
  RegExp.exec atoms input li = None ->
  forall k, (li <= k <= length input)%nat -> RegExp.matchAt atoms input k = None.
Proof.
  unfold RegExp.exec. destruct (Nat.ltb_spec (length input) li) as [Hlt|Hle].
  - intros _ k Hk. lia.
  - intros H k Hk. apply (searchFrom_None _ _ _ _ H). lia.
Qed.

(** ** The search loop on a literal term *)

(** With a non-empty literal term the loop ends, and its spans are the
    occurrences of the term met by a left-to-right scan that resumes behind
    each match: every span is an occurrence, and every occurrence is a span
    or starts inside one. *)
Lemma foundMatches_literal (term content : jstr) :
  (0 < length term)%nat ->
  forall (fuel li : nat),
    (length content + 1 - li < fuel)%nat ->
    exists ms,
      foundMatches fuel (map RegExp.Lit term) content li = Returned ms
      /\ (forall s e, In (s, e) ms ->
            exists p, s = Z.of_nat p /\ e = Z.of_nat (p + length term)
                      /\ (li <= p)%nat /\ occursAt term content p)
      /\ (forall p, (li <= p)%nat -> occursAt term content p ->
            In (Z.of_nat p, Z.of_nat (p + length term)) ms
            \/ exists q, In (Z.of_nat q, Z.of_nat (q + length term)) ms
                         /\ (q < p < q + length term)%nat).
Proof.
  intros Hn. induction fuel as [|fuel IH]; intros li Hfuel; [lia|].
  simpl. destruct (RegExp.exec (map RegExp.Lit term) content li) as [[j e]|] eqn:Ex.
  - apply exec_Some in Ex. destruct Ex as [Hj [Hm Hno]].
    apply matchAt_literal_Some in Hm. destruct Hm as [-> Hocc].
    pose proof (occursAt_bound _ _ _ Hocc Hn) as Hb.
    destruct (IH (j + length term)%nat) as [ms [E [Hsound Hcomplete]]]; [lia|].
    rewrite E. simpl.
    assert (El : Z.of_nat j
                 + Z.of_nat (length (slice content (Z.of_nat j)
                                           (Z.of_nat (j + length term))))
                 = Z.of_nat (j + length term)).
    { rewrite slice_length by lia. lia. }
    rewrite El. eexists. split; [reflexivity|]. split.
    + intros s e [Eq | Hin].
      * injection Eq as <- <-. exists j. repeat split; [lia | assumption].
      * destruct (Hsound _ _ Hin) as [p [-> [-> [Hp Ho]]]].
        exists p. repeat split; [lia | assumption].
    + intros p Hp Ho.
      assert (Hjp : (j <= p)%nat).
      { destruct (Nat.le_gt_cases j p) as [|Hlt]; [assumption|].
        assert (Hnone : RegExp.matchAt (map RegExp.Lit term) content p = None)
          by (apply Hno; lia).
        assert (Hsome : RegExp.matchAt (map RegExp.Lit term) content p
                        = Some (p + length term)%nat)
          by (apply matchAt_literal_Some; tauto).
        congruence. }
      destruct (Nat.eq_dec p j) as [-> | Hne]; [left; simpl; tauto|].
      destruct (Nat.lt_ge_cases p (j + length term)) as [Hin | Hout].
      * right. exists j. simpl. split; [tauto | lia].
      * destruct (Hcomplete p Hout Ho) as [H | [q [Hq Hqp]]].
        -- left. simpl. tauto.
        -- right. exists q. simpl. tauto.
  - exists []. split; [reflexivity|]. split; [intros s e []|].
    intros p Hp Ho. exfalso.
    pose proof (occursAt_bound _ _ _ Ho Hn) as Hb.
    assert (Hnone : RegExp.matchAt (map RegExp.Lit term) content p = None)
      by (apply (exec_None _ _ _ Ex); lia).
    assert (Hsome : RegExp.matchAt (map RegExp.Lit term) content p
                    = Some (p + length term)%nat)
      by (apply matchAt_literal_Some; tauto).
    congruence.
Qed.

(** The spans of a plain search lie in the content and are not empty. *)
Lemma searchMatches_plain (fuel : nat) (content : jstr) (searchTerm : option jstr) :
  plainSearch searchTerm -> (length content + 1 < fuel)%nat ->
  exists ms,
    searchMatches fuel content searchTerm = Returned ms
    /\ forall s e, In (s, e) ms -> 0 <= s /\ s < e /\ e <= Z.of_nat (length content).
Proof.
  intros Hplain Hfuel. unfold searchMatches.
  destruct searchTerm as [term|]; [|exists []; split; [reflexivity | intros s e []]].
  destruct (searchActive (Some term)) eqn:Hact;
    [|exists []; split; [reflexivity | intros s e []]].
  rewrite (parse_literal _ (Hplain Hact)). simpl.
  assert (Hn : (0 < length term)%nat).
  { simpl in Hact. apply Nat.ltb_lt in Hact. lia. }
  destruct (foundMatches_literal term content Hn fuel 0) as [ms [E [Hsound _]]]; [lia|].
  exists ms. split; [assumption|].
  intros s e Hin. destruct (Hsound _ _ Hin) as [p [-> [-> [_ Ho]]]].
  pose proof (occursAt_bound _ _ _ Ho Hn). lia.
Qed.

(** ** From sorted boundaries to a partition *)

Lemma last_default (A : Type) (x : A) (l : list A) (d d' : A) :
  last (x :: l) d = last (x :: l) d'.
Proof.
  revert x. induction l as [|y l IH]; intros x; [reflexivity|].
  change (last (y :: l) d = last (y :: l) d'). apply IH.
Qed.

Lemma consecutive_contiguous (f : Z * Z -> Segment) :
  (forall p, seg_start (f p) = fst p /\ seg_end (f p) = snd p) ->
  forall t h, StronglySorted Z.lt (h :: t) ->
              contiguous h (map f (consecutive (h :: t))) (last (h :: t) h).
Proof.
  intros Hf. induction t as [|h' t IH]; intros h Hs.
  - reflexivity.
  - inversion Hs as [|? ? Hs' Hall]; subst.
    change (seg_start (f (h, h')) = h
            /\ seg_start (f (h, h')) < seg_end (f (h, h'))
            /\ contiguous (seg_end (f (h, h')))
                          (map f (consecutive (h' :: t))) (last (h' :: t) h)).
    destruct (Hf (h, h')) as [E1 E2]. simpl in E1, E2. rewrite E1, E2.
    split; [reflexivity|]. split.
    + rewrite Forall_forall in Hall. apply Hall. simpl. tauto.
    + rewrite (last_default _ h' t h h'). now apply IH.
Qed.

Lemma sorted_head_least (h : Z) (t : list Z) (x : Z) :
  StronglySorted Z.lt (h :: t) -> In x (h :: t) -> h <= x.
Proof.
  intros Hs [<- | Hx]; [lia|].
  inversion Hs as [|? ? _ Hall]; subst.
  rewrite Forall_forall in Hall. specialize (Hall x Hx). lia.
Qed.

Lemma sorted_last_greatest (l : list Z) (d : Z) :
  StronglySorted Z.lt l -> forall x, In x l -> x <= last l d.
Proof.
  induction 1 as [|h t Ht IH Hall]; intros x Hx; [destruct Hx|].
  destruct t as [|h' t].
  - destruct Hx as [<- | []]. simpl. lia.
  - change (last (h :: h' :: t) d) with (last (h' :: t) d).
    destruct Hx as [<- | Hx]; [|now apply IH].
    rewrite Forall_forall in Hall.
    assert (h < h') by (apply Hall; simpl; tauto).
    assert (h' <= last (h' :: t) d) by (apply IH; simpl; tauto). lia.
Qed.

Lemma last_In (l : list Z) (h d : Z) : In (last (h :: l) d) (h :: l).
Proof.
  revert h. induction l as [|y l IH]; intros h; [simpl; tauto|].
  change (last (h :: y :: l) d) with (last (y :: l) d).
  right. apply IH.
Qed.

(** A chain of segments covers its interval, each offset once. *)
Lemma contiguous_cover (segs : list Segment) (from to x : Z) :
  contiguous from segs to ->
  (from <= x < to <-> exists s, In s segs /\ inSpan x s).
Proof.
  revert from. induction segs as [|s segs IH]; intros from; simpl.
  - intros ->. split; [lia | intros [s [[] _]]].
  - intros [Hs [Hlt Hrest]]. specialize (IH _ Hrest).
    assert (Hto : seg_end s <= to).
    { clear IH. revert Hrest. generalize (seg_end s). clear.
      induction segs as [|s' segs IH]; simpl; intros z.
      - intros ->. lia.
      - intros [E [Hlt Hrest]]. specialize (IH _ Hrest). lia. }
    unfold inSpan in *. split.
    + intros Hx. destruct (Z.lt_ge_cases x (seg_end s)) as [Hin | Hout].
      * exists s. split; [tauto | lia].
      * destruct (proj1 IH) as [s' [Hs' Hx']]; [lia|].
        exists s'. tauto.
    + intros [s' [[<- | Hs'] Hx']]; [lia|].
      assert (seg_end s <= x < to) by (apply IH; eauto). lia.
Qed.

Lemma contiguous_lower (segs : list Segment) (from to : Z) (s : Segment) :
  contiguous from segs to -> In s segs -> from <= seg_start s /\ seg_end s <= to.
Proof.
  revert from. induction segs as [|s' segs IH]; intros from; simpl; [tauto|].
  intros [Hs [Hlt Hrest]] Hin.
  assert (Hto : seg_end s' <= to).
  { revert Hrest. generalize (seg_end s'). clear.
    induction segs as [|s'' segs IH]; simpl; intros z.
    - intros ->. lia.
    - intros [E [Hlt Hrest]]. specialize (IH _ Hrest). lia. }
  destruct Hin as [<- | Hin]; [lia|].
  destruct (IH _ Hrest Hin). lia.
Qed.

(** Two segments of a chain that share an offset are at the same place of
    the chain: spans do not overlap. *)
Lemma contiguous_disjoint (segs : list Segment) (from to : Z) (i j : nat)
      (s1 s2 : Segment) (x : Z) :
  contiguous from segs to ->
  nth_error segs i = Some s1 -> nth_error segs j = Some s2 ->
  inSpan x s1 -> inSpan x s2 -> i = j.
Proof.
  revert from i j. induction segs as [|s segs IH]; intros from i j; simpl.
  - destruct i; discriminate.
  - intros [Hs [Hlt Hrest]] H1 H2 Hx1 Hx2. unfold inSpan in *.
    destruct i as [|i], j as [|j]; simpl in *.
    + reflexivity.
    + injection H1 as <-. apply nth_error_In in H2.
      destruct (contiguous_lower _ _ _ _ Hrest H2). lia.
    + injection H2 as <-. apply nth_error_In in H1.
      destruct (contiguous_lower _ _ _ _ Hrest H1). lia.
    + f_equal. eapply IH; eauto.
Qed.

(** ** The sorted boundaries *)

(** Whenever the search loop returns, the sorted boundaries are a strictly
    increasing list holding [0], the length, the ends of the annotation
    ranges and the ends of the found spans, and nothing else. *)
Lemma sortedBoundaries_spec (fuel : nat) (content : jstr)
      (annotations : list Annotation.t) (searchTerm : option jstr)
      (ms : list (Z * Z)) :
  searchMatches fuel content searchTerm = Returned ms ->
  exists sorted,
    sortedBoundaries fuel content annotations searchTerm = Returned sorted
    /\ StronglySorted Z.lt sorted
    /\ forall x, In x sorted <-> isBoundary content annotations ms x.
Proof.
  intros Hms. unfold sortedBoundaries.
  rewrite boundarySet_searchMatches, Hms. simpl.
  eexists. split; [reflexivity|]. split.
  - apply sortNum_sorted, addSpans_NoDup, addAnnotationBoundaries_NoDup.
    apply setAdd_NoDup, setAdd_NoDup. constructor.
  - intros x. rewrite sortNum_In, addSpans_In, addAnnotationBoundaries_In.
    rewrite !setAdd_In. unfold isBoundary. simpl. tauto.
Qed.

(** Every segment of the memo is the loop body run on a pair of consecutive
    sorted boundaries. *)
Lemma renderedContent_segment (fuel : nat) (content : jstr)
      (annotations : list Annotation.t) (active searchTerm : option jstr)
      (segs : list Segment) (seg : Segment) :
  renderedContent fuel content annotations active searchTerm = Returned (Some segs) ->
  In seg segs ->
  exists sorted a b,
    sortedBoundaries fuel content annotations searchTerm = Returned sorted
    /\ In (a, b) (consecutive sorted)
    /\ seg = buildSegment content annotations active searchTerm a b.
Proof.
  unfold renderedContent. destruct content as [|c content]; [discriminate|].
  intros H Hin. apply mapOutcome_Returned in H. destruct H as [sorted [H E]].
  injection E as ->. apply in_map_iff in Hin. destruct Hin as [[a b] [<- Hin]].
  exists sorted, a, b. simpl. tauto.
Qed.

Lemma boundaries_within (content : jstr) (annotations : list Annotation.t)
      (ms : list (Z * Z)) (x : Z) :
  (forall a, In a annotations -> rangeWithin content a) ->
  (forall s e, In (s, e) ms -> 0 <= s /\ s <= e /\ e <= Z.of_nat (length content)) ->
  isBoundary content annotations ms x ->
  0 <= x <= Z.of_nat (length content).
Proof.
  intros Hann Hms [-> | [-> | [[a [Ha E]] | [[s e] [Hm E]]]]].
  - lia.
  - lia.
  - specialize (Hann a Ha). unfold rangeWithin in Hann. lia.
  - specialize (Hms s e Hm). simpl in E. lia.
Qed.

(** ** The partition *)

Lemma matchAt_bounds (atoms : list RegExp.atom) (input : jstr) (i e : nat) :
  RegExp.matchAt atoms input i = Some e ->
  (i <= length input)%nat -> (i <= e <= length input)%nat.
Proof.
  revert i. induction atoms as [|a atoms IH]; intros i; simpl.
  - intros E Hi. injection E as <-. lia.
  - destruct a as [c| | |].
    + destruct (nth_error input i) as [d|] eqn:En; [|discriminate].
      destruct (Ascii.eqb (canonicalize d) (canonicalize c)); [|discriminate].
      intros E _. assert (Hlt : (i < length input)%nat).
      { apply nth_error_Some. congruence. }
      specialize (IH _ E). lia.
    + destruct (nth_error input i) as [d|] eqn:En; [|discriminate].
      destruct (RegExp.isLineTerminator d); [discriminate|].
      intros E _. assert (Hlt : (i < length input)%nat).
      { apply nth_error_Some. congruence. }
      specialize (IH _ E). lia.
    + destruct (Nat.eqb i 0); [apply IH | discriminate].
    + destruct (Nat.eqb i (length input)); [apply IH | discriminate].
Qed.

(** Every span that the search loop finds lies in the content, whatever
    the pattern. *)
Lemma foundMatches_within (fuel : nat) (regex : list RegExp.atom) (content : jstr)
      (li : nat) (ms : list (Z * Z)) :
  foundMatches fuel regex content li = Returned ms ->
  forall s e, In (s, e) ms ->
              0 <= s /\ s <= e /\ e <= Z.of_nat (length content).
Proof.
  revert li ms. induction fuel as [|fuel IH]; intros li ms; simpl; [discriminate|].
  destruct (RegExp.exec regex content li) as [[j e']|] eqn:Ex.
  - apply exec_Some in Ex. destruct Ex as [Hj [Hm _]].
    pose proof (matchAt_bounds _ _ _ _ Hm (proj2 Hj)) as Hb.
    intros H. apply mapOutcome_Returned in H. destruct H as [ms' [H ->]].
    intros s e [E | Hin].
    + injection E as <- <-. rewrite slice_length by lia. lia.
    + exact (IH _ _ H s e Hin).
  - intros E. injection E as <-. intros s e [].
Qed.

Lemma searchMatches_within (fuel : nat) (content : jstr) (searchTerm : option jstr)
      (ms : list (Z * Z)) :
  searchMatches fuel content searchTerm = Returned ms ->
  forall s e, In (s, e) ms ->
              0 <= s /\ s <= e /\ e <= Z.of_nat (length content).
Proof.
  unfold searchMatches. destruct searchTerm as [term|].
  - destruct (searchActive (Some term)).
    + destruct (RegExp.parse term) as [regex| | |]; simpl; try discriminate.
      apply foundMatches_within.
    + intros E. injection E as <-. intros s e [].
  - intros E. injection E as <-. intros s e [].
Qed.

Lemma sortedBoundaries_matches (fuel : nat) (content : jstr)
      (annotations : list Annotation.t) (searchTerm : option jstr)
      (sorted : list Z) :
  sortedBoundaries fuel content annotations searchTerm = Returned sorted ->
  exists ms, searchMatches fuel content searchTerm = Returned ms.
Proof.
  unfold sortedBoundaries. rewrite boundarySet_searchMatches. intros H.
  apply mapOutcome_Returned in H. destruct H as [raw [H _]].
  apply mapOutcome_Returned in H. destruct H as [ms [H _]]. eauto.
Qed.

(** Whenever the memo returns on annotations whose ranges lie in the
    content, its segments form a chain from [0] to the length of the
    content, and each carries the slice of its span. *)
Lemma returned_chain (fuel : nat) (content : jstr)
      (annotations : list Annotation.t) (active searchTerm : option jstr)
      (r : option (list Segment)) :
  (forall a, In a annotations -> rangeWithin content a) ->
  renderedContent fuel content annotations active searchTerm = Returned r ->
  contiguous 0 (segmentsOf r) (Z.of_nat (length content))
  /\ (forall s, In s (segmentsOf r) ->
                seg_text s = slice content (seg_start s) (seg_end s)).
Proof.
  intros Hann Hr. destruct content as [|c content].
  - injection Hr as <-. simpl. tauto.
  - unfold renderedContent in Hr. apply mapOutcome_Returned in Hr.
    destruct Hr as [sorted [Hsorted ->]].
    destruct (sortedBoundaries_matches _ _ _ _ _ Hsorted) as [ms Hms].
    destruct (sortedBoundaries_spec fuel (c :: content) annotations searchTerm ms Hms)
      as [sorted' [Hsorted' [Hstrict Hin]]].
    rewrite Hsorted in Hsorted'. injection Hsorted' as <-.
    simpl segmentsOf.
    assert (H0 : In 0 sorted) by (apply Hin; left; reflexivity).
    assert (HL : In (Z.of_nat (length (c :: content))) sorted)
      by (apply Hin; right; left; reflexivity).
    assert (Hrange : forall x, In x sorted -> 0 <= x <= Z.of_nat (length (c :: content))).
    { intros x Hx. apply Hin in Hx.
      exact (boundaries_within _ _ _ _ Hann (searchMatches_within _ _ _ _ Hms) Hx). }
    destruct sorted as [|h t]; [destruct H0|].
    assert (Hh : h = 0).
    { pose proof (sorted_head_least h t 0 Hstrict H0).
      pose proof (Hrange h (or_introl eq_refl)). lia. }
    assert (Hl : last (h :: t) h = Z.of_nat (length (c :: content))).
    { pose proof (sorted_last_greatest (h :: t) h Hstrict _ HL).
      pose proof (Hrange _ (last_In t h h)). lia. }
    split.
    + rewrite <- Hl. rewrite <- Hh at 1.
      apply consecutive_contiguous; [|assumption].
      intros p. simpl. tauto.
    + intros s Hs. apply in_map_iff in Hs. destruct Hs as [p [<- _]]. reflexivity.
Qed.

(** Whenever the memo returns on annotations whose ranges satisfy
    0 <= start <= end <= len(content), whatever the search term, its
    segments are in ascending order, contiguous and not empty, every offset
    of [0, len(content)) lies in the span of a segment and no other offset
    does, and no offset lies in the spans of two segments. *)
Lemma returned_segments_partition (fuel : nat) (content : jstr)
      (annotations : list Annotation.t) (active searchTerm : option jstr)
      (r : option (list Segment)) :
  (forall a, In a annotations -> rangeWithin content a) ->
  renderedContent fuel content annotations active searchTerm = Returned r ->
  contiguous 0 (segmentsOf r) (Z.of_nat (length content))
  /\ (forall x, 0 <= x < Z.of_nat (length content)
                <-> exists s, In s (segmentsOf r) /\ inSpan x s)
  /\ (forall i j s1 s2 x,
         nth_error (segmentsOf r) i = Some s1 ->
         nth_error (segmentsOf r) j = Some s2 ->
         inSpan x s1 -> inSpan x s2 -> i = j).
Proof.
  intros Hann Hr.
  destruct (returned_chain _ _ _ _ _ _ Hann Hr) as [Hchain _].
  split; [assumption|]. split.
  - intros x. now apply contiguous_cover.
  - intros i j s1 s2 x. now apply (contiguous_disjoint _ _ _ _ _ _ _ _ Hchain).
Qed.

(** With a search that runs no pattern or a literal one the memo does
    return, given fuel beyond the length of the content. *)
Lemma plain_search_returns (fuel : nat) (content : jstr)
      (annotations : list Annotation.t) (active searchTerm : option jstr) :
  plainSearch searchTerm ->
  (length content + 1 < fuel)%nat ->
  exists r, renderedContent fuel content annotations active searchTerm = Returned r.
Proof.
  intros Hplain Hfuel. destruct content as [|c content].
  - exists None. reflexivity.
  - destruct (searchMatches_plain fuel (c :: content) searchTerm Hplain Hfuel)
      as [ms [Hms _]].
    destruct (sortedBoundaries_spec fuel (c :: content) annotations searchTerm ms Hms)
      as [sorted [Hsorted _]].
    unfold renderedContent. rewrite Hsorted. simpl. eauto.
Qed.

(** For annotations whose ranges satisfy 0 <= start <= end <= len(content)
    and a search that runs no pattern or a literal one, the memo returns a
    partition of [0, len(content)), and an empty content gives no
    segment. *)
Lemma partition_plain_search (fuel : nat) (content : jstr)
      (annotations : list Annotation.t) (active searchTerm : option jstr) :
  (forall a, In a annotations -> rangeWithin content a) ->
  plainSearch searchTerm ->
  (length content + 1 < fuel)%nat ->
  exists r,
    renderedContent fuel content annotations active searchTerm = Returned r
    /\ contiguous 0 (segmentsOf r) (Z.of_nat (length content))
    /\ (forall x, 0 <= x < Z.of_nat (length content)
                  <-> exists s, In s (segmentsOf r) /\ inSpan x s)
    /\ (forall i j s1 s2 x,
           nth_error (segmentsOf r) i = Some s1 ->
           nth_error (segmentsOf r) j = Some s2 ->
           inSpan x s1 -> inSpan x s2 -> i = j)
    /\ (content = [] -> segmentsOf r = []).
Proof.
  intros Hann Hplain Hfuel.
  destruct (plain_search_returns fuel content annotations active searchTerm
                                 Hplain Hfuel) as [r Hr].
  destruct (returned_segments_partition _ _ _ _ _ _ Hann Hr)
    as [Hchain [Hcover Hdisjoint]].
  exists r. repeat split; try assumption; try (now apply Hcover).
  intros ->. simpl in Hr. injection Hr as <-. reflexivity.
Qed.

(** ** The search flag *)

Lemma firstn_skipn_firstn (A : Type) (l t : list A) (n p m : nat) :
  firstn n (skipn p (firstn m l)) = t -> length t = n -> (0 < n)%nat ->
  (p + n <= m)%nat /\ firstn n (skipn p l) = t.
Proof.
  intros H Hlen Hn.
  assert (Hl : length (firstn n (skipn p (firstn m l))) = n) by (rewrite H; exact Hlen).
  rewrite length_firstn, length_skipn, length_firstn in Hl.
  assert (Hpm : (p + n <= m)%nat) by lia.
  split; [assumption|].
  rewrite <- H. rewrite <- (firstn_skipn m l) at 1.
  rewrite skipn_app, firstn_app.
  assert (Hfl : (p + n <= length (firstn m l))%nat) by (rewrite length_firstn; lia).
  rewrite length_skipn.
  replace (n - (length (firstn m l) - p))%nat with O by lia.
  simpl. now rewrite app_nil_r.
Qed.

Lemma includes_self (s : jstr) : includes s s = true.
Proof.
  apply includes_spec. exists O. simpl. apply firstn_all.
Qed.

Lemma toLowerCase_length (s : jstr) : length (toLowerCase s) = length s.
Proof. unfold toLowerCase. apply length_map. Qed.

(** On a literal term and ranges inside the content, a segment is flagged
    exactly when its span is one of the found spans; this is a statement
    about strings of the code units modelled. *)
Lemma flag_iff_found_span (fuel : nat) (content : jstr)
      (annotations : list Annotation.t) (active : option jstr) (term : jstr)
      (segs : list Segment) (ms : list (Z * Z)) (seg : Segment) :
  (forall a, In a annotations -> rangeWithin content a) ->
  (2 < length term)%nat ->
  isLiteralTerm term = true ->
  renderedContent fuel content annotations active (Some term) = Returned (Some segs) ->
  searchMatches fuel content (Some term) = Returned ms ->
  In seg segs ->
  (isSearchMatch seg = true <-> In (seg_start seg, seg_end seg) ms).
Proof.
  intros Hann Hlen Hlit Hrender Hms Hseg.
  assert (Hact : searchActive (Some term) = true) by (simpl; now apply Nat.ltb_lt).
  assert (Hn : (0 < length term)%nat) by lia.
  (* the found spans are those of the scan *)
  pose proof (searchMatches_more_fuel fuel (length content + 2) _ _ _ Hms) as Hms'.
  unfold searchMatches in Hms'. rewrite Hact, (parse_literal _ Hlit) in Hms'.
  simpl in Hms'.
  destruct (foundMatches_literal term content Hn (fuel + (length content + 2)) 0)
    as [ms' [E [Hsound Hcomplete]]]; [lia|].
  rewrite E in Hms'. injection Hms' as ->.
  (* the segment sits between two consecutive boundaries *)
  destruct (renderedContent_segment _ _ _ _ _ _ _ Hrender Hseg)
    as [sorted [a [b [Hsorted [Hpair ->]]]]].
  destruct (sortedBoundaries_spec fuel content annotations (Some term) ms Hms)
    as [sorted' [Hsorted' [Hstrict Hin]]].
  rewrite Hsorted in Hsorted'. injection Hsorted' as <-.
  destruct (consecutive_spec _ _ _ Hstrict Hpair) as [Hab [Ha [Hb Hnone]]].
  assert (Hspans : forall s e, In (s, e) ms ->
                     0 <= s /\ s <= e /\ e <= Z.of_nat (length content)).
  { intros s e Hse. destruct (Hsound _ _ Hse) as [p [-> [-> [_ Ho]]]].
    pose proof (occursAt_bound _ _ _ Ho Hn). lia. }
  assert (Hra : 0 <= a <= Z.of_nat (length content)).
  { apply (boundaries_within _ _ _ _ Hann Hspans). now apply Hin. }
  assert (Hrb : 0 <= b <= Z.of_nat (length content)).
  { apply (boundaries_within _ _ _ _ Hann Hspans). now apply Hin. }
  change (searchActive (Some term)
          && includes (toLowerCase (slice content a b)) (toLowerCase term) = true
          <-> In (a, b) ms).
  rewrite Hact, andb_true_l, slice_inside by lia. split.
  - intros Hflag. apply includes_spec in Hflag. destruct Hflag as [p Hp].
    rewrite toLowerCase_length in Hp. unfold toLowerCase in Hp at 1.
    rewrite <- firstn_map, <- skipn_map in Hp. fold (toLowerCase content) in Hp.
    apply firstn_skipn_firstn in Hp; [|apply toLowerCase_length | assumption].
    destruct Hp as [Hpn Hocc]. rewrite skipn_skipn in Hocc.
    assert (Ho : occursAt term content (p + Z.to_nat a)) by exact Hocc.
    assert (Hbound : forall x, In x sorted -> a <= x -> x <= b -> x = a \/ x = b).
    { intros x Hx H1 H2. specialize (Hnone x Hx). lia. }
    destruct (Hcomplete (p + Z.to_nat a)%nat (Nat.le_0_l _) Ho) as [Hfound | [q [Hq Hqp]]].
    + assert (H1 : In (Z.of_nat (p + Z.to_nat a)) sorted).
      { apply Hin. right. right. right. eexists. split; [exact Hfound|]. simpl. tauto. }
      assert (H2 : In (Z.of_nat (p + Z.to_nat a + length term)) sorted).
      { apply Hin. right. right. right. eexists. split; [exact Hfound|]. simpl. tauto. }
      apply Hbound in H1; [|lia|lia]. apply Hbound in H2; [|lia|lia].
      replace a with (Z.of_nat (p + Z.to_nat a)) at 1 by lia.
      replace b with (Z.of_nat (p + Z.to_nat a + length term)) by lia.
      exact Hfound.
    + exfalso.
      assert (H2 : In (Z.of_nat (q + length term)) sorted).
      { apply Hin. right. right. right. eexists. split; [exact Hq|]. simpl. tauto. }
      specialize (Hnone _ H2). lia.
  - intros Hfound. destruct (Hsound _ _ Hfound) as [p [-> [-> [_ Ho]]]].
    unfold occursAt in Ho. unfold toLowerCase at 1.
    rewrite <- firstn_map, <- skipn_map. fold (toLowerCase content).
    replace (Z.to_nat (Z.of_nat (p + length term) - Z.of_nat p)) with (length term) by lia.
    rewrite Nat2Z.id, Ho. apply includes_self.
Qed.

(* ================================================================== *)
(** * The properties of the specification *)

(** ** C1: the partition *)

(** A match that ends where [exec] started leaves [lastIndex] in place, and
    the loop meets it again on every turn. *)
Lemma empty_match_loops (regex : list RegExp.atom) (content : jstr) (li j : nat) :
  RegExp.exec regex content li = Some (j, li) ->
  forall fuel bs, addMatchBoundaries fuel regex content li bs = OutOfFuel.
Proof.
  intros Hexec. induction fuel as [|fuel IH]; intros bs; simpl.
  - reflexivity.
  - rewrite Hexec. apply IH.
Qed.

(** C1, at the inputs where the memo gives no segments.  On the content
    [abc] without annotations, the search term [^^^] keeps the memo in its
    search loop whatever the fuel, and the search term [ab\] makes it throw
    the syntax error of [new RegExp].  (Whenever the memo returns, its
    segments are a partition, [returned_segments_partition], and it does
    return for a search that runs no pattern or a literal one,
    [partition_plain_search].) *)
Theorem renderedContent_pattern_terms_give_no_segments :
  (forall fuel,
      renderedContent fuel (js "abc") [] None (Some (js "^^^")) = OutOfFuel)
  /\ (forall fuel,
         renderedContent fuel (js "abc") [] None (Some (js "ab\"))
         = ThrowsSyntaxError).
Proof.
  split; intros fuel.
  - unfold renderedContent, sortedBoundaries, boundarySet. simpl.
    rewrite (empty_match_loops _ _ 0%nat 0%nat); reflexivity.
  - reflexivity.
Qed.

(** An empty content renders nothing, whatever the other inputs. *)
Lemma empty_content_renders_nothing (fuel : nat) (annotations : list Annotation.t)
      (active searchTerm : option jstr) :
  renderedContent fuel [] annotations active searchTerm = Returned None
  /\ segmentsOf None = [].
Proof. split; reflexivity. Qed.

(** ** C2: containment *)

(** C2.  For every segment that the memo produces and every annotation of
    the input, the annotation is among the segment's covering annotations
    if and only if the segment starts at or after the start of the
    annotation's range and ends at or before its end. *)
Theorem covering_iff_contained (fuel : nat) (content : jstr)
        (annotations : list Annotation.t) (active searchTerm : option jstr)
        (segs : list Segment) (seg : Segment) (a : Annotation.t) :
  renderedContent fuel content annotations active searchTerm = Returned (Some segs) ->
  In seg segs ->
  In a annotations ->
  (In a (activeAnnos seg) <->
   seg_start seg >= TextRange.start (Annotation.range a)
   /\ seg_end seg <= TextRange.end_ (Annotation.range a)).
Proof.
  intros Hrender Hseg Ha.
  destruct (renderedContent_segment _ _ _ _ _ _ _ Hrender Hseg)
    as [sorted [s [e [_ [_ ->]]]]].
  simpl. rewrite filter_In. unfold covers.
  rewrite andb_true_iff, !Z.leb_le. split.
  - intros [_ [H1 H2]]. lia.
  - intros [H1 H2]. split; [assumption | lia].
Qed.

Lemma covering_iff_contained_witness :
  In (scenarioAnnotation "a1" 4 9 "quick" 1)
     (activeAnnos
        (buildSegment scenarioContent [scenarioAnnotation "a1" 4 9 "quick" 1]
                      None (Some (js "fox")) 4 9))
  <-> 4 >= 4 /\ 9 <= 9.
Proof.
  eapply (covering_iff_contained 2 scenarioContent
            [scenarioAnnotation "a1" 4 9 "quick" 1] None (Some (js "fox"))).
  - vm_compute. reflexivity.
  - right. left. reflexivity.
  - left. reflexivity.
Defined.

(** ** C3: the search matches *)

Lemma skipn_cons_inside (A : Type) (l : list A) (i : nat) :
  (i < length l)%nat -> exists c, skipn i l = c :: skipn (S i) l.
Proof.
  intros H. destruct (nth_error l i) as [c|] eqn:E.
  - exists c. now apply skipn_nth_error_Some.
  - apply nth_error_None in E. lia.
Qed.

(** Passing the rest of a match: [m] characters further on, the scan is
    free again. *)
Lemma scan_skip (term content : jstr) (m i : nat) :
  (i + m <= length content)%nat ->
  Spec.scan term (skipn i content) i m
  = Spec.scan term (skipn (i + m) content) (i + m) 0.
Proof.
  revert i. induction m as [|m IH]; intros i H.
  - now rewrite Nat.add_0_r.
  - destruct (skipn_cons_inside _ content i) as [c E]; [lia|].
    rewrite E. cbn [Spec.scan]. rewrite (IH (S i)) by lia.
    now replace (S i + m)%nat with (i + S m)%nat by lia.
Qed.

Lemma exec_step (atoms : list RegExp.atom) (input : jstr) (i : nat) :
  (i < length input)%nat ->
  RegExp.matchAt atoms input i = None ->
  RegExp.exec atoms input i = RegExp.exec atoms input (S i).
Proof.
  intros Hi Hnone. unfold RegExp.exec.
  destruct (Nat.ltb_spec (length input) i) as [|_]; [lia|].
  destruct (Nat.ltb_spec (length input) (S i)) as [|_]; [lia|].
  replace (S (length input) - i)%nat with (S (S (length input) - S i)) by lia.
  simpl. now rewrite Hnone.
Qed.

Lemma exec_here (atoms : list RegExp.atom) (input : jstr) (i e : nat) :
  (i <= length input)%nat ->
  RegExp.matchAt atoms input i = Some e ->
  RegExp.exec atoms input i = Some (i, e).
Proof.
  intros Hi Hsome. unfold RegExp.exec.
  destruct (Nat.ltb_spec (length input) i) as [|_]; [lia|].
  replace (S (length input) - i)%nat with (S (length input - i)) by lia.
  simpl. now rewrite Hsome.
Qed.

(** On a non-empty literal term the search loop finds the spans of the
    sequential scan of the specification. *)
Lemma foundMatches_scan (term content : jstr) :
  (0 < length term)%nat ->
  forall (k i fuel : nat),
    (length content - i <= k)%nat -> (i <= length content)%nat ->
    (length content + 1 - i < fuel)%nat ->
    foundMatches fuel (map RegExp.Lit term) content i
    = Returned (Spec.scan term (skipn i content) i 0).
Proof.
  intros Hn. induction k as [|k IH]; intros i fuel Hk Hi Hfuel.
  - (* at the end of the content *)
    assert (i = length content) by lia. subst i.
    rewrite skipn_all. destruct fuel as [|fuel]; [lia|]. simpl.
    assert (Hnone : RegExp.matchAt (map RegExp.Lit term) content (length content) = None).
    { rewrite matchAt_literal. unfold toLowerCase at 2.
      rewrite skipn_map, skipn_all. destruct term; [simpl in Hn; lia | reflexivity]. }
    unfold RegExp.exec. rewrite Nat.ltb_irrefl.
    replace (S (length content) - length content)%nat with 1%nat by lia.
    simpl. now rewrite Hnone.
  - destruct (Nat.eq_dec i (length content)) as [-> | Hne].
    { apply IH; lia. }
    destruct (skipn_cons_inside _ content i) as [c E]; [lia|].
    destruct fuel as [|fuel]; [lia|].
    rewrite E. cbn [Spec.scan]. rewrite <- E.
    unfold toLowerCase at 2. rewrite <- skipn_map. fold (toLowerCase content).
    pose proof (matchAt_literal term content i) as Hm.
    destruct (isPrefixOf (toLowerCase term) (skipn i (toLowerCase content))) eqn:Ep.
    + (* a match at [i] *)
      assert (Ho : occursAt term content i).
      { apply (matchAt_literal_Some term content i (i + length term)).
        exact Hm. }
      pose proof (occursAt_bound _ _ _ Ho Hn) as Hb.
      cbn [foundMatches]. rewrite (exec_here _ _ _ _ Hi Hm).
      rewrite (IH (i + length term)%nat fuel) by lia. cbn [mapOutcome].
      rewrite slice_length by lia.
      replace (S i) with (i + 1)%nat by lia.
      rewrite (scan_skip term content (length term - 1) (i + 1)) by lia.
      replace (i + 1 + (length term - 1))%nat with (i + length term)%nat by lia.
      do 3 f_equal. lia.
    + (* no match at [i] *)
      assert (Hlt : (i < length content)%nat) by lia.
      cbn [foundMatches]. rewrite (exec_step _ _ _ Hlt Hm).
      change (foundMatches (S fuel) (map RegExp.Lit term) content (S i)
              = Returned (Spec.scan term (skipn (S i) content) (S i) 0)).
      apply IH; lia.
Qed.

(** For a search that runs no pattern or a literal one, the sorted
    boundaries of the memo are the boundaries of the specification. *)
Lemma sortedBoundaries_plain_search (fuel : nat) (content : jstr)
      (annotations : list Annotation.t) (searchTerm : option jstr) :
  plainSearch searchTerm -> (length content + 1 < fuel)%nat ->
  sortedBoundaries fuel content annotations searchTerm
  = Returned (Spec.boundaries content annotations searchTerm).
Proof.
  intros Hplain Hfuel. unfold sortedBoundaries, Spec.boundaries.
  rewrite boundarySet_searchMatches. unfold searchMatches.
  destruct searchTerm as [term|]; [|reflexivity].
  destruct (searchActive (Some term)) eqn:Hact; [|reflexivity].
  rewrite (parse_literal _ (Hplain Hact)). cbn [bindOutcome].
  assert (Hn : (0 < length term)%nat).
  { simpl in Hact. apply Nat.ltb_lt in Hact. lia. }
  rewrite (foundMatches_scan term content Hn (length content) 0 fuel) by lia.
  reflexivity.
Qed.

(** C3, at an input where the search term is read as a pattern.  On the
    content [xabcx] with the search term [a.c], the memo adds the ends 1 and
    4 of the pattern match [abc]; the term has no literal occurrence in the
    content, and the boundaries of the specification are 0 and 5 alone.
    (For a term without syntax characters the two agree:
    [sortedBoundaries_plain_search].) *)
Theorem pattern_term_adds_non_literal_boundaries (fuel : nat) :
  sortedBoundaries (2 + fuel) (js "xabcx") [] (Some (js "a.c"))
  = Returned [0; 1; 4; 5]
  /\ Spec.literalMatches (js "a.c") (js "xabcx") = []
  /\ Spec.boundaries (js "xabcx") [] (Some (js "a.c")) = [0; 5].
Proof.
  split; [|split].
  - apply sortedBoundaries_more_fuel. vm_compute. reflexivity.
  - vm_compute. reflexivity.
  - vm_compute. reflexivity.
Qed.

(** ** C4: the search flag *)

(** C4, at an input where an annotation boundary cuts a found match.  On
    the content [The quick brown fox] with the search term [fox] and an
    annotation of range [17,18), the search loop finds the one span [16,19)
    and adds its two ends to the boundaries.  With any fuel from 2 on the
    memo returns the segments [0,16), [16,17), [17,18) and [18,19).  The
    last three lie within the found span, so the claim asks for their flag;
    their texts are [f], [o] and [x], none of which includes the term, and
    none of them is flagged. *)
Theorem match_cut_by_annotation_is_not_flagged (fuel : nat) :
  exists segs,
    renderedContent (2 + fuel) scenarioContent
                    [scenarioAnnotation "a1" 17 18 "o" 1]
                    None (Some (js "fox"))
    = Returned (Some segs)
    /\ searchMatches (2 + fuel) scenarioContent (Some (js "fox"))
       = Returned [(16, 19)]
    /\ map (fun seg => (seg_start seg, seg_end seg, seg_text seg,
                        isSearchMatch seg)) segs
       = [(0, 16, js "The quick brown ", false); (16, 17, js "f", false);
          (17, 18, js "o", false); (18, 19, js "x", false)]
    /\ (forall seg, In seg segs -> 16 <= seg_start seg ->
          equalsOrWithinFoundSpan scenarioContent [(16, 19)] seg
          /\ isSearchMatch seg = false).
Proof.
  eexists. split; [|split; [|split]].
  - apply renderedContent_more_fuel. vm_compute. reflexivity.
  - apply searchMatches_more_fuel. vm_compute. reflexivity.
  - vm_compute. reflexivity.
  - intros seg [<- | [<- | [<- | [<- | []]]]]; cbn [seg_start buildSegment fst snd];
      intros H; try lia; (split; [|vm_compute; reflexivity]);
      exists (16, 19); (split; [left; reflexivity|]); right; simpl; lia.
Qed.

(** Where no boundary cuts a match, the flag follows the found spans
    ([flag_iff_found_span]), for ranges that lie in the content: on
    [xxfoxyy] an annotation of range [-5,-2) makes a segment [-5,-2) whose
    text, counted from the end, is [fox]; it is flagged and is no found
    span. *)
Lemma flag_outside_content :
  exists segs seg,
    renderedContent 2 (js "xxfoxyy") [scenarioAnnotation "a1" (-5) (-2) "" 1]
                    None (Some (js "fox"))
    = Returned (Some segs)
    /\ searchMatches 2 (js "xxfoxyy") (Some (js "fox")) = Returned [(2, 5)]
    /\ In seg segs
    /\ (seg_start seg, seg_end seg) = (-5, -2)
    /\ isSearchMatch seg = true.
Proof.
  eexists.
  exists (buildSegment (js "xxfoxyy") [scenarioAnnotation "a1" (-5) (-2) "" 1]
                       None (Some (js "fox")) (-5) (-2)).
  split; [vm_compute; reflexivity|].
  split; [vm_compute; reflexivity|].
  split; [left; reflexivity|].
  split; vm_compute; reflexivity.
Qed.

(** ** C5: the scenario *)

Lemma scenario_sortedBoundaries (fuel : nat) :
  sortedBoundaries (2 + fuel) scenarioContent
                   [scenarioAnnotation "a1" 4 9 "quick" 1] (Some (js "fox"))
  = Returned [0; 4; 9; 16; 19].
Proof.
  apply sortedBoundaries_more_fuel. vm_compute. reflexivity.
Qed.

(** C5 as stated fails: no amount of fuel makes the sorted boundaries of the
    scenario [0, 4, 9, 16, 19, 20] with five segments. *)
Lemma scenario_has_no_boundary_20 :
  ~ exists fuel segs,
      sortedBoundaries fuel scenarioContent
                       [scenarioAnnotation "a1" 4 9 "quick" 1] (Some (js "fox"))
      = Returned [0; 4; 9; 16; 19; 20]
      /\ renderedContent fuel scenarioContent
                         [scenarioAnnotation "a1" 4 9 "quick" 1] None
                         (Some (js "fox"))
         = Returned (Some segs)
      /\ length segs = 5%nat.
Proof.
  intros [fuel [segs [H _]]].
  apply (sortedBoundaries_more_fuel fuel 2) in H.
  rewrite Nat.add_comm, scenario_sortedBoundaries in H. discriminate.
Qed.

(** C5, amended.  On the content [The quick brown fox] (19 characters) with
    one annotation of range [4,9) and the search term [fox], the sorted
    boundaries are [0, 4, 9, 16, 19] and the memo produces the four segments
    [0,4), [4,9), [9,16), [16,19); the segment [4,9) has exactly one covering
    annotation, the annotation of the input, and the segment [16,19) is the
    only one flagged as a search match. *)
Theorem scenario_segments (fuel : nat) :
  sortedBoundaries (2 + fuel) scenarioContent
                   [scenarioAnnotation "a1" 4 9 "quick" 1] (Some (js "fox"))
  = Returned [0; 4; 9; 16; 19]
  /\ exists s1 s2 s3 s4,
      renderedContent (2 + fuel) scenarioContent
                      [scenarioAnnotation "a1" 4 9 "quick" 1] None (Some (js "fox"))
      = Returned (Some [s1; s2; s3; s4])
      /\ map (fun s => (seg_start s, seg_end s)) [s1; s2; s3; s4]
         = [(0, 4); (4, 9); (9, 16); (16, 19)]
      /\ map seg_text [s1; s2; s3; s4]
         = [js "The "; js "quick"; js " brown "; js "fox"]
      /\ activeAnnos s2 = [scenarioAnnotation "a1" 4 9 "quick" 1]
      /\ map isSearchMatch [s1; s2; s3; s4] = [false; false; false; true].
Proof.
  split; [apply scenario_sortedBoundaries|].
  do 4 eexists. split.
  - apply renderedContent_more_fuel. vm_compute. reflexivity.
  - vm_compute. repeat split; reflexivity.
Qed.

(** ** C6: the duplicate guard *)

Import DocumentService.

Lemma sameSubmission_spec (anno a : Annotation.t) :
  sameSubmission anno a = true <-> sameTuple a anno.
Proof.
  unfold sameSubmission, sameTuple.
  rewrite !andb_true_iff, !jstr_eqb_eq, !Z.eqb_eq. tauto.
Qed.

Lemma sameTuple_trans (a b c : Annotation.t) :
  sameTuple a b -> sameTuple b c -> sameTuple a c.
Proof.
  unfold sameTuple. intuition congruence.
Qed.

Lemma find_None_iff (A : Type) (p : A -> bool) (l : list A) :
  find p l = None <-> forall x, In x l -> p x = false.
Proof.
  split; [apply find_none|].
  induction l as [|x l IH]; simpl; intros H; [reflexivity|].
  rewrite (H x (or_introl eq_refl)). apply IH. intros y Hy. apply H. tauto.
Qed.

Lemma readAnnos_writeAnnos (ls : LocalStorage) (all : list Annotation.t) :
  readAnnos (writeAnnos ls all) = all.
Proof. reflexivity. Qed.

Lemma filter_none (A : Type) (p : A -> bool) (l : list A) :
  (forall x, In x l -> p x = false) -> filter p l = [].
Proof.
  induction l as [|x l IH]; simpl; intros H; [reflexivity|].
  rewrite (H x (or_introl eq_refl)). apply IH. intros y Hy. apply H. tauto.
Qed.

(** C6.  When the store already holds an annotation with the same
    (documentId, userId, range.start, range.end) as the one submitted,
    [saveAnnotation] leaves the store as it is and dispatches nothing.
    Consequently, saving two annotations with the same tuple one after the
    other stores what saving the first alone stores; from a store that held
    none with that tuple, the store then holds its former annotations and
    the first of the two, so exactly one with that tuple. *)
Theorem saveAnnotation_duplicate_guard (ls : LocalStorage) (anno : Annotation.t) :
  ((exists a, In a (readAnnos ls) /\ sameTuple a anno) ->
   saveAnnotation anno ls = (ls, []))
  /\ (forall anno', sameTuple anno anno' ->
        let ls1 := fst (saveAnnotation anno ls) in
        saveAnnotation anno' ls1 = (ls1, [])
        /\ ((forall a, In a (readAnnos ls) -> ~ sameTuple a anno) ->
            readAnnos (fst (saveAnnotation anno' ls1)) = readAnnos ls ++ [anno]
            /\ length (filter (sameSubmission anno)
                              (readAnnos (fst (saveAnnotation anno' ls1)))) = 1%nat)).
Proof.
  assert (Hguard : forall st x,
             (exists a, In a (readAnnos st) /\ sameTuple a x) ->
             saveAnnotation x st = (st, [])).
  { intros st x [a [Hin Hsame]]. unfold saveAnnotation.
    destruct (find (sameSubmission x) (readAnnos st)) eqn:E; [reflexivity|].
    exfalso. rewrite find_None_iff in E. specialize (E a Hin).
    apply sameSubmission_spec in Hsame. congruence. }
  split; [apply Hguard|].
  intros anno' Hsame ls1.
  assert (Hstored : exists a, In a (readAnnos ls1) /\ sameTuple a anno').
  { subst ls1. unfold saveAnnotation.
    destruct (find (sameSubmission anno) (readAnnos ls)) as [a|] eqn:E.
    - apply find_some in E. destruct E as [Hin Ha].
      apply sameSubmission_spec in Ha. exists a. simpl.
      split; [assumption | eapply sameTuple_trans; eassumption].
    - exists anno. cbn [fst]. rewrite readAnnos_writeAnnos.
      split; [apply in_or_app; right; left; reflexivity | exact Hsame]. }
  rewrite (Hguard ls1 anno' Hstored). split; [reflexivity|].
  intros Hfresh. simpl. subst ls1. unfold saveAnnotation.
  assert (E : find (sameSubmission anno) (readAnnos ls) = None).
  { apply find_None_iff. intros a Ha.
    destruct (sameSubmission anno a) eqn:Es; [|reflexivity].
    apply sameSubmission_spec in Es. destruct (Hfresh a Ha Es). }
  rewrite E. simpl. split; [reflexivity|].
  rewrite readAnnos_writeAnnos, filter_app.
  rewrite (filter_none _ _ _ (proj1 (find_None_iff _ _ _) E)). simpl.
  assert (Hself : sameSubmission anno anno = true).
  { apply sameSubmission_spec. unfold sameTuple. tauto. }
  now rewrite Hself.
Qed.

Lemma saveAnnotation_duplicate_guard_witness :
  saveAnnotation (scenarioAnnotation "a2" 4 9 "quick" 2)
                 (fst (saveAnnotation (scenarioAnnotation "a1" 4 9 "quick" 1)
                                      emptyStorage))
  = (fst (saveAnnotation (scenarioAnnotation "a1" 4 9 "quick" 1) emptyStorage), [])
  /\ readAnnos
       (fst (saveAnnotation
               (scenarioAnnotation "a2" 4 9 "quick" 2)
               (fst (saveAnnotation (scenarioAnnotation "a1" 4 9 "quick" 1)
                                    emptyStorage))))
     = [scenarioAnnotation "a1" 4 9 "quick" 1].
Proof.
  destruct (proj2 (saveAnnotation_duplicate_guard
                     emptyStorage (scenarioAnnotation "a1" 4 9 "quick" 1))
                  (scenarioAnnotation "a2" 4 9 "quick" 2))
    as [Hnoop Hone].
  - unfold sameTuple. simpl. tauto.
  - split; [exact Hnoop|].
    apply Hone. intros a [].
Defined.

(** ** C7: the selection mapper *)

Lemma trim_nonempty_iff (s : jstr) :
  (0 <? Z.of_nat (length (trim s))) = true <-> trim s <> [].
Proof.
  rewrite Z.ltb_lt. destruct (trim s); simpl; split; intros H; try lia; congruence.
Qed.

Lemma slice_clamped (s : jstr) (a b : nat) :
  slice s (Z.of_nat a) (Z.of_nat b)
  = firstn (Nat.min b (length s) - Nat.min a (length s))
           (skipn (Nat.min a (length s)) s).
Proof.
  unfold slice.
  destruct (Z.ltb_spec (Z.of_nat a) 0) as [H|_]; [lia|].
  destruct (Z.ltb_spec (Z.of_nat b) 0) as [H|_]; [lia|].
  f_equal; [|f_equal]; lia.
Qed.

(** A range of the page that lies in the container selects the piece of
    the container text at the offsets counted from the container start. *)
Lemma slice_pageText (page : Page) (containerText : jstr) (a b : nat) :
  (length (textBefore page) <= a)%nat ->
  (b <= length (textBefore page) + length containerText)%nat ->
  slice (pageText page containerText) (Z.of_nat a) (Z.of_nat b)
  = slice containerText (Z.of_nat (a - length (textBefore page)))
          (Z.of_nat (b - length (textBefore page))).
Proof.
  intros Ha Hb. rewrite !slice_clamped. unfold pageText.
  set (pre := textBefore page) in *. set (post := textAfter page).
  rewrite !length_app.
  destruct (Nat.le_gt_cases a b) as [Hab | Hab].
  - replace (Nat.min a (length pre + (length containerText + length post)))
      with (length pre + (a - length pre))%nat by lia.
    replace (Nat.min b (length pre + (length containerText + length post)))
      with b by lia.
    replace (Nat.min (a - length pre) (length containerText))
      with (a - length pre)%nat by lia.
    replace (Nat.min (b - length pre) (length containerText))
      with (b - length pre)%nat by lia.
    rewrite skipn_app, skipn_all2 by lia. simpl.
    replace (length pre + (a - length pre) - length pre)%nat
      with (a - length pre)%nat by lia.
    rewrite skipn_app, firstn_app, length_skipn.
    replace (b - (length pre + (a - length pre))
             - (length containerText - (a - length pre)))%nat with O by lia.
    rewrite firstn_O, app_nil_r. f_equal. lia.
  - replace (Nat.min b (length pre + (length containerText + length post))
             - Nat.min a (length pre + (length containerText + length post)))%nat
      with O by lia.
    replace (Nat.min (b - length pre) (length containerText)
             - Nat.min (a - length pre) (length containerText))%nat
      with O by lia.
    reflexivity.
Qed.

(** What the handler does with a selection object and a container at
    hand.  It emits a range if and only if the selection is not collapsed
    and the trimmed selected text is not empty.  An emitted range has for
    [start] the length of the text between the start of the container and
    the start of the selection, for [text] the selected text, and for [end]
    the sum of [start] and the length of the selected text. *)
Lemma handleSelection_spec (page : Page) (containerText : jstr)
      (sel : Selection) :
  (handleSelection page (Some sel) (Some containerText) <> None
   <-> isCollapsed sel = false
       /\ trim (selectionToString page containerText sel) <> [])
  /\ (forall r,
         handleSelection page (Some sel) (Some containerText) = Some r ->
         exists a b,
           rangeAt0 sel = Some (a, b)
           /\ TextRange.start r
              = Z.of_nat (length (preSelectionText page containerText a))
           /\ TextRange.text r = selectionToString page containerText sel
           /\ TextRange.end_ r
              = TextRange.start r + Z.of_nat (length (TextRange.text r))
           /\ trim (TextRange.text r) <> []).
Proof.
  unfold handleSelection, isCollapsed, selectionToString.
  destruct sel as [[[a b]|]]; simpl.
  - destruct (Nat.eqb a b) eqn:Eab.
    + split.
      * split; [congruence | intros [H _]; discriminate].
      * discriminate.
    + destruct (0 <? Z.of_nat (length (trim (slice (pageText page containerText)
                                                  (Z.of_nat a) (Z.of_nat b)))))
        eqn:Et.
      * apply trim_nonempty_iff in Et. split.
        -- split; [intros _; split; [reflexivity | exact Et] | discriminate].
        -- intros r E. injection E as <-. exists a, b. simpl. tauto.
      * assert (Hempty : ~ trim (slice (pageText page containerText)
                                       (Z.of_nat a) (Z.of_nat b)) <> []).
        { intros H. apply trim_nonempty_iff in H. congruence. }
        split.
        -- split; [congruence | intros [_ H]; contradiction].
        -- discriminate.
  - split.
    + split; [congruence | intros [H _]; discriminate].
    + discriminate.
Qed.

(** Without a selection object or without the container the handler
    returns at its guard. *)
Lemma handleSelection_without_platform (page : Page)
      (selection : option Selection) (container : option jstr) :
  selection = None \/ container = None ->
  handleSelection page selection container = None.
Proof.
  intros [-> | ->]; [reflexivity|]. destruct selection; reflexivity.
Qed.

(** For a selection that lies in the container, the emitted range is the
    range of the selection counted from the start of the container, and its
    text is that piece of the container text. *)
Lemma emitted_range_spec (page : Page) (containerText : jstr)
      (sel : Selection) (a b : nat) (r : TextRange.t) :
  rangeAt0 sel = Some (a, b) ->
  (length (textBefore page) <= a)%nat ->
  (b <= length (textBefore page) + length containerText)%nat ->
  handleSelection page (Some sel) (Some containerText) = Some r ->
  TextRange.start r = Z.of_nat (a - length (textBefore page))
  /\ TextRange.end_ r = Z.of_nat (b - length (textBefore page))
  /\ 0 <= TextRange.start r
  /\ TextRange.start r < TextRange.end_ r
  /\ TextRange.end_ r <= Z.of_nat (length containerText)
  /\ TextRange.text r
     = slice containerText (TextRange.start r) (TextRange.end_ r)
  /\ trim (TextRange.text r) <> [].
Proof.
  intros Hsel Ha Hb Hr.
  destruct (proj2 (handleSelection_spec page containerText sel) r Hr)
    as [a' [b' [E [Hs [Ht [He Htrim]]]]]].
  rewrite Hsel in E. injection E as <- <-.
  unfold selectionToString in Ht. rewrite Hsel in Ht.
  rewrite (slice_pageText page containerText a b Ha Hb) in Ht.
  assert (Hab : (a < b)%nat).
  { destruct (Nat.le_gt_cases b a) as [Hle|]; [|assumption]. exfalso.
    apply Htrim. rewrite Ht, slice_clamped.
    replace (Nat.min (b - length (textBefore page)) (length containerText)
             - Nat.min (a - length (textBefore page)) (length containerText))%nat
      with O by lia.
    reflexivity. }
  assert (Hstart : TextRange.start r = Z.of_nat (a - length (textBefore page))).
  { rewrite Hs. unfold preSelectionText.
    change (Z.of_nat (length (textBefore page)))
      with (Z.of_nat (length (textBefore page))).
    rewrite (slice_pageText page containerText (length (textBefore page)) a)
      by lia.
    rewrite Nat.sub_diag, slice_length by lia. lia. }
  assert (Hlen : Z.of_nat (length (TextRange.text r))
                 = Z.of_nat (b - length (textBefore page))
                   - Z.of_nat (a - length (textBefore page))).
  { rewrite Ht. apply slice_length; lia. }
  assert (Hend : TextRange.end_ r = Z.of_nat (b - length (textBefore page)))
    by lia.
  rewrite Hstart, Hend. repeat split; try lia; [exact Ht | exact Htrim].
Qed.

(** A selection dragged from the heading into the container: of the page
    [Title] followed by the container text [The quick brown fox], the
    selection of the offsets [2,14) is emitted with start 0, end 12 and the
    text [tleThe quick], which is no piece of the container text. *)
Lemma selection_from_the_heading :
  handleSelection scenarioPage (Some {| rangeAt0 := Some (2, 14)%nat |})
                  (Some scenarioContent)
  = Some (TextRange.Build 0 12 (js "tleThe quick")).
Proof.
  vm_compute. reflexivity.
Qed.

(** C7, at an input where a reply-count badge stands before the selection.
    On the content [The quick brown fox] with one annotation of range
    [4,9) that has two replies, the memo returns three segments and the
    container holds the text [The quick2 brown fox], the digit being the
    badge in the mark of [quick].  The user selects [brown], the characters
    [10,15) of the content.  The handler emits the range with start 11,
    end 16 and text [brown], where the claim gives start 10 and end 15; the
    characters [11,16) of the content are not the emitted text. *)
Theorem selection_offsets_count_badge_digits :
  exists segs,
    (forall fuel,
        renderedContent fuel scenarioContent
                        [repliedAnnotation "a1" 4 9 "quick" 1] None None
        = Returned (Some segs))
    /\ containerTextOf (Some segs) = js "The quick2 brown fox"
    /\ selectionToString scenarioPage (containerTextOf (Some segs))
                         {| rangeAt0 := Some (16, 21)%nat |}
       = slice scenarioContent 10 15
    /\ handleSelection scenarioPage
                       (Some {| rangeAt0 := Some (16, 21)%nat |})
                       (Some (containerTextOf (Some segs)))
       = Some (TextRange.Build 11 16 (js "brown"))
    /\ slice scenarioContent 11 16 <> js "brown".
Proof.
  eexists. split; [|split; [|split; [|split]]].
  - intros fuel. vm_compute. reflexivity.
  - vm_compute. reflexivity.
  - vm_compute. reflexivity.
  - vm_compute. reflexivity.
  - vm_compute. discriminate.
Qed.

(** ** C8: the primary annotation and the reply count *)

Lemma insertByTimestamp_In (x y : Annotation.t) (l : list Annotation.t) :
  In y (insertByTimestamp x l) <-> y = x \/ In y l.
Proof.
  induction l as [|z l IH]; simpl.
  - intuition.
  - destruct (Annotation.timestamp z - Annotation.timestamp x <=? 0); simpl;
      rewrite ?IH; intuition.
Qed.

Lemma sortByTimestampDesc_In (y : Annotation.t) (l : list Annotation.t) :
  In y (sortByTimestampDesc l) <-> In y l.
Proof.
  induction l as [|x l IH]; simpl; [tauto|].
  rewrite insertByTimestamp_In, IH. intuition.
Qed.

Lemma insertByTimestamp_Permutation (x : Annotation.t) (l : list Annotation.t) :
  Permutation (x :: l) (insertByTimestamp x l).
Proof.
  induction l as [|z l IH]; simpl; [apply Permutation_refl|].
  destruct (Annotation.timestamp z - Annotation.timestamp x <=? 0).
  - apply Permutation_refl.
  - eapply Permutation_trans; [apply perm_swap|]. now apply perm_skip.
Qed.

Lemma sortByTimestampDesc_Permutation (l : list Annotation.t) :
  Permutation l (sortByTimestampDesc l).
Proof.
  induction l as [|x l IH]; simpl; [apply Permutation_refl|].
  eapply Permutation_trans; [|apply insertByTimestamp_Permutation].
  now apply perm_skip.
Qed.



Lemma fold_left_replies (l : list Annotation.t) (acc : Z) :
  fold_left (fun sum a => sum + repliesLength a) l acc
  = acc + sumZ (map repliesLength l).
Proof.
  revert acc. induction l as [|x l IH]; intros acc; simpl; [lia|].
  rewrite IH. lia.
Qed.




(** ** C9: removal *)

Lemma filter_filter_same (A : Type) (p : A -> bool) (l : list A) :
  filter p (filter p l) = filter p l.
Proof.
  induction l as [|x l IH]; simpl; [reflexivity|].
  destruct (p x) eqn:E; simpl; [rewrite E; f_equal|]; exact IH.
Qed.

Lemma filter_all (A : Type) (p : A -> bool) (l : list A) :
  (forall x, In x l -> p x = true) -> filter p l = l.
Proof.
  induction l as [|x l IH]; simpl; intros H; [reflexivity|].
  rewrite (H x (or_introl eq_refl)). f_equal. apply IH. intros y Hy. apply H. tauto.
Qed.

Lemma hasId_false (id : jstr) (a : Annotation.t) :
  Annotation.id a <> id -> negb (hasId id a) = true.
Proof.
  intros H. unfold hasId. destruct (jstr_eqb (Annotation.id a) id) eqn:E; [|reflexivity].
  apply jstr_eqb_eq in E. contradiction.
Qed.

(** C9.  Removing an annotation id is idempotent.  In the persisted store,
    [deleteAnnotation] run twice with an id leaves the store that running it
    once leaves, and with an id that no stored annotation has it leaves the
    stored annotation list as it reads.  The removal from the in-memory
    active set, used by the expiry of ephemeral annotations, has the same
    two properties. *)
Theorem removal_idempotent (id : jstr) (ls : LocalStorage) (prev : list Annotation.t) :
  fst (deleteAnnotation id (fst (deleteAnnotation id ls)))
  = fst (deleteAnnotation id ls)
  /\ ((forall a, In a (readAnnos ls) -> Annotation.id a <> id) ->
      readAnnos (fst (deleteAnnotation id ls)) = readAnnos ls)
  /\ App.removeActive id (App.removeActive id prev) = App.removeActive id prev
  /\ ((forall a, In a prev -> Annotation.id a <> id) ->
      App.removeActive id prev = prev).
Proof.
  repeat split.
  - unfold deleteAnnotation. cbn [fst]. rewrite readAnnos_writeAnnos.
    rewrite filter_filter_same. reflexivity.
  - intros H. unfold deleteAnnotation. simpl. apply filter_all.
    intros a Ha. apply hasId_false. now apply H.
  - apply filter_filter_same.
  - intros H. apply filter_all. intros a Ha. apply hasId_false. now apply H.
Qed.

Lemma removal_idempotent_witness :
  readAnnos (fst (deleteAnnotation (js "a9") emptyStorage)) = readAnnos emptyStorage
  /\ App.removeActive (js "a9") [scenarioAnnotation "a1" 4 9 "quick" 1]
     = [scenarioAnnotation "a1" 4 9 "quick" 1].
Proof.
  destruct (removal_idempotent (js "a9") emptyStorage
                               [scenarioAnnotation "a1" 4 9 "quick" 1])
    as [_ [Hstore [_ Hactive]]].
  split.
  - apply Hstore. intros a [].
  - apply Hactive. intros a [<- | []]. simpl. discriminate.
Defined.

(** ** C10: the frame of [updateAnnotation] *)

Lemma findIndex_None (A : Type) (p : A -> bool) (l : list A) :
  (forall x, In x l -> p x = false) -> findIndex p l = None.
Proof.
  induction l as [|x l IH]; simpl; intros H; [reflexivity|].
  rewrite (H x (or_introl eq_refl)), IH; [reflexivity|].
  intros y Hy. apply H. tauto.
Qed.

Lemma findIndex_first (A : Type) (p : A -> bool) (l : list A) (index : nat) (a : A) :
  nth_error l index = Some a -> p a = true ->
  (forall j b, (j < index)%nat -> nth_error l j = Some b -> p b = false) ->
  findIndex p l = Some index.
Proof.
  revert index. induction l as [|x l IH]; intros [|index]; simpl; try discriminate.
  - intros E Hp _. injection E as ->. now rewrite Hp.
  - intros E Hp Hbefore.
    rewrite (Hbefore O x (Nat.lt_0_succ _) eq_refl).
    rewrite (IH index E Hp); [reflexivity|].
    intros j b Hj Hb. apply (Hbefore (S j) b); [lia | exact Hb].
Qed.

Lemma assignComment_at (all : list Annotation.t) (index : nat) (comment : jstr)
      (a : Annotation.t) :
  nth_error all index = Some a ->
  nth_error (assignComment all index comment) index
  = Some (Annotation.setComment a comment).
Proof.
  revert index. induction all as [|x all IH]; intros [|index]; simpl; try discriminate.
  - intros E. injection E as ->. reflexivity.
  - apply IH.
Qed.

Lemma assignComment_other (all : list Annotation.t) (index j : nat) (comment : jstr) :
  j <> index ->
  nth_error (assignComment all index comment) j = nth_error all j.
Proof.
  revert index j. induction all as [|x all IH]; intros [|index] [|j] H; simpl;
    try reflexivity; try congruence.
  apply IH. congruence.
Qed.

Lemma assignComment_length (all : list Annotation.t) (index : nat) (comment : jstr) :
  length (assignComment all index comment) = length all.
Proof.
  revert index. induction all as [|x all IH]; intros [|index]; simpl;
    try reflexivity. now rewrite IH.
Qed.

(** C10.  [updateAnnotation] with an id that no stored annotation has
    leaves the store as it is and dispatches nothing.  Otherwise, at the
    first position whose annotation has the id, the stored annotation keeps
    every field but [comment], which becomes the given text; every other
    position of the stored list, the length of the list and the other two
    keys of the store are unchanged. *)
Theorem updateAnnotation_frame (id comment : jstr) (ls : LocalStorage) :
  ((forall a, In a (readAnnos ls) -> Annotation.id a <> id) ->
   updateAnnotation id comment ls = (ls, []))
  /\ (forall index a,
         nth_error (readAnnos ls) index = Some a ->
         Annotation.id a = id ->
         (forall j b, (j < index)%nat -> nth_error (readAnnos ls) j = Some b ->
                      Annotation.id b <> id) ->
         let ls' := fst (updateAnnotation id comment ls) in
         (exists a',
             nth_error (readAnnos ls') index = Some a'
             /\ Annotation.comment a' = comment
             /\ Annotation.id a' = Annotation.id a
             /\ Annotation.documentId a' = Annotation.documentId a
             /\ Annotation.userId a' = Annotation.userId a
             /\ Annotation.userName a' = Annotation.userName a
             /\ Annotation.userColor a' = Annotation.userColor a
             /\ Annotation.range a' = Annotation.range a
             /\ Annotation.timestamp a' = Annotation.timestamp a
             /\ Annotation.replies a' = Annotation.replies a
             /\ Annotation.isTemporary a' = Annotation.isTemporary a)
         /\ (forall j, j <> index ->
                       nth_error (readAnnos ls') j = nth_error (readAnnos ls) j)
         /\ length (readAnnos ls') = length (readAnnos ls)
         /\ docs ls' = docs ls
         /\ presence ls' = presence ls).
Proof.
  split.
  - intros Hnone. unfold updateAnnotation.
    rewrite findIndex_None; [reflexivity|].
    intros a Ha. unfold hasId.
    destruct (jstr_eqb (Annotation.id a) id) eqn:E; [|reflexivity].
    apply jstr_eqb_eq in E. destruct (Hnone a Ha E).
  - intros index a Hnth Hid Hbefore ls'.
    assert (Hfind : findIndex (hasId id) (readAnnos ls) = Some index).
    { apply (findIndex_first _ _ _ _ a Hnth).
      - unfold hasId. now apply jstr_eqb_eq.
      - intros j b Hj Hb. unfold hasId.
        destruct (jstr_eqb (Annotation.id b) id) eqn:E; [|reflexivity].
        apply jstr_eqb_eq in E. destruct (Hbefore j b Hj Hb E). }
    subst ls'. unfold updateAnnotation. rewrite Hfind. cbn [fst].
    rewrite readAnnos_writeAnnos. repeat split.
    + exists (Annotation.setComment a comment).
      split; [now apply assignComment_at|]. simpl. repeat split.
    + intros j Hj. now apply assignComment_other.
    + apply assignComment_length.
Qed.

Lemma updateAnnotation_frame_witness :
  (exists a',
      nth_error
        (readAnnos
           (fst (updateAnnotation
                   (js "a1") (js "edited")
                   (writeAnnos emptyStorage
                               [scenarioAnnotation "a0" 0 3 "The" 1;
                                scenarioAnnotation "a1" 4 9 "quick" 2]))))
        1
      = Some a'
      /\ Annotation.comment a' = js "edited"
      /\ Annotation.range a' = TextRange.Build 4 9 (js "quick"))
  /\ updateAnnotation (js "zz") (js "edited")
                      (writeAnnos emptyStorage [scenarioAnnotation "a0" 0 3 "The" 1])
     = (writeAnnos emptyStorage [scenarioAnnotation "a0" 0 3 "The" 1], []).
Proof.
  split.
  - destruct (proj2 (updateAnnotation_frame
                       (js "a1") (js "edited")
                       (writeAnnos emptyStorage
                                   [scenarioAnnotation "a0" 0 3 "The" 1;
                                    scenarioAnnotation "a1" 4 9 "quick" 2]))
                    1%nat (scenarioAnnotation "a1" 4 9 "quick" 2))
      as [[a' [Hnth [Hc [_ [_ [_ [_ [_ [Hr _]]]]]]]]] _].
    + reflexivity.
    + reflexivity.
    + intros j b Hj Hb. assert (j = 0)%nat by lia. subst j.
      simpl in Hb. injection Hb as <-. simpl. discriminate.
    + exists a'. repeat split; assumption.
  - apply (proj1 (updateAnnotation_frame
                    (js "zz") (js "edited")
                    (writeAnnos emptyStorage [scenarioAnnotation "a0" 0 3 "The" 1]))).
    intros a [<- | []]. simpl. discriminate.
Defined.

(* ================================================================== *)
(** * Further properties of the viewer *)

Lemma firstn_add_skipn (A : Type) (n m : nat) (l : list A) :
  firstn (n + m) l = firstn n l ++ firstn m (skipn n l).
Proof.
  revert l. induction n as [|n IH]; intros l; simpl; [reflexivity|].
  destruct l as [|x l]; simpl.
  - now rewrite firstn_nil.
  - now rewrite IH.
Qed.

Lemma slice_app (s : jstr) (a e b : Z) :
  0 <= a -> a <= e -> e <= b -> b <= Z.of_nat (length s) ->
  slice s a e ++ slice s e b = slice s a b.
Proof.
  intros Ha Hae Heb Hb. rewrite !slice_inside by lia.
  replace (Z.to_nat (b - a)) with (Z.to_nat (e - a) + Z.to_nat (b - e))%nat by lia.
  rewrite firstn_add_skipn, skipn_skipn.
  replace (Z.to_nat (e - a) + Z.to_nat a)%nat with (Z.to_nat e) by lia.
  reflexivity.
Qed.

Lemma slice_whole (s : jstr) : slice s 0 (Z.of_nat (length s)) = s.
Proof.
  rewrite slice_inside by lia. simpl.
  rewrite Z.sub_0_r, Nat2Z.id. apply firstn_all.
Qed.

Lemma slice_empty (s : jstr) (a : Z) :
  0 <= a -> a <= Z.of_nat (length s) -> slice s a a = [].
Proof.
  intros Ha Hb. rewrite slice_inside by lia. now rewrite Z.sub_diag.
Qed.

Lemma contiguous_le (segs : list Segment) (from to : Z) :
  contiguous from segs to -> from <= to.
Proof.
  revert from. induction segs as [|s segs IH]; simpl; intros from.
  - intros ->. lia.
  - intros [E [Hlt Hrest]]. specialize (IH _ Hrest). lia.
Qed.

Lemma contiguous_concat (content : jstr) (segs : list Segment) (from to : Z) :
  contiguous from segs to ->
  0 <= from -> to <= Z.of_nat (length content) ->
  (forall s, In s segs -> seg_text s = slice content (seg_start s) (seg_end s)) ->
  List.concat (map seg_text segs) = slice content from to.
Proof.
  revert from. induction segs as [|s segs IH]; simpl; intros from.
  - intros -> H0 HL _. symmetry. now apply slice_empty.
  - intros [E [Hlt Hrest]] H0 HL Htext.
    pose proof (contiguous_le _ _ _ Hrest) as Hle.
    rewrite (Htext s (or_introl eq_refl)), (IH _ Hrest) by (try lia; auto).
    rewrite E. apply slice_app; lia.
Qed.

(** X1.  Whenever the memo returns on annotations whose ranges lie in the
    content, the texts of its segments, put one after the other, are the
    content. *)
Theorem segments_spell_content (fuel : nat) (content : jstr)
        (annotations : list Annotation.t) (active searchTerm : option jstr)
        (r : option (list Segment)) :
  (forall a, In a annotations -> rangeWithin content a) ->
  renderedContent fuel content annotations active searchTerm = Returned r ->
  List.concat (map seg_text (segmentsOf r)) = content.
Proof.
  intros Hann Hr.
  destruct (returned_chain _ _ _ _ _ _ Hann Hr) as [Hchain Htext].
  rewrite (contiguous_concat content _ _ _ Hchain) by (try lia; assumption).
  apply slice_whole.
Qed.

Lemma segments_spell_content_witness :
  List.concat (map seg_text
              (segmentsOf
                 (Some (map (fun p => buildSegment
                                        scenarioContent
                                        [scenarioAnnotation "a1" 4 9 "quick" 1]
                                        None (Some (js "fox")) (fst p) (snd p))
                            [(0, 4); (4, 9); (9, 16); (16, 19)]))))
  = scenarioContent.
Proof.
  apply (segments_spell_content 2 scenarioContent
           [scenarioAnnotation "a1" 4 9 "quick" 1] None (Some (js "fox"))).
  - intros a [<- | []]. unfold rangeWithin. simpl. lia.
  - vm_compute. reflexivity.
Defined.

(** The two ends of every found span and of every annotation range are
    boundaries, so none lies strictly inside a segment. *)
Lemma segment_has_no_inner_boundary (fuel : nat) (content : jstr)
      (annotations : list Annotation.t) (active searchTerm : option jstr)
      (segs : list Segment) (ms : list (Z * Z)) (seg : Segment) :
  renderedContent fuel content annotations active searchTerm = Returned (Some segs) ->
  searchMatches fuel content searchTerm = Returned ms ->
  In seg segs ->
  seg_start seg < seg_end seg
  /\ forall x, isBoundary content annotations ms x ->
               x <= seg_start seg \/ seg_end seg <= x.
Proof.
  intros Hr Hms Hseg.
  destruct (renderedContent_segment _ _ _ _ _ _ _ Hr Hseg)
    as [sorted [s [e [Hsorted [Hpair ->]]]]].
  destruct (sortedBoundaries_spec fuel content annotations searchTerm ms Hms)
    as [sorted' [Hsorted' [Hstrict Hin]]].
  rewrite Hsorted in Hsorted'. injection Hsorted' as <-.
  destruct (consecutive_spec _ _ _ Hstrict Hpair) as [Hlt [_ [_ Hnone]]].
  simpl. split; [assumption|].
  intros x Hx. apply Hin in Hx. specialize (Hnone x Hx). lia.
Qed.

Lemma returned_has_matches (fuel : nat) (content : jstr)
      (annotations : list Annotation.t) (active searchTerm : option jstr)
      (segs : list Segment) :
  renderedContent fuel content annotations active searchTerm = Returned (Some segs) ->
  exists ms, searchMatches fuel content searchTerm = Returned ms.
Proof.
  unfold renderedContent. destruct content as [|c content]; [discriminate|].
  intros H. apply mapOutcome_Returned in H. destruct H as [sorted [H _]].
  exact (sortedBoundaries_matches _ _ _ _ _ H).
Qed.

(** X2.  No segment straddles an end of an annotation range or of a found
    match span: every segment that the memo produces lies within the range
    of a given annotation or beside it, and likewise for every span found by
    the search loop. *)
Theorem segment_inside_or_beside (fuel : nat) (content : jstr)
        (annotations : list Annotation.t) (active searchTerm : option jstr)
        (segs : list Segment) (ms : list (Z * Z)) (seg : Segment) :
  renderedContent fuel content annotations active searchTerm = Returned (Some segs) ->
  searchMatches fuel content searchTerm = Returned ms ->
  In seg segs ->
  (forall a, In a annotations ->
             (TextRange.start (Annotation.range a) <= seg_start seg
              /\ seg_end seg <= TextRange.end_ (Annotation.range a))
             \/ seg_end seg <= TextRange.start (Annotation.range a)
             \/ TextRange.end_ (Annotation.range a) <= seg_start seg)
  /\ (forall m, In m ms ->
                (fst m <= seg_start seg /\ seg_end seg <= snd m)
                \/ seg_end seg <= fst m
                \/ snd m <= seg_start seg).
Proof.
  intros Hr Hms Hseg.
  destruct (segment_has_no_inner_boundary _ _ _ _ _ _ _ _ Hr Hms Hseg)
    as [Hlt Hnone].
  split.
  - intros a Ha.
    assert (H1 : isBoundary content annotations ms (TextRange.start (Annotation.range a))).
    { right. right. left. exists a. tauto. }
    assert (H2 : isBoundary content annotations ms (TextRange.end_ (Annotation.range a))).
    { right. right. left. exists a. tauto. }
    apply Hnone in H1. apply Hnone in H2. lia.
  - intros m Hm.
    assert (H1 : isBoundary content annotations ms (fst m)).
    { right. right. right. exists m. tauto. }
    assert (H2 : isBoundary content annotations ms (snd m)).
    { right. right. right. exists m. tauto. }
    apply Hnone in H1. apply Hnone in H2. lia.
Qed.

Lemma segment_inside_or_beside_witness :
  (TextRange.start (Annotation.range (scenarioAnnotation "a1" 4 9 "quick" 1)) <= 9
   /\ 16 <= TextRange.end_ (Annotation.range (scenarioAnnotation "a1" 4 9 "quick" 1)))
  \/ 16 <= TextRange.start (Annotation.range (scenarioAnnotation "a1" 4 9 "quick" 1))
  \/ TextRange.end_ (Annotation.range (scenarioAnnotation "a1" 4 9 "quick" 1)) <= 9.
Proof.
  apply (proj1 (segment_inside_or_beside
                  2 scenarioContent [scenarioAnnotation "a1" 4 9 "quick" 1]
                  None (Some (js "fox"))
                  (map (fun p => buildSegment
                                   scenarioContent
                                   [scenarioAnnotation "a1" 4 9 "quick" 1]
                                   None (Some (js "fox")) (fst p) (snd p))
                       [(0, 4); (4, 9); (9, 16); (16, 19)])
                  [(16, 19)]
                  (buildSegment scenarioContent
                                [scenarioAnnotation "a1" 4 9 "quick" 1]
                                None (Some (js "fox")) 9 16)
                  ltac:(vm_compute; reflexivity)
                  ltac:(vm_compute; reflexivity)
                  ltac:(right; right; left; reflexivity))).
  left. reflexivity.
Defined.

Lemma highlightOf_None (actives : list Annotation.t) (active : option jstr) :
  highlightOf actives active = None <-> actives = [].
Proof.
  unfold highlightOf.
  pose proof (sortByTimestampDesc_Permutation actives) as Hperm.
  destruct (sortByTimestampDesc actives) as [|p rest].
  - split; [intros _|reflexivity]. now apply Permutation_sym, Permutation_nil in Hperm.
  - split; [discriminate|]. intros ->. now apply Permutation_nil in Hperm.
Qed.

(** X3.  An offset is drawn highlighted exactly when an annotation range
    holds it: for every segment that the memo produces and every offset in
    its span, the segment takes the annotated branch (it has a highlight)
    if and only if some annotation of the input has
    start <= offset < end. *)
Theorem highlighted_iff_in_some_range (fuel : nat) (content : jstr)
        (annotations : list Annotation.t) (active searchTerm : option jstr)
        (segs : list Segment) (seg : Segment) (x : Z) :
  renderedContent fuel content annotations active searchTerm = Returned (Some segs) ->
  In seg segs ->
  inSpan x seg ->
  (mark seg <> None <->
   exists a, In a annotations
             /\ TextRange.start (Annotation.range a) <= x
                < TextRange.end_ (Annotation.range a)).
Proof.
  intros Hr Hseg Hx.
  destruct (returned_has_matches _ _ _ _ _ _ Hr) as [ms Hms].
  destruct (segment_has_no_inner_boundary _ _ _ _ _ _ _ _ Hr Hms Hseg)
    as [Hlt Hnone].
  destruct (renderedContent_segment _ _ _ _ _ _ _ Hr Hseg)
    as [sorted [s [e [_ [_ ->]]]]].
  unfold inSpan in Hx. simpl in *. rewrite highlightOf_None. split.
  - intros Hne. destruct (filter (covers s e) annotations) as [|a rest] eqn:E;
      [congruence|].
    assert (Ha : In a (filter (covers s e) annotations)) by (rewrite E; simpl; tauto).
    apply filter_In in Ha. destruct Ha as [Ha Hc]. unfold covers in Hc.
    apply andb_true_iff in Hc. rewrite !Z.leb_le in Hc.
    exists a. split; [assumption | lia].
  - intros [a [Ha Hax]] Hnil.
    assert (H1 : isBoundary content annotations ms (TextRange.start (Annotation.range a))).
    { right. right. left. exists a. tauto. }
    assert (H2 : isBoundary content annotations ms (TextRange.end_ (Annotation.range a))).
    { right. right. left. exists a. tauto. }
    apply Hnone in H1. apply Hnone in H2.
    assert (Hin : In a (filter (covers s e) annotations)).
    { apply filter_In. split; [assumption|]. unfold covers.
      apply andb_true_iff. rewrite !Z.leb_le. lia. }
    rewrite Hnil in Hin. destruct Hin.
Qed.

Lemma highlighted_iff_in_some_range_witness :
  mark (buildSegment scenarioContent [scenarioAnnotation "a1" 4 9 "quick" 1]
                     None (Some (js "fox")) 4 9) <> None
  <-> exists a, In a [scenarioAnnotation "a1" 4 9 "quick" 1]
                /\ TextRange.start (Annotation.range a) <= 6
                   < TextRange.end_ (Annotation.range a).
Proof.
  eapply (highlighted_iff_in_some_range
            2 scenarioContent [scenarioAnnotation "a1" 4 9 "quick" 1]
            None (Some (js "fox"))).
  - vm_compute. reflexivity.
  - right. left. reflexivity.
  - unfold inSpan. simpl. lia.
Defined.

(** X4.  An annotation whose range is empty or reversed (end <= start)
    covers no segment: every covering annotation of a segment that the memo
    produces has start < end and is an annotation of the input. *)
Theorem covering_annotation_has_extent (fuel : nat) (content : jstr)
        (annotations : list Annotation.t) (active searchTerm : option jstr)
        (segs : list Segment) (seg : Segment) (a : Annotation.t) :
  renderedContent fuel content annotations active searchTerm = Returned (Some segs) ->
  In seg segs ->
  In a (activeAnnos seg) ->
  In a annotations
  /\ TextRange.start (Annotation.range a) < TextRange.end_ (Annotation.range a).
Proof.
  intros Hr Hseg Ha.
  destruct (returned_has_matches _ _ _ _ _ _ Hr) as [ms Hms].
  destruct (segment_has_no_inner_boundary _ _ _ _ _ _ _ _ Hr Hms Hseg)
    as [Hlt _].
  destruct (renderedContent_segment _ _ _ _ _ _ _ Hr Hseg)
    as [sorted [s [e [_ [_ ->]]]]].
  simpl in *. apply filter_In in Ha. destruct Ha as [Ha Hc].
  unfold covers in Hc. apply andb_true_iff in Hc. rewrite !Z.leb_le in Hc.
  split; [assumption | lia].
Qed.

Lemma covering_annotation_has_extent_witness :
  In (scenarioAnnotation "a1" 4 9 "quick" 1)
     [scenarioAnnotation "a0" 4 4 "" 0; scenarioAnnotation "a1" 4 9 "quick" 1]
  /\ TextRange.start (Annotation.range (scenarioAnnotation "a1" 4 9 "quick" 1))
     < TextRange.end_ (Annotation.range (scenarioAnnotation "a1" 4 9 "quick" 1)).
Proof.
  eapply (covering_annotation_has_extent
            1 scenarioContent
            [scenarioAnnotation "a0" 4 4 "" 0; scenarioAnnotation "a1" 4 9 "quick" 1]
            None None).
  - vm_compute. reflexivity.
  - right. left. reflexivity.
  - left. reflexivity.
Defined.

(** X5.  A search term of at most two characters is ignored: whatever its
    characters, the memo never compiles it, returns with any fuel, and
    returns what it returns without a search term; no segment is flagged as
    a search match. *)
Theorem short_search_term_is_ignored (fuel : nat) (content : jstr)
        (annotations : list Annotation.t) (active : option jstr) (term : jstr) :
  (length term <= 2)%nat ->
  renderedContent fuel content annotations active (Some term)
  = renderedContent fuel content annotations active None
  /\ exists r,
      renderedContent fuel content annotations active (Some term) = Returned r
      /\ forall seg, In seg (segmentsOf r) -> isSearchMatch seg = false.
Proof.
  intros Hlen.
  assert (Hact : searchActive (Some term) = false).
  { simpl. apply Nat.ltb_ge. lia. }
  assert (Hseg : forall p,
             buildSegment content annotations active (Some term) (fst p) (snd p)
             = buildSegment content annotations active None (fst p) (snd p)).
  { intros p. unfold buildSegment. now rewrite Hact. }
  assert (Heq : renderedContent fuel content annotations active (Some term)
                = renderedContent fuel content annotations active None).
  { unfold renderedContent, sortedBoundaries, boundarySet. rewrite Hact.
    destruct content as [|c content]; [reflexivity|]. simpl. do 2 f_equal.
    apply map_ext. exact Hseg. }
  split; [exact Heq|]. rewrite Heq.
  unfold renderedContent, sortedBoundaries, boundarySet.
  destruct content as [|c content].
  - exists None. split; [reflexivity | intros seg []].
  - simpl. eexists. split; [reflexivity|].
    intros seg Hin. simpl in Hin. apply in_map_iff in Hin.
    destruct Hin as [p [<- _]]. reflexivity.
Qed.

Lemma short_search_term_is_ignored_witness :
  renderedContent 0 scenarioContent [] None (Some (js "(("))
  = renderedContent 0 scenarioContent [] None None.
Proof.
  apply (proj1 (short_search_term_is_ignored 0 scenarioContent [] None (js "((")
                                             ltac:(simpl; lia))).
Defined.

(** ** Further properties of the selection mapper *)

(** X6.  For a selection whose range lies in the container, every range
    that the selection mapper emits is well formed for the container text:
    its start and end are the two offsets of the selection counted from the
    start of the container, 0 <= start < end <= length, its text is the
    slice [start, end) of the container text, and that text is not blank.
    The page around the container is arbitrary. *)
Theorem handleSelection_range_well_formed (page : Page) (containerText : jstr)
        (sel : Selection) (a b : nat) (r : TextRange.t) :
  rangeAt0 sel = Some (a, b) ->
  (length (textBefore page) <= a)%nat ->
  (b <= length (textBefore page) + length containerText)%nat ->
  handleSelection page (Some sel) (Some containerText) = Some r ->
  TextRange.start r = Z.of_nat (a - length (textBefore page))
  /\ TextRange.end_ r = Z.of_nat (b - length (textBefore page))
  /\ 0 <= TextRange.start r
  /\ TextRange.start r < TextRange.end_ r
  /\ TextRange.end_ r <= Z.of_nat (length containerText)
  /\ TextRange.text r
     = slice containerText (TextRange.start r) (TextRange.end_ r)
  /\ trim (TextRange.text r) <> [].
Proof.
  intros Hsel Ha Hb Hr. exact (emitted_range_spec _ _ _ _ _ _ Hsel Ha Hb Hr).
Qed.

Lemma handleSelection_range_well_formed_witness :
  5 = Z.of_nat (10 - length (js "Title"))
  /\ 12 = Z.of_nat (17 - length (js "Title"))
  /\ 0 <= 5 /\ 5 < 12 /\ 12 <= Z.of_nat (length scenarioContent)
  /\ js "uick br" = slice scenarioContent 5 12
  /\ trim (js "uick br") <> [].
Proof.
  apply (handleSelection_range_well_formed
           scenarioPage scenarioContent
           {| rangeAt0 := Some (10, 17)%nat |} 10%nat 17%nat
           (TextRange.Build 5 12 (js "uick br"))).
  - reflexivity.
  - simpl. lia.
  - simpl. lia.
  - vm_compute. reflexivity.
Defined.

(** ** The text under an annotation *)

(** Along a chain whose segments lie within [[u, v]] or beside it, the
    texts of the segments within spell the part of the content between the
    two ends, cut to the interval of the chain. *)
Lemma contiguous_concat_within (content : jstr) (u v : Z) (segs : list Segment)
      (from to : Z) :
  u <= v ->
  contiguous from segs to ->
  0 <= from -> to <= Z.of_nat (length content) ->
  (forall s, In s segs -> seg_text s = slice content (seg_start s) (seg_end s)) ->
  (forall s, In s segs ->
             (u <= seg_start s /\ seg_end s <= v)
             \/ seg_end s <= u \/ v <= seg_start s) ->
  List.concat
    (map seg_text
         (filter (fun s => (u <=? seg_start s) && (seg_end s <=? v)) segs))
  = slice content (Z.max from (Z.min to u)) (Z.max from (Z.min to v)).
Proof.
  intros Huv. revert from. induction segs as [|s segs IH]; simpl; intros from.
  - intros -> H0 HL _ _. rewrite !Z.max_l by lia. symmetry. now apply slice_empty.
  - intros [E [Hlt Hrest]] H0 HL Htext Hside.
    pose proof (contiguous_le _ _ _ Hrest) as Hle.
    assert (IH' := IH _ Hrest ltac:(lia) HL
                      (fun s' H => Htext s' (or_intror H))
                      (fun s' H => Hside s' (or_intror H))).
    destruct (Hside s (or_introl eq_refl)) as [[H1 H2] | Hbeside].
    + assert (Hin : (u <=? seg_start s) && (seg_end s <=? v) = true).
      { apply andb_true_iff. rewrite !Z.leb_le. tauto. }
      rewrite Hin. simpl. rewrite IH', (Htext s (or_introl eq_refl)).
      replace (Z.max (seg_end s) (Z.min to u)) with (seg_end s) by lia.
      replace (Z.max from (Z.min to u)) with (seg_start s) by lia.
      replace (Z.max from (Z.min to v)) with (Z.max (seg_end s) (Z.min to v)) by lia.
      apply slice_app; lia.
    + assert (Hout : (u <=? seg_start s) && (seg_end s <=? v) = false).
      { apply andb_false_iff. rewrite !Z.leb_gt. lia. }
      rewrite Hout, IH'. destruct Hbeside as [Hb | Hb].
      * f_equal; lia.
      * replace (Z.max (seg_end s) (Z.min to u)) with (seg_end s) by lia.
        replace (Z.max (seg_end s) (Z.min to v)) with (seg_end s) by lia.
        replace (Z.max from (Z.min to u)) with from by lia.
        replace (Z.max from (Z.min to v)) with from by lia.
        rewrite !slice_empty by lia. reflexivity.
Qed.

Lemma covered_text_is_range_slice (fuel : nat) (content : jstr)
        (annotations : list Annotation.t) (active searchTerm : option jstr)
        (segs : list Segment) (a : Annotation.t) :
  (forall a', In a' annotations -> rangeWithin content a') ->
  renderedContent fuel content annotations active searchTerm = Returned (Some segs) ->
  In a annotations ->
  List.concat
    (map seg_text (filter (fun s => covers (seg_start s) (seg_end s) a) segs))
  = slice content (TextRange.start (Annotation.range a))
          (TextRange.end_ (Annotation.range a)).
Proof.
  intros Hann Hr Ha.
  destruct (returned_chain _ _ _ _ _ _ Hann Hr) as [Hchain Htext].
  destruct (returned_has_matches _ _ _ _ _ _ Hr) as [ms Hms].
  pose proof (Hann a Ha) as Hrange. unfold rangeWithin in Hrange.
  simpl segmentsOf in *. unfold covers.
  assert (Hside : forall s, In s segs ->
            (TextRange.start (Annotation.range a) <= seg_start s
             /\ seg_end s <= TextRange.end_ (Annotation.range a))
            \/ seg_end s <= TextRange.start (Annotation.range a)
            \/ TextRange.end_ (Annotation.range a) <= seg_start s).
  { intros s Hs.
    destruct (segment_has_no_inner_boundary _ _ _ _ _ _ _ _ Hr Hms Hs)
      as [Hlt Hnone].
    assert (H1 : isBoundary content annotations ms
                            (TextRange.start (Annotation.range a))).
    { right. right. left. exists a. tauto. }
    assert (H2 : isBoundary content annotations ms
                            (TextRange.end_ (Annotation.range a))).
    { right. right. left. exists a. tauto. }
    apply Hnone in H1. apply Hnone in H2. lia. }
  rewrite (contiguous_concat_within content _ _ _ _ _ (proj1 (proj2 Hrange)) Hchain)
    by (try lia; assumption).
  f_equal; lia.
Qed.

(** X7.  Whenever the memo returns on annotations whose ranges lie in the
    content, the texts of the segments covered by an annotation of the
    input, put one after the other, are the slice of the content at the
    range of the annotation: what is drawn under an annotation is its
    range, whole and nothing more. *)
Theorem covered_segments_spell_range (fuel : nat) (content : jstr)
        (annotations : list Annotation.t) (active searchTerm : option jstr)
        (segs : list Segment) (a : Annotation.t) :
  (forall a', In a' annotations -> rangeWithin content a') ->
  renderedContent fuel content annotations active searchTerm = Returned (Some segs) ->
  In a annotations ->
  List.concat
    (map seg_text (filter (fun s => covers (seg_start s) (seg_end s) a) segs))
  = slice content (TextRange.start (Annotation.range a))
          (TextRange.end_ (Annotation.range a)).
Proof.
  intros Hann Hr Ha. exact (covered_text_is_range_slice _ _ _ _ _ _ _ Hann Hr Ha).
Qed.

Lemma covered_segments_spell_range_witness :
  List.concat
    (map seg_text
         (filter (fun s => covers (seg_start s) (seg_end s)
                                  (scenarioAnnotation "a1" 2 9 "e quick" 1))
                 (map (fun p => buildSegment
                                  scenarioContent
                                  [scenarioAnnotation "a1" 2 9 "e quick" 1;
                                   scenarioAnnotation "a2" 4 16 "quick brown " 2]
                                  None None (fst p) (snd p))
                      [(0, 2); (2, 4); (4, 9); (9, 16); (16, 19)])))
  = slice scenarioContent 2 9.
Proof.
  apply (covered_segments_spell_range
           1 scenarioContent
           [scenarioAnnotation "a1" 2 9 "e quick" 1;
            scenarioAnnotation "a2" 4 16 "quick brown " 2]
           None None).
  - intros a [<- | [<- | []]]; unfold rangeWithin; simpl; lia.
  - vm_compute. reflexivity.
  - left. reflexivity.
Defined.

(* ================================================================== *)
(** * Further properties of the persistence service *)

Lemma sameTuple_tupleOf (a b : Annotation.t) :
  sameTuple a b <-> tupleOf a = tupleOf b.
Proof.
  unfold sameTuple, tupleOf. split.
  - intros [-> [-> [-> ->]]]. reflexivity.
  - intros E. injection E as -> -> -> ->. tauto.
Qed.

Lemma assignComment_tuples (all : list Annotation.t) (index : nat) (comment : jstr) :
  map tupleOf (assignComment all index comment) = map tupleOf all.
Proof.
  revert index. induction all as [|a all IH]; intros [|index]; simpl;
    try reflexivity. now rewrite IH.
Qed.

Lemma pushReplyAt_tuples (all : list Annotation.t) (index : nat) (reply : Reply.t) :
  map tupleOf (pushReplyAt all index reply) = map tupleOf all.
Proof.
  revert index. induction all as [|a all IH]; intros [|index]; simpl;
    try reflexivity. now rewrite IH.
Qed.

Lemma filter_keeps_keys_distinct (K E : Type) (key : E -> K) (keep : E -> bool)
      (xs : list E) :
  NoDup (map key xs) -> NoDup (map key (filter keep xs)).
Proof.
  intros Hxs. induction xs as [|e xs IH]; simpl; [constructor|].
  simpl in Hxs. inversion Hxs as [|? ? He Hrest]; subst.
  destruct (keep e); simpl; [|exact (IH Hrest)].
  constructor; [|exact (IH Hrest)].
  intros Hin. apply He. apply in_map_iff in Hin. destruct Hin as [y [Ey Hy]].
  apply filter_In in Hy. apply in_map_iff. exists y. tauto.
Qed.

(** X8.  The store keeps at most one annotation per
    (documentId, userId, start, end): when no two stored annotations share
    a tuple, none do after [saveAnnotation], [updateAnnotation], [addReply]
    or [deleteAnnotation], whatever their arguments. *)
Theorem distinct_tuples_are_kept (ls : LocalStorage) :
  distinctTuples (readAnnos ls) ->
  (forall anno, distinctTuples (readAnnos (fst (saveAnnotation anno ls))))
  /\ (forall id comment,
         distinctTuples (readAnnos (fst (updateAnnotation id comment ls))))
  /\ (forall id reply, distinctTuples (readAnnos (fst (addReply id reply ls))))
  /\ (forall id, distinctTuples (readAnnos (fst (deleteAnnotation id ls)))).
Proof.
  unfold distinctTuples. intros H. repeat split.
  - intros anno. unfold saveAnnotation.
    destruct (find (sameSubmission anno) (readAnnos ls)) eqn:E; [assumption|].
    cbn [fst]. rewrite readAnnos_writeAnnos, map_app. simpl.
    apply NoDup_app; [assumption | repeat constructor; intros [] |].
    intros t Ht [<- | []]. apply in_map_iff in Ht. destruct Ht as [a [Et Ha]].
    rewrite find_None_iff in E. specialize (E a Ha).
    assert (sameSubmission anno a = true)
      by (apply sameSubmission_spec, sameTuple_tupleOf; assumption).
    congruence.
  - intros id comment. unfold updateAnnotation.
    destruct (findIndex (hasId id) (readAnnos ls)); [|assumption].
    cbn [fst]. now rewrite readAnnos_writeAnnos, assignComment_tuples.
  - intros id reply. unfold addReply.
    destruct (findIndex (hasId id) (readAnnos ls)); [|assumption].
    cbn [fst]. now rewrite readAnnos_writeAnnos, pushReplyAt_tuples.
  - intros id. unfold deleteAnnotation. cbn [fst].
    rewrite readAnnos_writeAnnos. now apply filter_keeps_keys_distinct.
Qed.

Lemma distinct_tuples_are_kept_witness :
  distinctTuples
    (readAnnos
       (fst (saveAnnotation
               (scenarioAnnotation "a2" 4 9 "quick" 2)
               (writeAnnos emptyStorage [scenarioAnnotation "a1" 4 9 "quick" 1])))).
Proof.
  apply (proj1 (distinct_tuples_are_kept
                  (writeAnnos emptyStorage [scenarioAnnotation "a1" 4 9 "quick" 1])
                  ltac:(repeat constructor; intros []))).
Defined.

Lemma getAnnotations_app (d : jstr) (ls : LocalStorage) (l : list Annotation.t) :
  getAnnotations d (writeAnnos ls l)
  = filter (fun a => jstr_eqb (Annotation.documentId a) d) l.
Proof. reflexivity. Qed.

(** X9.  [getAnnotations] gives the stored annotations of the document, in
    stored order, and no other.  After [saveAnnotation] of an annotation
    whose tuple no stored annotation has, the list of its document ends
    with it and the lists of the other documents are as before; after
    [saveAnnotation] of a duplicate every list is as before. *)
Theorem saveAnnotation_then_getAnnotations (ls : LocalStorage) (anno : Annotation.t)
        (d : jstr) :
  (forall a, In a (getAnnotations d ls) <->
             In a (readAnnos ls) /\ Annotation.documentId a = d)
  /\ ((forall a, In a (readAnnos ls) -> ~ sameTuple a anno) ->
      getAnnotations (Annotation.documentId anno) (fst (saveAnnotation anno ls))
      = getAnnotations (Annotation.documentId anno) ls ++ [anno]
      /\ (d <> Annotation.documentId anno ->
          getAnnotations d (fst (saveAnnotation anno ls)) = getAnnotations d ls))
  /\ ((exists a, In a (readAnnos ls) /\ sameTuple a anno) ->
      getAnnotations d (fst (saveAnnotation anno ls)) = getAnnotations d ls).
Proof.
  split; [|split].
  - intros a. unfold getAnnotations. rewrite filter_In, jstr_eqb_eq. tauto.
  - intros Hfresh.
    assert (E : find (sameSubmission anno) (readAnnos ls) = None).
    { apply find_None_iff. intros a Ha.
      destruct (sameSubmission anno a) eqn:Es; [|reflexivity].
      apply sameSubmission_spec in Es. destruct (Hfresh a Ha Es). }
    unfold saveAnnotation. rewrite E. cbn [fst]. rewrite !getAnnotations_app.
    rewrite !filter_app. simpl. split.
    + assert (Hd : jstr_eqb (Annotation.documentId anno) (Annotation.documentId anno)
                   = true) by now apply jstr_eqb_eq.
      now rewrite Hd.
    + intros Hne.
      destruct (jstr_eqb (Annotation.documentId anno) d) eqn:Ed.
      * apply jstr_eqb_eq in Ed. congruence.
      * now rewrite app_nil_r.
  - intros [a [Ha Hsame]]. unfold saveAnnotation.
    destruct (find (sameSubmission anno) (readAnnos ls)) eqn:E; [reflexivity|].
    rewrite find_None_iff in E. specialize (E a Ha).
    apply sameSubmission_spec in Hsame. congruence.
Qed.

Lemma saveAnnotation_then_getAnnotations_witness :
  getAnnotations (js "doc-1")
                 (fst (saveAnnotation (scenarioAnnotation "a1" 4 9 "quick" 1)
                                      emptyStorage))
  = getAnnotations (js "doc-1") emptyStorage
    ++ [scenarioAnnotation "a1" 4 9 "quick" 1].
Proof.
  apply (proj1 (proj2 (saveAnnotation_then_getAnnotations
                         emptyStorage (scenarioAnnotation "a1" 4 9 "quick" 1)
                         (js "doc-2")))).
  intros a [].
Defined.

Lemma filter_comm (A : Type) (p q : A -> bool) (l : list A) :
  filter p (filter q l) = filter q (filter p l).
Proof.
  induction l as [|x l IH]; simpl; [reflexivity|].
  destruct (p x) eqn:Ep, (q x) eqn:Eq; simpl; rewrite ?Ep, ?Eq, IH; reflexivity.
Qed.

(** X10.  [handleDeleteAnnotation] leaves no annotation with the id, neither
    in the store nor in the active set, keeps the documents and presences
    of the store, and keeps the active set in step with the store: the list
    that the store gives for a document is the former list without the id,
    and an active set made of that list and temporary annotations is again
    made of the new list and the temporary ones without the id. *)
Theorem handleDeleteAnnotation_keeps_views_in_step (id : jstr) (ls : LocalStorage)
        (prev : list Annotation.t) :
  (forall a, In a (readAnnos (fst (App.handleDeleteAnnotation id (ls, prev)))) ->
             Annotation.id a <> id)
  /\ (forall a, In a (snd (App.handleDeleteAnnotation id (ls, prev))) ->
                Annotation.id a <> id)
  /\ (forall d, getAnnotations d (fst (App.handleDeleteAnnotation id (ls, prev)))
                = App.removeActive id (getAnnotations d ls))
  /\ (forall d temps,
         prev = getAnnotations d ls ++ temps ->
         snd (App.handleDeleteAnnotation id (ls, prev))
         = getAnnotations d (fst (App.handleDeleteAnnotation id (ls, prev)))
           ++ App.removeActive id temps)
  /\ docs (fst (App.handleDeleteAnnotation id (ls, prev))) = docs ls
  /\ presence (fst (App.handleDeleteAnnotation id (ls, prev))) = presence ls.
Proof.
  assert (Hgone : forall l a, In a (App.removeActive id l) -> Annotation.id a <> id).
  { intros l a Ha. unfold App.removeActive in Ha. apply filter_In in Ha.
    destruct Ha as [_ Hn]. unfold hasId in Hn. intros E.
    apply jstr_eqb_eq in E. rewrite E in Hn. discriminate. }
  assert (Hget : forall d,
             getAnnotations d (fst (App.handleDeleteAnnotation id (ls, prev)))
             = App.removeActive id (getAnnotations d ls)).
  { intros d. unfold App.handleDeleteAnnotation, deleteAnnotation. cbn [fst].
    rewrite getAnnotations_app. unfold App.removeActive, getAnnotations.
    apply filter_comm. }
  repeat split.
  - intros a Ha. exact (Hgone (readAnnos ls) a Ha).
  - intros a Ha. exact (Hgone prev a Ha).
  - exact Hget.
  - intros d temps ->. rewrite Hget. unfold App.handleDeleteAnnotation. cbn [snd].
    unfold App.removeActive. apply filter_app.
Qed.

Lemma handleDeleteAnnotation_keeps_views_in_step_witness :
  snd (App.handleDeleteAnnotation
         (js "a1")
         (writeAnnos emptyStorage [scenarioAnnotation "a1" 4 9 "quick" 1],
          [scenarioAnnotation "a1" 4 9 "quick" 1]))
  = getAnnotations
      (js "doc-1")
      (fst (App.handleDeleteAnnotation
              (js "a1")
              (writeAnnos emptyStorage [scenarioAnnotation "a1" 4 9 "quick" 1],
               [scenarioAnnotation "a1" 4 9 "quick" 1])))
    ++ App.removeActive (js "a1") [].
Proof.
  apply (proj1 (proj2 (proj2 (proj2
           (handleDeleteAnnotation_keeps_views_in_step
              (js "a1")
              (writeAnnos emptyStorage [scenarioAnnotation "a1" 4 9 "quick" 1])
              [scenarioAnnotation "a1" 4 9 "quick" 1]))))
           (js "doc-1") []).
  reflexivity.
Defined.

Lemma pushReplyAt_at (all : list Annotation.t) (index : nat) (reply : Reply.t)
      (a : Annotation.t) :
  nth_error all index = Some a ->
  nth_error (pushReplyAt all index reply) index = Some (pushReply a reply).
Proof.
  revert index. induction all as [|x all IH]; intros [|index]; simpl; try discriminate.
  - intros E. injection E as ->. reflexivity.
  - apply IH.
Qed.

Lemma pushReplyAt_other (all : list Annotation.t) (index j : nat) (reply : Reply.t) :
  j <> index ->
  nth_error (pushReplyAt all index reply) j = nth_error all j.
Proof.
  revert index j. induction all as [|x all IH]; intros [|index] [|j] H; simpl;
    try reflexivity; try congruence.
  apply IH. congruence.
Qed.

Lemma pushReplyAt_total (all : list Annotation.t) (index : nat) (reply : Reply.t)
      (a : Annotation.t) :
  nth_error all index = Some a ->
  sumZ (map repliesLength (pushReplyAt all index reply))
  = sumZ (map repliesLength all) + 1.
Proof.
  revert index. induction all as [|x all IH]; intros [|index]; simpl; try discriminate.
  - intros _. unfold repliesLength at 1. simpl. rewrite length_app. simpl.
    unfold repliesLength. destruct (Annotation.replies x); simpl length; lia.
  - intros E. rewrite (IH _ E). lia.
Qed.

Lemma hasId_true (id : jstr) (a : Annotation.t) :
  hasId id a = true <-> Annotation.id a = id.
Proof. unfold hasId. apply jstr_eqb_eq. Qed.

Lemma hasId_first (id : jstr) (all : list Annotation.t) (index : nat)
      (a : Annotation.t) :
  nth_error all index = Some a -> Annotation.id a = id ->
  (forall j b, (j < index)%nat -> nth_error all j = Some b -> Annotation.id b <> id) ->
  findIndex (hasId id) all = Some index.
Proof.
  intros Hnth Hid Hbefore. apply (findIndex_first _ _ _ _ a Hnth).
  - now apply hasId_true.
  - intros j b Hj Hb. destruct (hasId id b) eqn:E; [|reflexivity].
    apply hasId_true in E. destruct (Hbefore j b Hj Hb E).
Qed.

Lemma hasId_none (id : jstr) (all : list Annotation.t) :
  (forall a, In a all -> Annotation.id a <> id) ->
  findIndex (hasId id) all = None.
Proof.
  intros H. apply findIndex_None. intros a Ha.
  destruct (hasId id a) eqn:E; [|reflexivity].
  apply hasId_true in E. destruct (H a Ha E).
Qed.

(** X11.  A reply is appended to the thread of one annotation and changes
    nothing else.  [submitReply] with a blank text leaves the store as it
    is.  Otherwise, with an id that no stored annotation has it leaves the
    store as it is too; and at the first position whose annotation has the
    id, the stored annotation keeps every field but [replies], which
    becomes its former replies (none when the field was missing) followed
    by the new reply; the new reply carries the text as typed and the
    identity of the current user; every other position is unchanged and
    the number of replies in the store grows by one. *)
Theorem submitReply_appends_to_thread (annoId replyValue : jstr) (user : User.t)
        (uuid : jstr) (now : Z) (ls : LocalStorage) :
  (trim replyValue = [] ->
   Sidebar.submitReply annoId replyValue user uuid now ls = (ls, []))
  /\ ((forall a, In a (readAnnos ls) -> Annotation.id a <> annoId) ->
      Sidebar.submitReply annoId replyValue user uuid now ls = (ls, []))
  /\ (forall index a,
         trim replyValue <> [] ->
         nth_error (readAnnos ls) index = Some a ->
         Annotation.id a = annoId ->
         (forall j b, (j < index)%nat -> nth_error (readAnnos ls) j = Some b ->
                      Annotation.id b <> annoId) ->
         let ls' := fst (Sidebar.submitReply annoId replyValue user uuid now ls) in
         (exists a',
             nth_error (readAnnos ls') index = Some a'
             /\ sameButReplies a a'
             /\ Annotation.replies a'
                = Some (repliesOf a
                        ++ [Reply.Build uuid (User.id user) (User.name user)
                                        (User.color user) replyValue now]))
         /\ (forall j, j <> index ->
                       nth_error (readAnnos ls') j = nth_error (readAnnos ls) j)
         /\ sumZ (map repliesLength (readAnnos ls'))
            = sumZ (map repliesLength (readAnnos ls)) + 1).
Proof.
  unfold Sidebar.submitReply. split; [|split].
  - intros ->. reflexivity.
  - intros Hnone. destruct (trim replyValue); [reflexivity|].
    unfold addReply. now rewrite (hasId_none _ _ Hnone).
  - intros index a Hblank Hnth Hid Hbefore.
    destruct (trim replyValue) as [|c t]; [congruence|].
    unfold addReply. rewrite (hasId_first _ _ _ _ Hnth Hid Hbefore). cbn [fst].
    rewrite readAnnos_writeAnnos. split; [|split].
    + eexists. split; [exact (pushReplyAt_at _ _ _ a Hnth)|].
      split; [unfold sameButReplies; simpl; tauto | reflexivity].
    + intros j Hj. now apply pushReplyAt_other.
    + now apply (pushReplyAt_total _ _ _ a).
Qed.

Lemma submitReply_appends_to_thread_witness :
  Sidebar.submitReply (js "a1") (js "  ") scenarioUser (js "r9") 7 emptyStorage
  = (emptyStorage, [])
  /\ sumZ (map repliesLength
               (readAnnos
                  (fst (Sidebar.submitReply
                          (js "a1") (js "agreed ") scenarioUser (js "r9") 7
                          (writeAnnos emptyStorage
                                      [scenarioAnnotation "a1" 4 9 "quick" 1])))))
     = sumZ (map repliesLength [scenarioAnnotation "a1" 4 9 "quick" 1]) + 1.
Proof.
  split.
  - apply (proj1 (submitReply_appends_to_thread
                    (js "a1") (js "  ") scenarioUser (js "r9") 7 emptyStorage)).
    reflexivity.
  - apply (proj2 (proj2 (submitReply_appends_to_thread
                           (js "a1") (js "agreed ") scenarioUser (js "r9") 7
                           (writeAnnos emptyStorage
                                       [scenarioAnnotation "a1" 4 9 "quick" 1])))
                 0%nat (scenarioAnnotation "a1" 4 9 "quick" 1)).
    + vm_compute. discriminate.
    + reflexivity.
    + reflexivity.
    + intros j b Hj. lia.
Defined.

(** ** Presence *)

Lemma filter_other_users (p : Presence.t) (now : Z) (l : list Presence.t) :
  filter (fun q => jstr_eqb (Presence.userId q) (Presence.userId p))
         (filter (fun q => negb (jstr_eqb (Presence.userId q) (Presence.userId p))
                           && activeAt now q) l)
  = [].
Proof.
  apply filter_none. intros q Hq. apply filter_In in Hq. destruct Hq as [_ Hq].
  apply andb_true_iff in Hq. destruct Hq as [Hq _].
  now apply negb_true_iff in Hq.
Qed.

(** X12.  After [updatePresence] of a record at time [now], the stored
    presences hold exactly one record of its user, the new one, at the
    end; every other stored record was active less than 15000 ms before
    [now]; the documents and annotations of the store are untouched; and
    if the stored records had pairwise distinct users before, they still
    have.  [getPresence] at a time [t] gives the new record exactly when
    t - lastActive < 15000, and every record it gives satisfies that
    bound. *)
Theorem updatePresence_keeps_one_record_per_user (p : Presence.t) (now : Z)
        (ls : LocalStorage) :
  let ls' := fst (updatePresence p now ls) in
  filter (fun q => jstr_eqb (Presence.userId q) (Presence.userId p))
         (readPresence ls') = [p]
  /\ (exists others, readPresence ls' = others ++ [p]
                     /\ forall q, In q others ->
                                  In q (readPresence ls)
                                  /\ now - Presence.lastActive q < 15000
                                  /\ Presence.userId q <> Presence.userId p)
  /\ docs ls' = docs ls /\ annos ls' = annos ls
  /\ (NoDup (map Presence.userId (readPresence ls)) ->
      NoDup (map Presence.userId (readPresence ls')))
  /\ (forall t, In p (getPresence t ls') <-> t - Presence.lastActive p < 15000)
  /\ (forall t q, In q (getPresence t ls') -> t - Presence.lastActive q < 15000).
Proof.
  intros ls'. subst ls'. unfold updatePresence. cbn [fst].
  set (others := filter (fun q => negb (jstr_eqb (Presence.userId q)
                                                 (Presence.userId p))
                                  && activeAt now q) (readPresence ls)).
  set (ls' := {| docs := docs ls; annos := annos ls;
                 presence := Some (others ++ [p]) |}).
  assert (Hread : readPresence ls' = others ++ [p]) by reflexivity.
  assert (Hothers : forall q, In q others ->
            In q (readPresence ls)
            /\ now - Presence.lastActive q < 15000
            /\ Presence.userId q <> Presence.userId p).
  { intros q Hq. apply filter_In in Hq. destruct Hq as [Hin Hq].
    apply andb_true_iff in Hq. destruct Hq as [Hu Ha].
    apply negb_true_iff in Hu. unfold activeAt in Ha. apply Z.ltb_lt in Ha.
    repeat split; try assumption.
    intros E. apply jstr_eqb_eq in E. congruence. }
  split; [|split; [|split; [|split; [|split; [|split]]]]].
  - rewrite Hread, filter_app. unfold others. rewrite filter_other_users. simpl.
    assert (E : jstr_eqb (Presence.userId p) (Presence.userId p) = true)
      by (apply jstr_eqb_eq; reflexivity).
    rewrite E. reflexivity.
  - exists others. split; [exact Hread | exact Hothers].
  - reflexivity.
  - reflexivity.
  - intros Hnd. rewrite Hread, map_app. simpl. apply NoDup_app.
    + unfold others. apply filter_keeps_keys_distinct. exact Hnd.
    + repeat constructor. intros [].
    + intros u Hu [<- | []]. apply in_map_iff in Hu.
      destruct Hu as [q [E Hq]]. apply Hothers in Hq. tauto.
  - intros t. unfold getPresence. rewrite Hread, filter_In, in_app_iff.
    unfold activeAt. rewrite Z.ltb_lt. simpl. tauto.
  - intros t q Hq. unfold getPresence in Hq. apply filter_In in Hq.
    destruct Hq as [_ Hq]. unfold activeAt in Hq. now apply Z.ltb_lt in Hq.
Qed.

Lemma updatePresence_keeps_one_record_per_user_witness :
  NoDup (map Presence.userId
             (readPresence
                (fst (updatePresence
                        (scenarioPresence "user-1" 20000) 20000
                        (fst (updatePresence (scenarioPresence "user-1" 18000)
                                             18000 emptyStorage)))))).
Proof.
  apply (proj1 (proj2 (proj2 (proj2 (proj2
           (updatePresence_keeps_one_record_per_user
              (scenarioPresence "user-1" 20000) 20000
              (fst (updatePresence (scenarioPresence "user-1" 18000)
                                   18000 emptyStorage)))))))).
  simpl. repeat constructor. intros [].
Defined.

(* ================================================================== *)
(** * Further properties of the application component *)

Lemma filter_isTemp_stored (l : list Annotation.t) :
  (forall a, In a l -> App.isTemp a = false) -> filter App.isTemp l = [].
Proof. apply filter_none. Qed.

(** X13.  [syncAll] replaces the persisted part of the active set by what
    the store holds for the active document and keeps the temporary
    annotations, in their order, behind it; without an active document it
    leaves the active set alone.  So a temporary annotation of the active
    set survives, and an annotation of the new active set that is not
    temporary is stored and belongs to the active document: an annotation
    that the store has lost, or holds for another document, is not shown.
    When no stored annotation is temporary, a second [syncAll] at the same
    time changes nothing more. *)
Theorem syncAll_keeps_temporary_annotations (now : Z) (st : App.State) :
  (App.truthy (App.activeDocId st) = false ->
   App.annotations (App.syncAll now st) = App.annotations st)
  /\ (forall docId,
         App.activeDocId st = Some docId ->
         App.truthy (App.activeDocId st) = true ->
         App.annotations (App.syncAll now st)
         = getAnnotations docId (App.storage st)
           ++ filter App.isTemp (App.annotations st))
  /\ (forall a, In a (App.annotations st) -> App.isTemp a = true ->
                In a (App.annotations (App.syncAll now st)))
  /\ (forall docId a,
         App.activeDocId st = Some docId ->
         App.truthy (App.activeDocId st) = true ->
         In a (App.annotations (App.syncAll now st)) ->
         App.isTemp a = false ->
         In a (readAnnos (App.storage st)) /\ Annotation.documentId a = docId)
  /\ ((forall a, In a (readAnnos (App.storage st)) -> App.isTemp a = false) ->
      App.syncAll now (App.syncAll now st) = App.syncAll now st).
Proof.
  split; [|split; [|split; [|split]]].
  - unfold App.syncAll. simpl. intros H.
    destruct (App.activeDocId st) as [docId|]; [|reflexivity]. now rewrite H.
  - intros docId E H. unfold App.syncAll. simpl. now rewrite E, <- E, H.
  - intros a Ha Ht. unfold App.syncAll. simpl.
    destruct (App.activeDocId st) as [docId|]; [|assumption].
    destruct (App.truthy (Some docId)); [|assumption].
    apply in_or_app. right. apply filter_In. tauto.
  - intros docId a E H Ha Ht. unfold App.syncAll in Ha. simpl in Ha.
    rewrite E, <- E, H in Ha. apply in_app_or in Ha.
    destruct Ha as [Ha | Ha].
    + unfold getAnnotations in Ha. apply filter_In in Ha.
      destruct Ha as [Hin Hdoc]. apply jstr_eqb_eq in Hdoc. tauto.
    + apply filter_In in Ha. destruct Ha as [_ Ha]. congruence.
  - intros Hstored. unfold App.syncAll. simpl.
    destruct (App.activeDocId st) as [docId|] eqn:E; [|reflexivity].
    destruct (App.truthy (Some docId)) eqn:Ht; [|reflexivity].
    f_equal. f_equal. rewrite filter_app, filter_filter_same.
    rewrite filter_isTemp_stored; [reflexivity|].
    intros a Ha. unfold getAnnotations in Ha. apply filter_In in Ha.
    apply Hstored. tauto.
Qed.

Lemma syncAll_keeps_temporary_annotations_witness :
  App.annotations (App.syncAll 5 syncScenario)
  = [scenarioAnnotation "a1" 4 9 "quick" 1; scenarioFlash]
  /\ In scenarioFlash (App.annotations (App.syncAll 5 syncScenario))
  /\ (In (scenarioAnnotation "a1" 4 9 "quick" 1)
         (readAnnos (App.storage syncScenario))
      /\ Annotation.documentId (scenarioAnnotation "a1" 4 9 "quick" 1)
         = js "doc-1")
  /\ App.syncAll 5 (App.syncAll 5 syncScenario) = App.syncAll 5 syncScenario.
Proof.
  destruct (syncAll_keeps_temporary_annotations 5 syncScenario)
    as [_ [Hmerge [Hkeep [Hstored Hidem]]]].
  split; [|split; [|split]].
  - rewrite (Hmerge (js "doc-1") eq_refl eq_refl). reflexivity.
  - apply Hkeep; [right; left; reflexivity | reflexivity].
  - apply (Hstored (js "doc-1")); [reflexivity | reflexivity | | reflexivity].
    rewrite (Hmerge (js "doc-1") eq_refl eq_refl). left. reflexivity.
  - apply Hidem. intros a [<- | [<- | []]]; reflexivity.
Defined.

Lemma removeActive_gone (id : jstr) (l : list Annotation.t) (a : Annotation.t) :
  In a (App.removeActive id l) -> Annotation.id a <> id.
Proof.
  intros Ha. unfold App.removeActive in Ha. apply filter_In in Ha.
  destruct Ha as [_ Hn]. unfold hasId in Hn. intros E.
  apply jstr_eqb_eq in E. rewrite E in Hn. discriminate.
Qed.

Lemma removeActive_In (id : jstr) (l : list Annotation.t) (a : Annotation.t) :
  In a (App.removeActive id l) -> In a l.
Proof.
  intros Ha. unfold App.removeActive in Ha. apply filter_In in Ha. tauto.
Qed.

(** X14.  The life of a flash insight.  When the content-generation call
    fails, [handleFlashInsight] changes nothing.  When it answers, with a
    selection, an active document and a user at hand, the store is left as
    it is and the active set gains one annotation: temporary, of id
    [flash-] followed by the fresh identifier, on the selected range.  That
    annotation survives [syncAll]; the expiry removes every annotation with
    its id from the active set; and, as long as no stored annotation has
    that id, [syncAll] after the expiry does not bring it back. *)
Theorem flash_insight_is_ephemeral (responseText : option jstr) (uuid : jstr)
        (now : Z) (st : App.State) (selection : TextRange.t)
        (doc : DocumentData.t) (user : User.t) :
  App.currentSelection st = Some selection ->
  App.activeDoc st = Some doc ->
  App.currentUser st = Some user ->
  App.handleFlashInsight None uuid now st = st
  /\ exists flash,
      let st' := App.handleFlashInsight (Some responseText) uuid now st in
      App.storage st' = App.storage st
      /\ App.annotations st' = App.annotations st ++ [flash]
      /\ Annotation.id flash = js "flash-" ++ uuid
      /\ Annotation.range flash = selection
      /\ App.isTemp flash = true
      /\ (forall t, In flash (App.annotations (App.syncAll t st')))
      /\ (forall captured a,
             In a (App.annotations (App.expireFlash (Annotation.id flash) captured st')) ->
             Annotation.id a <> Annotation.id flash)
      /\ ((forall a, In a (readAnnos (App.storage st)) ->
                     Annotation.id a <> Annotation.id flash) ->
          forall captured t a,
            In a (App.annotations
                    (App.syncAll t (App.expireFlash (Annotation.id flash)
                                                    captured st'))) ->
            Annotation.id a <> Annotation.id flash).
Proof.
  intros Hsel Hdoc Huser. unfold App.handleFlashInsight.
  rewrite Hsel, Hdoc, Huser. split; [reflexivity|].
  eexists. cbn zeta. cbn [App.storage App.annotations]. 
  split; [reflexivity|]. split; [reflexivity|].
  split; [reflexivity|]. split; [reflexivity|]. split; [reflexivity|].
  split; [|split].
  - intros t. unfold App.syncAll. cbn [App.annotations App.activeDocId].
    destruct (App.activeDocId st) as [docId|];
      [|apply in_or_app; right; left; reflexivity].
    destruct (App.truthy (Some docId));
      [|apply in_or_app; right; left; reflexivity].
    apply in_or_app. right. apply filter_In. split; [|reflexivity].
    apply in_or_app. right. left. reflexivity.
  - intros captured a Ha. unfold App.expireFlash in Ha.
    cbn [App.annotations] in Ha. exact (removeActive_gone _ _ _ Ha).
  - intros Hstore captured t a Ha. unfold App.syncAll, App.expireFlash in Ha.
    cbn [App.annotations App.activeDocId App.storage] in Ha.
    destruct (App.activeDocId st) as [docId|];
      [|exact (removeActive_gone _ _ _ Ha)].
    destruct (App.truthy (Some docId)); [|exact (removeActive_gone _ _ _ Ha)].
    apply in_app_or in Ha. destruct Ha as [Ha | Ha].
    + unfold getAnnotations in Ha. apply filter_In in Ha. apply Hstore. tauto.
    + apply filter_In in Ha. destruct Ha as [Ha _].
      exact (removeActive_gone _ _ _ Ha).
Qed.

Lemma flash_insight_is_ephemeral_witness :
  App.handleFlashInsight None (js "u7") 3 scenarioState = scenarioState
  /\ exists flash,
      App.annotations (App.handleFlashInsight (Some (Some (js " wow ")))
                                              (js "u7") 3 scenarioState)
      = [flash]
      /\ Annotation.id flash = js "flash-u7"
      /\ Annotation.comment flash = js "wow".
Proof.
  destruct (flash_insight_is_ephemeral
              (Some (js " wow ")) (js "u7") 3 scenarioState
              (TextRange.Build 4 9 (js "quick")) scenarioDocument scenarioUser
              eq_refl eq_refl eq_refl)
    as [Hfail [flash [_ [Hann [Hid _]]]]].
  split; [exact Hfail|].
  exists flash. split; [exact Hann|]. split; [exact Hid|].
  simpl in Hann. injection Hann as <-. vm_compute. reflexivity.
Defined.

(** X15.  Publishing.  Without a selection, a user or an active document,
    or with a blank comment, [handleAddAnnotation] changes nothing.
    Otherwise it builds an annotation of the fresh id on the selected range,
    with the comment as typed and no replies, gives it to [saveAnnotation]
    and appends it to the active set whatever the store did; the selection
    and the comment are reset.  So when a stored annotation already has its
    (documentId, userId, start, end), the store is unchanged while the
    active set shows the new annotation, and the next [syncAll] drops it
    again unless a stored annotation is equal to it. *)
Theorem handleAddAnnotation_publishes (uuid : jstr) (now : Z) (st : App.State) :
  ((App.currentSelection st = None \/ App.currentUser st = None
    \/ App.truthy (App.activeDocId st) = false
    \/ trim (App.commentText st) = []) ->
   App.handleAddAnnotation uuid now st = st)
  /\ (forall selection user docId,
         App.currentSelection st = Some selection ->
         App.currentUser st = Some user ->
         App.activeDocId st = Some docId ->
         App.truthy (App.activeDocId st) = true ->
         trim (App.commentText st) <> [] ->
         let newAnno :=
           Annotation.Build uuid docId (User.id user) (User.name user)
                            (User.color user) selection (App.commentText st)
                            now (Some []) None in
         let st' := App.handleAddAnnotation uuid now st in
         App.annotations st' = App.annotations st ++ [newAnno]
         /\ App.storage st' = fst (saveAnnotation newAnno (App.storage st))
         /\ App.currentSelection st' = None
         /\ App.commentText st' = []
         /\ App.activeAnnotationId st' = Some uuid
         /\ ((exists a, In a (readAnnos (App.storage st)) /\ sameTuple a newAnno) ->
             App.storage st' = App.storage st
             /\ In newAnno (App.annotations st')
             /\ (~ In newAnno (readAnnos (App.storage st)) ->
                 forall t, ~ In newAnno (App.annotations (App.syncAll t st'))))).
Proof.
  split.
  - unfold App.handleAddAnnotation.
    destruct (App.activeDocId st) as [docId|]; [|reflexivity].
    destruct (App.currentSelection st) as [sel|]; [|reflexivity].
    destruct (App.currentUser st) as [user|]; [|reflexivity].
    intros [H | [H | [H | H]]]; try discriminate.
    + now rewrite H.
    + rewrite H. simpl. now rewrite andb_false_r.
  - intros selection user docId Hsel Huser Hdoc Htruthy Hcomment newAnno st'.
    assert (Hst' : st' =
              {| App.storage := fst (saveAnnotation newAnno (App.storage st));
                 App.currentUser := App.currentUser st;
                 App.documents := App.documents st;
                 App.activeDocId := App.activeDocId st;
                 App.annotations := App.annotations st ++ [newAnno];
                 App.presence := App.presence st;
                 App.currentSelection := None;
                 App.commentText := [];
                 App.activeAnnotationId := Some uuid |}).
    { subst st' newAnno. unfold App.handleAddAnnotation.
      rewrite Hsel, Huser, Hdoc. rewrite <- Hdoc, Htruthy.
      destruct (jstr_eqb (trim (App.commentText st)) []) eqn:E;
        [apply jstr_eqb_eq in E; contradiction|].
      reflexivity. }
    rewrite Hst'. cbn [App.annotations App.storage App.currentSelection
                       App.commentText App.activeAnnotationId].
    repeat (split; [reflexivity|]).
    intros Hdup.
    assert (Hsame : fst (saveAnnotation newAnno (App.storage st)) = App.storage st).
    { unfold saveAnnotation.
      destruct (find (sameSubmission newAnno) (readAnnos (App.storage st))) eqn:E;
        [reflexivity|].
      destruct Hdup as [a [Ha Hs]]. rewrite find_None_iff in E.
      specialize (E a Ha). apply sameSubmission_spec in Hs. congruence. }
    split; [exact Hsame|]. split; [apply in_or_app; right; left; reflexivity|].
    intros Hnot t Hin. unfold App.syncAll in Hin.
    cbn [App.annotations App.activeDocId App.storage] in Hin.
    rewrite Hdoc in Hin. rewrite <- Hdoc, Htruthy, Hsame in Hin.
    apply in_app_or in Hin. destruct Hin as [Hin | Hin].
    + unfold getAnnotations in Hin. apply filter_In in Hin. tauto.
    + apply filter_In in Hin. destruct Hin as [_ Ht]. discriminate.
Qed.

Lemma handleAddAnnotation_publishes_witness :
  App.annotations (App.handleAddAnnotation (js "id-1") 42 scenarioState)
  = [Annotation.Build (js "id-1") (js "doc-1") (js "user-1") (js "Alex")
                      (js "#ef4444") (TextRange.Build 4 9 (js "quick"))
                      (js "nice") 42 (Some []) None]
  /\ App.currentSelection (App.handleAddAnnotation (js "id-1") 42 scenarioState)
     = None.
Proof.
  destruct (proj2 (handleAddAnnotation_publishes (js "id-1") 42 scenarioState)
                  (TextRange.Build 4 9 (js "quick")) scenarioUser (js "doc-1")
                  eq_refl eq_refl eq_refl eq_refl
                  ltac:(vm_compute; discriminate))
    as [Hann [_ [Hsel _]]].
  split; [exact Hann | exact Hsel].
Defined.

(** As long as no annotation of the active set has a reply, no badge is
    drawn and the text of the container is the content. *)
Lemma sumZ_all_zero (l : list Z) : (forall x, In x l -> x = 0) -> sumZ l = 0.
Proof.
  induction l as [|x l IH]; simpl; intros H; [reflexivity|].
  rewrite (H x (or_introl eq_refl)), IH; [reflexivity|].
  intros y Hy. apply H. tauto.
Qed.

Lemma container_text_without_replies (fuel : nat) (content : jstr)
      (annotations : list Annotation.t) (active searchTerm : option jstr)
      (shown : option (list Segment)) :
  (forall x, In x annotations -> rangeWithin content x) ->
  (forall x, In x annotations -> repliesOf x = []) ->
  renderedContent fuel content annotations active searchTerm = Returned shown ->
  containerTextOf shown = content.
Proof.
  intros Hann Hnone Hr.
  destruct (returned_chain _ _ _ _ _ _ Hann Hr) as [Hchain Htext].
  assert (Hbadge : forall seg, In seg (segmentsOf shown) -> badgeText seg = []).
  { intros seg Hseg. destruct shown as [segs|]; [|destruct Hseg].
    destruct (renderedContent_segment _ _ _ _ _ _ _ Hr Hseg)
      as [sorted [s [e [_ [_ ->]]]]].
    unfold badgeText, buildSegment, highlightOf. cbn [mark].
    destruct (sortByTimestampDesc (filter (covers s e) annotations))
      as [|primary rest] eqn:E; [reflexivity|].
    cbn [totalReplies]. rewrite fold_left_replies, sumZ_all_zero; [reflexivity|].
    intros z Hz. apply in_map_iff in Hz. destruct Hz as [x [<- Hx]].
    rewrite <- E in Hx. apply (proj1 (sortByTimestampDesc_In _ _)) in Hx.
    apply filter_In in Hx. destruct Hx as [Hx _].
    specialize (Hnone x Hx). unfold repliesOf in Hnone. unfold repliesLength.
    destruct (Annotation.replies x); [rewrite Hnone|]; reflexivity. }
  unfold containerTextOf.
  rewrite <- (slice_whole content).
  rewrite <- (contiguous_concat content _ _ _ Hchain) by (try lia; assumption).
  f_equal. apply map_ext_in. intros seg Hseg. unfold nodeText.
  rewrite (Hbadge seg Hseg). apply app_nil_r.
Qed.

(** X16.  From the selection to the drawing, as long as no badge is drawn.
    The active set of the state holds annotations in range, none of which
    has a reply; the memo returns on it, and the container then holds the
    content itself.  The user selects a range of the page that lies in the
    container, the selection mapper emits a range for it, and the user
    publishes this range.  When the memo returns on the new active set, the
    texts of the segments covered by the new annotation, put one after the
    other, are the selected text, which is the piece of the content at the
    offsets of the selection counted from the start of the container. *)
Theorem published_selection_is_drawn (page : Page) (sel : Selection)
        (a b : nat) (content : jstr) (r : TextRange.t) (uuid : jstr) (now : Z)
        (st : App.State) (user : User.t) (docId : jstr)
        (fuel0 fuel : nat) (searchTerm0 active searchTerm : option jstr)
        (shown : option (list Segment)) (segs : list Segment) :
  (forall x, In x (App.annotations st) -> rangeWithin content x) ->
  (forall x, In x (App.annotations st) -> repliesOf x = []) ->
  renderedContent fuel0 content (App.annotations st)
                  (App.activeAnnotationId st) searchTerm0
  = Returned shown ->
  rangeAt0 sel = Some (a, b) ->
  (length (textBefore page) <= a)%nat ->
  (b <= length (textBefore page) + length (containerTextOf shown))%nat ->
  handleSelection page (Some sel) (Some (containerTextOf shown)) = Some r ->
  App.currentSelection st = Some r ->
  App.currentUser st = Some user ->
  App.activeDocId st = Some docId ->
  App.truthy (App.activeDocId st) = true ->
  trim (App.commentText st) <> [] ->
  renderedContent fuel content
                  (App.annotations (App.handleAddAnnotation uuid now st))
                  active searchTerm
  = Returned (Some segs) ->
  exists newAnno,
    App.annotations (App.handleAddAnnotation uuid now st)
    = App.annotations st ++ [newAnno]
    /\ Annotation.range newAnno = r
    /\ containerTextOf shown = content
    /\ TextRange.text r
       = slice content (Z.of_nat (a - length (textBefore page)))
               (Z.of_nat (b - length (textBefore page)))
    /\ List.concat
         (map seg_text
              (filter (fun s => covers (seg_start s) (seg_end s) newAnno) segs))
       = TextRange.text r.
Proof.
  intros Hann Hnone Hshown Hrange Ha Hb Hemit Hsel Huser Hdoc Htruthy
         Hcomment Hr.
  set (newAnno := Annotation.Build uuid docId (User.id user) (User.name user)
                                   (User.color user) r (App.commentText st)
                                   now (Some []) None).
  assert (Hst' : App.annotations (App.handleAddAnnotation uuid now st)
                 = App.annotations st ++ [newAnno]).
  { unfold App.handleAddAnnotation.
    rewrite Hsel, Huser, Hdoc. rewrite <- Hdoc, Htruthy.
    destruct (jstr_eqb (trim (App.commentText st)) []) eqn:E;
      [apply jstr_eqb_eq in E; contradiction|].
    reflexivity. }
  pose proof (container_text_without_replies _ _ _ _ _ _ Hann Hnone Hshown)
    as Hcontainer.
  exists newAnno. split; [exact Hst'|]. split; [reflexivity|].
  split; [exact Hcontainer|].
  destruct (emitted_range_spec _ _ _ _ _ _ Hrange Ha Hb Hemit)
    as [Hs [He [H0 [Hlt [HL [Htext _]]]]]].
  rewrite Hcontainer in HL, Htext.
  split; [now rewrite Htext, Hs, He|].
  rewrite Hst' in Hr.
  assert (Hall : forall x, In x (App.annotations st ++ [newAnno]) ->
                           rangeWithin content x).
  { intros x Hx. apply in_app_or in Hx. destruct Hx as [Hx | [<- | []]].
    - now apply Hann.
    - unfold rangeWithin. simpl. lia. }
  rewrite (covered_text_is_range_slice _ _ _ _ _ _ newAnno Hall Hr)
    by (apply in_or_app; right; left; reflexivity).
  simpl. now rewrite <- Htext.
Qed.

Lemma published_selection_is_drawn_witness :
  exists newAnno,
    App.annotations (App.handleAddAnnotation (js "id-1") 42 annotatedState)
    = App.annotations annotatedState ++ [newAnno]
    /\ Annotation.range newAnno = TextRange.Build 4 9 (js "quick")
    /\ containerTextOf
         (Some (map (fun p => buildSegment
                                scenarioContent
                                (App.annotations annotatedState)
                                None None (fst p) (snd p))
                    [(0, 3); (3, 19)]))
       = scenarioContent
    /\ js "quick"
       = slice scenarioContent (Z.of_nat (9 - length (js "Title")))
               (Z.of_nat (14 - length (js "Title")))
    /\ List.concat
         (map seg_text
              (filter (fun s => covers (seg_start s) (seg_end s) newAnno)
                      (map (fun p => buildSegment
                                       scenarioContent
                                       (App.annotations
                                          (App.handleAddAnnotation
                                             (js "id-1") 42 annotatedState))
                                       (Some (js "id-1")) None (fst p) (snd p))
                           [(0, 3); (3, 4); (4, 9); (9, 19)])))
       = js "quick".
Proof.
  apply (published_selection_is_drawn
           scenarioPage {| rangeAt0 := Some (9, 14)%nat |} 9%nat 14%nat
           scenarioContent (TextRange.Build 4 9 (js "quick")) (js "id-1") 42
           annotatedState scenarioUser (js "doc-1") 0 0 None
           (Some (js "id-1")) None).
  - intros x [<- | []]. unfold rangeWithin. simpl. lia.
  - intros x [<- | []]. reflexivity.
  - vm_compute. reflexivity.
  - reflexivity.
  - simpl. lia.
  - vm_compute. lia.
  - vm_compute. reflexivity.
  - reflexivity.
  - reflexivity.
  - reflexivity.
  - reflexivity.
  - vm_compute. discriminate.
  - vm_compute. reflexivity.
Defined.

(* ================================================================== *)
(** * Properties of the sidebar *)

Lemma insertByTimestamp_newestFirst (x : Annotation.t) (l : list Annotation.t) :
  newestFirst l -> newestFirst (insertByTimestamp x l).
Proof.
  unfold newestFirst. induction 1 as [|z l Hl IH Hz]; simpl.
  - repeat constructor.
  - destruct (Z.leb_spec (Annotation.timestamp z - Annotation.timestamp x) 0).
    + constructor; [now constructor|].
      constructor; [lia|].
      eapply Forall_impl; [|exact Hz]. simpl. intros; lia.
    + constructor; [exact IH|].
      apply Forall_forall. intros y Hy. apply insertByTimestamp_In in Hy.
      destruct Hy as [-> | Hy]; [lia|].
      rewrite Forall_forall in Hz. now apply Hz.
Qed.

Lemma sortByTimestampDesc_newestFirst (l : list Annotation.t) :
  newestFirst (sortByTimestampDesc l).
Proof.
  induction l as [|x l IH]; simpl; [constructor|].
  now apply insertByTimestamp_newestFirst.
Qed.

(** X17.  The list of the sidebar goes from the newest annotation to the
    oldest and holds exactly the annotations that pass the filters: the
    user filter unless it is [all], a start date (timestamp at or after
    it), and an end date (timestamp at most one day, 86400000 ms, after
    it).  Without filters it is a rearrangement of all annotations; with a
    start date that the platform cannot read it is empty. *)
Theorem filteredAnnotations_sorted_and_filtered (getTime : jstr -> option Z)
        (annotations : list Annotation.t) (filterUser startDate endDate : jstr) :
  let result :=
    Sidebar.filteredAnnotations getTime annotations filterUser startDate endDate in
  newestFirst result
  /\ (forall a,
         In a result <->
         In a annotations
         /\ (filterUser = js "all" \/ Annotation.userId a = filterUser)
         /\ (startDate = []
             \/ exists t, getTime startDate = Some t /\ t <= Annotation.timestamp a)
         /\ (endDate = []
             \/ exists t, getTime endDate = Some t
                          /\ Annotation.timestamp a <= t + 86400000))
  /\ (filterUser = js "all" -> startDate = [] -> endDate = [] ->
      Permutation annotations result)
  /\ (startDate <> [] -> getTime startDate = None -> result = []).
Proof.
  intros result. subst result. unfold Sidebar.filteredAnnotations.
  split; [apply sortByTimestampDesc_newestFirst|]. split; [|split].
  - intros a. rewrite sortByTimestampDesc_In.
    assert (Hend : forall l,
               In a match endDate with
                    | [] => l
                    | _ :: _ =>
                        filter (fun a0 =>
                                  Sidebar.leTime
                                    (Annotation.timestamp a0)
                                    (option_map (fun t => t + 86400000)
                                                (getTime endDate))) l
                    end
               <-> In a l
                   /\ (endDate = []
                       \/ exists t, getTime endDate = Some t
                                    /\ Annotation.timestamp a <= t + 86400000)).
    { intros l. destruct endDate as [|c e]; [tauto|].
      rewrite filter_In. unfold Sidebar.leTime.
      destruct (getTime (c :: e)) as [t|]; simpl.
      - rewrite Z.leb_le. split.
        + intros [H1 H2]. split; [assumption|]. right. exists t. tauto.
        + intros [H1 [H2 | [t' [E H2]]]]; [discriminate|].
          injection E as <-. tauto.
      - split; [intros [_ H]; discriminate|].
        intros [_ [H | [t [E _]]]]; discriminate. }
    assert (Hstart : forall l,
               In a match startDate with
                    | [] => l
                    | _ :: _ =>
                        filter (fun a0 =>
                                  Sidebar.geTime (Annotation.timestamp a0)
                                                 (getTime startDate)) l
                    end
               <-> In a l
                   /\ (startDate = []
                       \/ exists t, getTime startDate = Some t
                                    /\ t <= Annotation.timestamp a)).
    { intros l. destruct startDate as [|c e]; [tauto|].
      rewrite filter_In. unfold Sidebar.geTime.
      destruct (getTime (c :: e)) as [t|]; simpl.
      - rewrite Z.leb_le. split.
        + intros [H1 H2]. split; [assumption|]. right. exists t. tauto.
        + intros [H1 [H2 | [t' [E H2]]]]; [discriminate|].
          injection E as <-. tauto.
      - split; [intros [_ H]; discriminate|].
        intros [_ [H | [t [E _]]]]; discriminate. }
    rewrite Hend, Hstart.
    destruct (jstr_eqb filterUser (js "all")) eqn:Eu.
    + apply jstr_eqb_eq in Eu. tauto.
    + rewrite filter_In, jstr_eqb_eq.
      assert (filterUser <> js "all").
      { intros E. apply jstr_eqb_eq in E. congruence. }
      tauto.
  - intros -> -> ->. simpl. apply sortByTimestampDesc_Permutation.
  - intros Hne Hnone. destruct startDate as [|c e]; [congruence|].
    rewrite Hnone. simpl.
    assert (E : forall l, filter (fun _ : Annotation.t => false) l = [])
      by (intros l; apply filter_none; reflexivity).
    destruct endDate; rewrite E; reflexivity.
Qed.

Lemma filteredAnnotations_sorted_and_filtered_witness :
  Permutation
    [scenarioAnnotation "a1" 4 9 "quick" 1; scenarioAnnotation "a2" 0 3 "The" 5]
    (Sidebar.filteredAnnotations
       (fun _ => None)
       [scenarioAnnotation "a1" 4 9 "quick" 1; scenarioAnnotation "a2" 0 3 "The" 5]
       (js "all") [] []).
Proof.
  apply (proj1 (proj2 (proj2 (filteredAnnotations_sorted_and_filtered
                                (fun _ => None)
                                [scenarioAnnotation "a1" 4 9 "quick" 1;
                                 scenarioAnnotation "a2" 0 3 "The" 5]
                                (js "all") [] []))));
    reflexivity.
Defined.

Lemma mapGet_mapSet (k k' v : jstr) (m : list (jstr * jstr)) :
  Sidebar.mapGet k (Sidebar.mapSet k' v m)
  = if jstr_eqb k' k then Some v else Sidebar.mapGet k m.
Proof.
  induction m as [|[k0 v0] m IH]; simpl.
  - reflexivity.
  - destruct (jstr_eqb k0 k') eqn:E0; simpl.
    + apply jstr_eqb_eq in E0. subst k0.
      destruct (jstr_eqb k' k); reflexivity.
    + destruct (jstr_eqb k0 k) eqn:E1.
      * apply jstr_eqb_eq in E1. subst k0.
        destruct (jstr_eqb k' k) eqn:E2; [|reflexivity].
        apply jstr_eqb_eq in E2. subst k'.
        assert (jstr_eqb k k = true) by (apply jstr_eqb_eq; reflexivity).
        congruence.
      * exact IH.
Qed.

Lemma mapSet_keys (k v : jstr) (m : list (jstr * jstr)) :
  NoDup (map fst m) ->
  NoDup (map fst (Sidebar.mapSet k v m))
  /\ forall x, In x (map fst (Sidebar.mapSet k v m)) <-> x = k \/ In x (map fst m).
Proof.
  induction m as [|[k0 v0] m IH]; simpl; intros H.
  - split; [repeat constructor; intros [] | intros x; intuition].
  - inversion H as [|? ? Hk Hm]; subst. specialize (IH Hm).
    destruct IH as [IH1 IH2].
    destruct (jstr_eqb k0 k) eqn:E; simpl.
    + apply jstr_eqb_eq in E. subst k0. split; [assumption|]. intros x. intuition.
    + split.
      * constructor; [|assumption]. rewrite IH2. intros [-> | Hin].
        -- assert (jstr_eqb k k = true) by now apply jstr_eqb_eq. congruence.
        -- contradiction.
      * intros x. rewrite IH2. intuition.
Qed.

Lemma find_app_last (A : Type) (p : A -> bool) (l : list A) (a : A) :
  find p (l ++ [a])
  = match find p l with
    | Some x => Some x
    | None => if p a then Some a else None
    end.
Proof.
  induction l as [|x l IH]; simpl; [reflexivity|].
  destruct (p x); [reflexivity | exact IH].
Qed.

Lemma users_from (annotations : list Annotation.t) (m : list (jstr * jstr)) :
  NoDup (map fst m) ->
  let result :=
    fold_left (fun m a => Sidebar.mapSet (Annotation.userId a)
                                         (Annotation.userName a) m)
              annotations m in
  NoDup (map fst result)
  /\ (forall k, Sidebar.mapGet k result
                = match find (fun a => jstr_eqb (Annotation.userId a) k)
                             (rev annotations) with
                  | Some a => Some (Annotation.userName a)
                  | None => Sidebar.mapGet k m
                  end)
  /\ (forall k, In k (map fst result) <->
                In k (map fst m) \/ In k (map Annotation.userId annotations)).
Proof.
  revert m. induction annotations as [|a l IH]; intros m Hm; simpl.
  - split; [assumption|]. split; [reflexivity | intros k; tauto].
  - destruct (mapSet_keys (Annotation.userId a) (Annotation.userName a) m Hm)
      as [Hnd Hkeys].
    destruct (IH _ Hnd) as [H1 [H2 H3]]. split; [exact H1|]. split.
    + intros k. rewrite H2, find_app_last, mapGet_mapSet.
      destruct (find (fun a0 => jstr_eqb (Annotation.userId a0) k) (rev l));
        [reflexivity|].
      destruct (jstr_eqb (Annotation.userId a) k); reflexivity.
    + intros k. rewrite H3, Hkeys. intuition.
Qed.

(** X18.  The user list of the sidebar has one entry per user id that
    occurs among the annotations, no id twice and no other id; the name of
    an entry is the user name of the last annotation of that user. *)
Theorem users_one_entry_per_user (annotations : list Annotation.t) :
  NoDup (map fst (Sidebar.users annotations))
  /\ (forall k, In k (map fst (Sidebar.users annotations))
                <-> In k (map Annotation.userId annotations))
  /\ (forall k, Sidebar.mapGet k (Sidebar.users annotations)
                = option_map Annotation.userName
                             (find (fun a => jstr_eqb (Annotation.userId a) k)
                                   (rev annotations))).
Proof.
  destruct (users_from annotations [] (NoDup_nil _)) as [H1 [H2 H3]].
  split; [exact H1|]. split.
  - intros k. rewrite (H3 k). simpl. tauto.
  - intros k. unfold Sidebar.users. rewrite (H2 k).
    destruct (find (fun a => jstr_eqb (Annotation.userId a) k) (rev annotations));
      reflexivity.
Qed.

(* ================================================================== *)
(** * Properties of the upload zone *)

Lemma splitDot_nonempty (s : jstr) : UploadZone.splitDot s <> [].
Proof.
  induction s as [|c s IH]; simpl; [discriminate|].
  destruct (code c =? 46)%N; [discriminate|].
  destruct (UploadZone.splitDot s); [contradiction | discriminate].
Qed.

Lemma splitDot_dotFree (s : jstr) : dotFree s -> UploadZone.splitDot s = [s].
Proof.
  induction s as [|c s IH]; simpl; intros H; [reflexivity|].
  assert (Hc : (code c =? 46)%N = false).
  { apply N.eqb_neq. apply H. simpl. tauto. }
  rewrite Hc, IH; [reflexivity|]. intros d Hd. apply H. simpl. tauto.
Qed.

Lemma last_app_nonempty (A : Type) (l l' : list A) (d : A) :
  l' <> [] -> last (l ++ l') d = last l' d.
Proof.
  intros H. induction l as [|x l IH]; [reflexivity|].
  simpl app. destruct (l ++ l') eqn:E.
  - apply app_eq_nil in E. destruct E as [_ E]. contradiction.
  - rewrite <- IH. reflexivity.
Qed.

Lemma splitDot_more_pieces (base rest : jstr) :
  (length (UploadZone.splitDot rest)
   < length (UploadZone.splitDot (base ++ "."%char :: rest)))%nat.
Proof.
  induction base as [|x base IH]; simpl.
  - lia.
  - destruct (code x =? 46)%N; simpl; [lia|].
    destruct (UploadZone.splitDot (base ++ "."%char :: rest)); simpl in *; lia.
Qed.

(** The pieces behind a dot are the pieces of what follows the dot. *)
Lemma splitDot_behind_dot (base rest : jstr) :
  exists pre,
    UploadZone.splitDot (base ++ "."%char :: rest)
    = pre ++ UploadZone.splitDot rest.
Proof.
  induction base as [|c base [pre IH]]; simpl.
  - exists [[]]. reflexivity.
  - destruct (code c =? 46)%N.
    + exists ([] :: pre). now rewrite IH.
    + destruct pre as [|p ps].
      * exfalso. pose proof (splitDot_more_pieces base rest) as Hlen.
        rewrite IH in Hlen. simpl in Hlen. lia.
      * rewrite IH. exists ((c :: p) :: ps). reflexivity.
Qed.

Lemma splitDot_last_extension (base ext : jstr) :
  dotFree ext ->
  last (UploadZone.splitDot (base ++ "."%char :: ext)) [] = ext.
Proof.
  intros Hext. destruct (splitDot_behind_dot base ext) as [pre ->].
  rewrite last_app_nonempty by apply splitDot_nonempty.
  now rewrite splitDot_dotFree.
Qed.

Lemma splitDot_pieces_dotFree (s : jstr) :
  forall piece, In piece (UploadZone.splitDot s) -> dotFree piece.
Proof.
  induction s as [|c s IH]; simpl.
  - intros piece [<- | []] d [].
  - destruct (code c =? 46)%N eqn:Ec.
    + intros piece [<- | H]; [intros d [] | now apply IH].
    + destruct (UploadZone.splitDot s) as [|p ps].
      * intros piece [<- | []] d [<- | []]. now apply N.eqb_neq.
      * intros piece [<- | H].
        -- intros d [<- | Hd]; [now apply N.eqb_neq|].
           apply (IH p); simpl; tauto.
        -- apply IH. simpl. tauto.
Qed.

Lemma last_In_nonempty (A : Type) (l : list A) (d : A) :
  l <> [] -> In (last l d) l.
Proof.
  induction l as [|x l IH]; [contradiction|]. intros _.
  destruct l as [|y l]; [simpl; tauto|].
  right. apply IH. discriminate.
Qed.

Lemma lowerChar_dot (c : ascii) : code (lowerChar c) = 46%N -> code c = 46%N.
Proof.
  destruct c as [[] [] [] [] [] [] [] []]; vm_compute; congruence.
Qed.

(** X19.  The type of an uploaded file is the part of its name behind the
    last dot, in lower case, and the whole name in lower case when the name
    has no dot; it never holds a dot.  So the branch that
    [handleFileUpload] takes depends on the extension only, not on its
    case: [txt] sets the text of the file as it is, [pdf] goes through the
    PDF extraction, [doc] and [docx] set the extracted value unless it is
    empty, and every other type shows the message for an unsupported
    format. *)
Theorem upload_branch_follows_extension (base ext : jstr)
        (reads : UploadZone.FileReads) :
  dotFree ext ->
  UploadZone.fileType (base ++ "."%char :: ext) = toLowerCase ext
  /\ UploadZone.fileType ext = toLowerCase ext
  /\ dotFree (UploadZone.fileType (base ++ "."%char :: ext))
  /\ (toLowerCase ext = js "txt" ->
      UploadZone.handleFileUpload (base ++ "."%char :: ext) reads
      = UploadZone.Extracted (UploadZone.fileText reads))
  /\ (toLowerCase ext = js "pdf" ->
      UploadZone.handleFileUpload (base ++ "."%char :: ext) reads
      = UploadZone.extractTextFromPDF (UploadZone.pdfLoad reads)
                                      (UploadZone.ocrText reads))
  /\ (toLowerCase ext = js "docx" \/ toLowerCase ext = js "doc" ->
      UploadZone.handleFileUpload (base ++ "."%char :: ext) reads
      = match UploadZone.wordValue reads with
        | [] => UploadZone.Failed (js "Word document appears to be empty.")
        | _ :: _ => UploadZone.Extracted (UploadZone.wordValue reads)
        end)
  /\ (toLowerCase ext <> js "txt" -> toLowerCase ext <> js "pdf" ->
      toLowerCase ext <> js "docx" -> toLowerCase ext <> js "doc" ->
      UploadZone.handleFileUpload (base ++ "."%char :: ext) reads
      = UploadZone.Failed
          (js "Unsupported format. Please use .pdf, .docx, or .txt")).
Proof.
  intros Hext.
  assert (Htype : UploadZone.fileType (base ++ "."%char :: ext)
                  = toLowerCase ext).
  { unfold UploadZone.fileType. now rewrite splitDot_last_extension. }
  split; [exact Htype|]. split.
  { unfold UploadZone.fileType. now rewrite splitDot_dotFree. }
  split.
  { rewrite Htype. intros c Hc. unfold toLowerCase in Hc.
    apply in_map_iff in Hc. destruct Hc as [d [<- Hd]].
    intros E. apply lowerChar_dot in E. exact (Hext d Hd E). }
  unfold UploadZone.handleFileUpload. rewrite Htype.
  split; [|split; [|split]].
  - intros ->. reflexivity.
  - intros ->. reflexivity.
  - intros [-> | ->]; reflexivity.
  - intros H1 H2 H3 H4.
    destruct (jstr_eqb (toLowerCase ext) (js "txt")) eqn:E1;
      [apply jstr_eqb_eq in E1; contradiction|].
    destruct (jstr_eqb (toLowerCase ext) (js "pdf")) eqn:E2;
      [apply jstr_eqb_eq in E2; contradiction|].
    destruct (jstr_eqb (toLowerCase ext) (js "docx")) eqn:E3;
      [apply jstr_eqb_eq in E3; contradiction|].
    destruct (jstr_eqb (toLowerCase ext) (js "doc")) eqn:E4;
      [apply jstr_eqb_eq in E4; contradiction|].
    reflexivity.
Qed.

Lemma upload_branch_follows_extension_witness :
  UploadZone.fileType (js "Report.v2.TXT") = js "txt"
  /\ UploadZone.handleFileUpload (js "Report.v2.TXT") scenarioReads
     = UploadZone.Extracted (js "plain text").
Proof.
  destruct (upload_branch_follows_extension (js "Report.v2") (js "TXT")
                                            scenarioReads)
    as [Htype [_ [_ [Htxt _]]]].
  - intros c Hc. simpl in Hc.
    destruct Hc as [<- | [<- | [<- | []]]]; vm_compute; discriminate.
  - split; [exact Htype | apply Htxt; reflexivity].
Defined.

Lemma trim_nonempty_length (s : jstr) : s <> [] -> (0 < length s)%nat.
Proof. destruct s; [contradiction | simpl; lia]. Qed.

(** X20.  The PDF extraction never gives an empty text and never an empty
    message.  A page text of at least 100 characters (trimmed) is returned
    as it is, whatever the recognition would give; below that, a
    recognition result of more than 50 characters replaces it, and
    otherwise the short text is kept if there is any.  So a PDF or Word
    upload that succeeds never sets an empty content, while a text file is
    taken as it is. *)
Theorem pdf_extraction_is_never_empty (load : UploadZone.PdfLoad) (ocr : jstr) :
  (forall text, UploadZone.extractTextFromPDF load ocr = UploadZone.Extracted text ->
                text <> [])
  /\ (forall message,
         UploadZone.extractTextFromPDF load ocr = UploadZone.Failed message ->
         message <> [])
  /\ (forall pages,
         (100 <= length (trim (UploadZone.pagesText pages)))%nat ->
         UploadZone.extractTextFromPDF (UploadZone.Loaded pages) ocr
         = UploadZone.Extracted (trim (UploadZone.pagesText pages)))
  /\ (forall pages,
         (length (trim (UploadZone.pagesText pages)) < 100)%nat ->
         (50 < length ocr)%nat ->
         UploadZone.extractTextFromPDF (UploadZone.Loaded pages) ocr
         = UploadZone.Extracted ocr)
  /\ (forall pages,
         (0 < length (trim (UploadZone.pagesText pages)))%nat ->
         (length ocr <= 50)%nat ->
         UploadZone.extractTextFromPDF (UploadZone.Loaded pages) ocr
         = UploadZone.Extracted (trim (UploadZone.pagesText pages)))
  /\ (forall name reads text,
         UploadZone.fileType name <> js "txt" ->
         UploadZone.handleFileUpload name reads = UploadZone.Extracted text ->
         text <> []).
Proof.
  assert (Hne : forall s, jstr_eqb s [] = false <-> s <> []).
  { intros s. split.
    - intros E H. apply jstr_eqb_eq in H. congruence.
    - intros H. destruct (jstr_eqb s []) eqn:E; [|reflexivity].
      apply jstr_eqb_eq in E. contradiction. }
  assert (Hextract : forall l o text,
             UploadZone.extractTextFromPDF l o = UploadZone.Extracted text ->
             text <> []).
  { intros l o text. unfold UploadZone.extractTextFromPDF.
    destruct l as [m|pages]; [discriminate|].
    destruct (jstr_eqb (trim (UploadZone.pagesText pages)) []) eqn:Er; simpl.
    - destruct (jstr_eqb o []) eqn:Eo; simpl; [discriminate|].
      destruct (50 <? length o)%nat; [|discriminate].
      intros E. injection E as <-. now apply Hne.
    - destruct (length (trim (UploadZone.pagesText pages)) <? 100)%nat.
      + destruct (jstr_eqb o []) eqn:Eo; simpl.
        * intros E. injection E as <-. now apply Hne.
        * destruct (50 <? length o)%nat; intros E; injection E as <-;
            now apply Hne.
      + intros E. injection E as <-. now apply Hne. }
  split; [apply Hextract|]. split; [|split; [|split; [|split]]].
  - intros message. unfold UploadZone.extractTextFromPDF, UploadZone.messageOr.
    destruct load as [m|pages].
    + destruct m; intros E; injection E as <-; discriminate.
    + destruct (jstr_eqb (trim (UploadZone.pagesText pages)) []
                || (length (trim (UploadZone.pagesText pages)) <? 100)%nat);
        [|discriminate].
      destruct (negb (jstr_eqb ocr []) && (50 <? length ocr)%nat); [discriminate|].
      destruct (jstr_eqb (trim (UploadZone.pagesText pages)) []); [|discriminate].
      intros E. injection E as <-. discriminate.
  - intros pages H. unfold UploadZone.extractTextFromPDF.
    assert (E1 : jstr_eqb (trim (UploadZone.pagesText pages)) [] = false).
    { apply Hne. intros E. rewrite E in H. simpl in H. lia. }
    assert (E2 : (length (trim (UploadZone.pagesText pages)) <? 100)%nat = false)
      by (apply Nat.ltb_ge; lia).
    now rewrite E1, E2.
  - intros pages H Hocr. unfold UploadZone.extractTextFromPDF.
    assert (E2 : (length (trim (UploadZone.pagesText pages)) <? 100)%nat = true)
      by (apply Nat.ltb_lt; lia).
    assert (E3 : jstr_eqb ocr [] = false).
    { apply Hne. intros E. rewrite E in Hocr. simpl in Hocr. lia. }
    assert (E4 : (50 <? length ocr)%nat = true) by (apply Nat.ltb_lt; lia).
    rewrite E2, E3, E4, orb_true_r. reflexivity.
  - intros pages H Hocr. unfold UploadZone.extractTextFromPDF.
    assert (E1 : jstr_eqb (trim (UploadZone.pagesText pages)) [] = false).
    { apply Hne. intros E. rewrite E in H. simpl in H. lia. }
    assert (E4 : (50 <? length ocr)%nat = false) by (apply Nat.ltb_ge; lia).
    rewrite E1, E4, andb_false_r. simpl.
    destruct (length (trim (UploadZone.pagesText pages)) <? 100)%nat; reflexivity.
  - intros name reads text Htxt. unfold UploadZone.handleFileUpload.
    destruct (jstr_eqb (UploadZone.fileType name) (js "txt")) eqn:E1;
      [apply jstr_eqb_eq in E1; contradiction|].
    destruct (jstr_eqb (UploadZone.fileType name) (js "pdf")); [apply Hextract|].
    destruct (jstr_eqb (UploadZone.fileType name) (js "docx")
              || jstr_eqb (UploadZone.fileType name) (js "doc")); [|discriminate].
    destruct (UploadZone.wordValue reads) eqn:Ew; [discriminate|].
    intros E. injection E as <-. discriminate.
Qed.

Lemma pdf_extraction_is_never_empty_witness :
  UploadZone.handleFileUpload (js "scan.PDF") scenarioReads
  = UploadZone.Extracted (js "Hello  world").
Proof.
  assert (H : UploadZone.handleFileUpload (js "scan.PDF") scenarioReads
              = UploadZone.extractTextFromPDF
                  (UploadZone.pdfLoad scenarioReads)
                  (UploadZone.ocrText scenarioReads)) by reflexivity.
  rewrite H.
  apply (proj1 (proj2 (proj2 (proj2 (proj2
           (pdf_extraction_is_never_empty
              (UploadZone.pdfLoad scenarioReads)
              (UploadZone.ocrText scenarioReads))))))
           [Some [Some (js "Hello"); None; Some (js "world")]; None]).
  - vm_compute. lia.
  - simpl. lia.
Defined.
